(** * FalconFix v3: dependency graph and upgrade strategy

    A shallow embedding of [dependency_graph.py] and [upgrade_strategy.py]:
    the tree parser, the graph scorer, the query surface, the printout and
    the upgrade strategy engine, followed by the properties the
    specification states about them and by further properties of the code.

    Conventions of the embedding.
    - A Python [str] is the list of its Unicode code points ([list N]).
      String constants are written as UTF-8 literals and decoded by [py].
    - A Python exception is a value [Raise e] of the type [result]. In the
      parser, the scorer, the queries and the engine every operation that
      can raise (a subscript, an unpacking, a division, [max] of an empty
      sequence) is written as the operation that can fail, also where the
      surrounding code guards it.
    - A Python [dict] is an insertion-ordered association list ([dict]);
      the parser's depth table, whose order is never observed, is a [gmap].
    - A Python [float] is the rational it denotes; every floating-point
      operation is the exact operation followed by [binary64], the
      rounding to the nearest double (ties to even). Infinities and NaN do
      not arise in this program and are not modelled.
    - [int] is unbounded. [int_of_digits] is the value [int()] returns on
      a run of digits it accepts; under the interpreter's default setting
      it raises ValueError on a run of more than [max_str_digits] digits
      ([int_accepts]). The functions that read versions are written on
      the value, and the properties that say when such a call returns, or
      which calls raise, are stated for versions whose runs [int()]
      accepts ([readable]). *)

From Stdlib Require Import QArith Qround Qabs Qpower Lqa Sorted.
From Stdlib Require Import String Ascii.
From stdpp Require Import base tactics option numbers gmap list.

Local Open Scope N_scope.
Local Open Scope list_scope.

(* ================================================================== *)
(** * Python strings                                                   *)
(* ================================================================== *)

Abbreviation char := N.
Abbreviation str := (list N).

(** Decoding of a UTF-8 byte sequence into code points (for literals). *)
Fixpoint utf8_decode (bs : list N) : str :=
  match bs with
  | [] => []
  | b :: r =>
      if b <? 0x80 then b :: utf8_decode r
      else if b <? 0xE0 then
        match r with
        | b1 :: r1 => ((b - 0xC0) * 64 + (b1 - 0x80)) :: utf8_decode r1
        | _ => []
        end
      else if b <? 0xF0 then
        match r with
        | b1 :: b2 :: r2 =>
            ((b - 0xE0) * 4096 + (b1 - 0x80) * 64 + (b2 - 0x80))
              :: utf8_decode r2
        | _ => []
        end
      else
        match r with
        | b1 :: b2 :: b3 :: r3 =>
            ((b - 0xF0) * 262144 + (b1 - 0x80) * 4096 + (b2 - 0x80) * 64
             + (b3 - 0x80)) :: utf8_decode r3
        | _ => []
        end
  end.

(** [py "text"] is the Python string written [text]. *)
Definition py (s : string) : str :=
  utf8_decode (map N_of_ascii (list_ascii_of_string s)).

Definition COLON : char := 58.    (* ':' *)
Definition LPAREN : char := 40.   (* '(' *)
Definition RPAREN : char := 41.   (* ')' *)
Definition NEWLINE : char := 10.  (* '\n' *)
Definition BOX_V : char := 0x2502.    (* the vertical connector *)
Definition BOX_VR : char := 0x251C.   (* the branch-mid connector *)
Definition BOX_UR : char := 0x2514.   (* the branch-last connector *)
Definition BOX_H : char := 0x2500.    (* the dash *)

(** [str.isspace] of one character, which is also the class [\s] of [re]
    on [str] patterns. *)
Definition isspace (c : char) : bool :=
  ((9 <=? c) && (c <=? 13)) || ((28 <=? c) && (c <=? 32))
  || (c =? 0x85) || (c =? 0xA0) || (c =? 0x1680)
  || ((0x2000 <=? c) && (c <=? 0x200A))
  || (c =? 0x2028) || (c =? 0x2029) || (c =? 0x202F) || (c =? 0x205F)
  || (c =? 0x3000).

(** First code points of the runs of ten decimal digits of the Unicode
    database (category Nd, Unicode 14), and the fifty mathematical digits
    from U+1D7CE on; [\d] of [re] and [int()] both read these. *)
Definition decimal_blocks : list N :=
  [0x30; 0x660; 0x6F0; 0x7C0; 0x966; 0x9E6; 0xA66; 0xAE6; 0xB66; 0xBE6;
   0xC66; 0xCE6; 0xD66; 0xDE6; 0xE50; 0xED0; 0xF20; 0x1040; 0x1090;
   0x17E0; 0x1810; 0x1946; 0x19D0; 0x1A80; 0x1A90; 0x1B50; 0x1BB0;
   0x1C40; 0x1C50; 0xA620; 0xA8D0; 0xA900; 0xA9D0; 0xA9F0; 0xAA50;
   0xABF0; 0xFF10; 0x104A0; 0x10D30; 0x11066; 0x110F0; 0x11136;
   0x111D0; 0x112F0; 0x11450; 0x114D0; 0x11650; 0x116C0; 0x11730;
   0x118E0; 0x11950; 0x11C50; 0x11D50; 0x11DA0; 0x16A60; 0x16AC0;
   0x16B50; 0x1E140; 0x1E2F0; 0x1E950; 0x1FBF0].

(** The value of a decimal digit, [None] for any other character. *)
Definition digit_value (c : char) : option N :=
  if (0x1D7CE <=? c) && (c <=? 0x1D7FF) then Some ((c - 0x1D7CE) mod 10)
  else
    match List.find (fun b => (b <=? c) && (c <=? b + 9)) decimal_blocks with
    | Some b => Some (c - b)
    | None => None
    end.

Definition isdigit (c : char) : bool :=
  match digit_value c with Some _ => true | None => false end.

Section ListScan.
Context {A : Type}.

Fixpoint take_while (p : A -> bool) (l : list A) : list A :=
  match l with
  | x :: r => if p x then x :: take_while p r else []
  | [] => []
  end.

Fixpoint drop_while (p : A -> bool) (l : list A) : list A :=
  match l with
  | x :: r => if p x then drop_while p r else l
  | [] => []
  end.
End ListScan.

(** [s.lstrip()], [s.rstrip()], [s.strip()]. *)
Definition lstrip (s : str) : str := drop_while isspace s.
Definition rstrip (s : str) : str := rev (drop_while isspace (rev s)).
Definition strip (s : str) : str := rstrip (lstrip s).

(** [s.split(sep)] for a separator of one character. *)
Fixpoint split (sep : char) (s : str) : list str :=
  match s with
  | [] => [[]]
  | c :: r =>
      if c =? sep then [] :: split sep r
      else
        match split sep r with
        | p :: ps => (c :: p) :: ps
        | [] => [[c]]
        end
  end.

(** [s.count(c)] and [c in s] for a character [c]. *)
Definition count (c : char) (s : str) : nat :=
  length (filter (fun x => x = c) s).

Definition contains (c : char) (s : str) : bool :=
  existsb (N.eqb c) s.

Definition str_eqb (a b : str) : bool := bool_decide (a = b).

(** [s.startswith(p)]. *)
Fixpoint startswith (p s : str) : bool :=
  match p, s with
  | [], _ => true
  | x :: p', y :: s' => (x =? y) && startswith p' s'
  | _ :: _, [] => false
  end.

(** [sub in s] for a string [sub]. *)
Fixpoint str_in (sub s : str) : bool :=
  startswith sub s
  || match s with
     | [] => false
     | _ :: r => str_in sub r
     end.

(** Deleting every match of a pattern, left to right, as [re.sub(p, '', s)]
    and [s.replace(old, '')] do: [m s] is the length of the match that
    starts at the head of [s], if there is one; a match that was found is
    skipped whole and the scan resumes behind it. The patterns used here
    never match the empty string. *)
Fixpoint delete_matches_from (m : str -> option nat) (skip : nat) (s : str)
  : str :=
  match s with
  | [] => []
  | c :: r =>
      match skip with
      | S k => delete_matches_from m k r
      | O =>
          match m s with
          | Some (S k) => delete_matches_from m k r
          | _ => c :: delete_matches_from m O r
          end
      end
  end.

Definition delete_matches (m : str -> option nat) (s : str) : str :=
  delete_matches_from m O s.

(** [s.replace(old, '')], [old] not empty. *)
Definition replace_with_empty (old s : str) : str :=
  delete_matches (fun t => if startswith old t then Some (length old) else None) s.

(** [re.findall(r'\d+', s)]: the maximal runs of decimal digits of [s],
    left to right. [run] is the run being read, most recent digit first. *)
Fixpoint digit_runs_from (run : str) (s : str) : list str :=
  match s with
  | [] => match run with [] => [] | _ => [rev run] end
  | c :: r =>
      if isdigit c then digit_runs_from (c :: run) r
      else
        match run with
        | [] => digit_runs_from [] r
        | _ => rev run :: digit_runs_from [] r
        end
  end.

Definition findall_digits (s : str) : list str := digit_runs_from [] s.

(** [int(s)] for a non-empty string of decimal digits. *)
Definition int_of_digits (s : str) : N :=
  fold_left (fun acc c => 10 * acc + default 0 (digit_value c)) s 0.

(** The interpreter's default limit on the number of digits of a string
    [int()] converts ([sys.int_info.default_max_str_digits]): on a longer
    run [int()] raises ValueError. *)
Definition max_str_digits : nat := 4300.

Definition int_accepts (s : str) : bool :=
  (length s <=? max_str_digits)%nat.

(* ================================================================== *)
(** * Version utilities ([upgrade_strategy.py])                        *)
(* ================================================================== *)

Definition qualifiers : list str :=
  [py "SNAPSHOT"; py "Final"; py "RELEASE"; py "GA"].

(** [parse_version]: the tuple [(major, minor, patch, qualifier)]. The
    loop over [qualifiers] stops at the first one found in [version]. *)
Definition parse_version (version : str) : N * N * N * str :=
  let '(qualifier, clean_version) :=
    match List.find (fun q => str_in q version) qualifiers with
    | Some q =>
        (q, replace_with_empty (py "." ++ q)
              (replace_with_empty (py "-" ++ q) version))
    | None => ([], version)
    end in
  let parts := findall_digits clean_version in
  let major := match parts !! 0%nat with Some p => int_of_digits p | None => 0 end in
  let minor := match parts !! 1%nat with Some p => int_of_digits p | None => 0 end in
  let patch := match parts !! 2%nat with Some p => int_of_digits p | None => 0 end in
  (major, minor, patch, qualifier).

(** The components [p[0]] and [p[1]] of a parsed version. *)
Definition major_of (p : N * N * N * str) : N := p.1.1.1.
Definition minor_of (p : N * N * N * str) : N := p.1.1.2.

Definition is_same_major_minor (v1 v2 : str) : bool :=
  let p1 := parse_version v1 in
  let p2 := parse_version v2 in
  (major_of p1 =? major_of p2) && (minor_of p1 =? minor_of p2).

Definition is_same_major (v1 v2 : str) : bool :=
  let p1 := parse_version v1 in
  let p2 := parse_version v2 in
  major_of p1 =? major_of p2.

Definition version_jump_type (from_v to_v : str) : str :=
  let p1 := parse_version from_v in
  let p2 := parse_version to_v in
  if negb (major_of p1 =? major_of p2) then py "major"
  else if negb (minor_of p1 =? minor_of p2) then py "minor"
  else py "patch".

(* ================================================================== *)
(** * Python floats                                                    *)
(* ================================================================== *)

Local Open Scope Z_scope.
Local Open Scope Q_scope.

(** Rounding of a rational to the nearest integer, ties to the even one. *)
Definition round_half_even (q : Q) : Z :=
  let n := Qnum q in
  let d := Z.pos (Qden q) in
  let f := (n / d)%Z in
  let r2 := (2 * (n - f * d))%Z in
  if (r2 <? d)%Z then f
  else if (d <? r2)%Z then (f + 1)%Z
  else if Z.even f then f else (f + 1)%Z.

(** [pow2 e] is 2^e. *)
Definition pow2 (e : Z) : Q :=
  if (0 <=? e)%Z then inject_Z (2 ^ e) else / inject_Z (2 ^ (- e)).

(** For [x > 0], the exponent [e] with 2^e <= x < 2^(e+1). *)
Definition floor_log2 (x : Q) : Z :=
  let e0 := (Z.log2 (Qnum x) - Z.log2 (Z.pos (Qden x)))%Z in
  if Qle_bool (pow2 e0) x then e0 else (e0 - 1)%Z.

(** The double nearest to [q] (53 significant bits, least exponent -1074,
    ties to even), as a rational in lowest terms. *)
Definition binary64 (q : Q) : Q :=
  let q := Qred q in
  if (Qnum q =? 0)%Z then 0
  else
    let a := Qabs q in
    let u := Z.max (floor_log2 a - 52) (-1074) in
    let m := round_half_even (a / pow2 u) in
    Qred (inject_Z (Z.sgn (Qnum q) * m) * pow2 u).

(** Arithmetic on floats, and the division [a / b] of two [int]s. *)
Definition float_mul (a b : Q) : Q := binary64 (a * b).
Definition float_sub (a b : Q) : Q := binary64 (a - b).

(** A float literal of the source text. *)
Definition float_lit (q : Q) : Q := binary64 q.

(** [max(a, b)] and [min(a, b)] of two floats: the first argument unless the
    second is greater (smaller). *)
Definition float_max (a b : Q) : Q := if Qle_bool b a then a else b.
Definition float_min (a b : Q) : Q := if Qle_bool a b then a else b.

(** [round(x, 3)]: [x] rounded to three decimals, ties to even, and then
    to the nearest double. *)
Definition round3 (x : Q) : Q :=
  binary64 (inject_Z (round_half_even (x * 1000)) / 1000).

Local Close Scope Q_scope.
Local Close Scope Z_scope.
Local Close Scope N_scope.
Local Open Scope nat_scope.

(* ================================================================== *)
(** * Exceptions and dictionaries                                      *)
(* ================================================================== *)

Inductive exn : Set := KeyError | IndexError | ValueError | ZeroDivisionError.

Inductive result (A : Type) : Type :=
  | Ok (a : A)
  | Raise (e : exn).
Arguments Ok {A} a.
Arguments Raise {A} e.

#[global] Instance result_ret : MRet result := fun A a => Ok a.
#[global] Instance result_bind : MBind result := fun A B f m =>
  match m with
  | Ok a => f a
  | Raise e => Raise e
  end.

(** [for x in l: st = body(st, x)], stopping at the first exception. *)
Fixpoint for_each {S A : Type} (body : S -> A -> result S) (st : S)
  (l : list A) : result S :=
  match l with
  | [] => Ok st
  | x :: r => st' ← body st x; for_each body st' r
  end.

(** [l[i]], [l[-1]], [a, b = l] and [max(l)]. *)
Definition subscript {A} (l : list A) (i : nat) : result A :=
  match l !! i with
  | Some x => Ok x
  | None => Raise IndexError
  end.

Definition subscript_last {A} (l : list A) : result A :=
  match list.last l with
  | Some x => Ok x
  | None => Raise IndexError
  end.

Definition unpack2 {A} (l : list A) : result (A * A) :=
  match l with
  | [a; b] => Ok (a, b)
  | _ => Raise ValueError
  end.

Definition py_max (l : list nat) : result nat :=
  match l with
  | [] => Raise ValueError
  | x :: r => Ok (fold_left Nat.max r x)
  end.

(** [a / b] of two [int]s: the quotient, correctly rounded. *)
Definition float_quotient (a b : nat) : Q :=
  binary64 (inject_Z (Z.of_nat a) / inject_Z (Z.of_nat b)).

Definition true_div (a b : nat) : result Q :=
  match b with
  | O => Raise ZeroDivisionError
  | _ => Ok (float_quotient a b)
  end.

(** An insertion-ordered dictionary with string keys. *)
Definition dict (V : Type) : Type := list (str * V).

Section Dict.
Context {V : Type}.

Fixpoint dict_get (k : str) (d : dict V) : option V :=
  match d with
  | [] => None
  | (k', v) :: r => if str_eqb k k' then Some v else dict_get k r
  end.

(** [k in d] *)
Definition dict_in (k : str) (d : dict V) : bool :=
  match dict_get k d with Some _ => true | None => false end.

(** [d[k]] *)
Definition dict_item (k : str) (d : dict V) : result V :=
  match dict_get k d with
  | Some v => Ok v
  | None => Raise KeyError
  end.

(** [d[k] = v]: a present key keeps its place, a new one goes last. *)
Fixpoint dict_set (k : str) (v : V) (d : dict V) : dict V :=
  match d with
  | [] => [(k, v)]
  | (k', v') :: r =>
      if str_eqb k k' then (k, v) :: r else (k', v') :: dict_set k v r
  end.

Definition dict_values (d : dict V) : list V := map snd d.
End Dict.

(* ================================================================== *)
(** * The dependency graph ([dependency_graph.py])                     *)
(* ================================================================== *)

Record DependencyNode : Type := {
  ga : str;
  version : str;
  depth : nat;
  is_direct : bool;
  parents : list str;
  children : list str;
  centrality_score : Q;
  impact_score : Q;
}.

(** [node.parents.append(p)], [node.children.append(c)] and the two
    assignments of scores, on the node they mutate. *)
Definition append_parent (p : str) (n : DependencyNode) : DependencyNode :=
  {| ga := ga n; version := version n; depth := depth n;
     is_direct := is_direct n; parents := parents n ++ [p];
     children := children n; centrality_score := centrality_score n;
     impact_score := impact_score n |}.

Definition append_child (c : str) (n : DependencyNode) : DependencyNode :=
  {| ga := ga n; version := version n; depth := depth n;
     is_direct := is_direct n; parents := parents n;
     children := children n ++ [c]; centrality_score := centrality_score n;
     impact_score := impact_score n |}.

Definition set_scores (c i : Q) (n : DependencyNode) : DependencyNode :=
  {| ga := ga n; version := version n; depth := depth n;
     is_direct := is_direct n; parents := parents n;
     children := children n; centrality_score := c; impact_score := i |}.

Record DependencyGraph : Type := {
  nodes : dict DependencyNode;
  root_project : option str;
}.

(** [DependencyGraph()] *)
Definition new_graph : DependencyGraph :=
  {| nodes := []; root_project := None |}.

Definition set_nodes (d : dict DependencyNode) (self : DependencyGraph)
  : DependencyGraph :=
  {| nodes := d; root_project := root_project self |}.

Definition set_root_project (r : option str) (self : DependencyGraph)
  : DependencyGraph :=
  {| nodes := nodes self; root_project := r |}.

(** The character class of the tree prefix. *)
Definition tree_char (c : char) : bool :=
  (c =? BOX_V)%N || (c =? BOX_VR)%N || (c =? BOX_UR)%N || (c =? BOX_H)%N
  || isspace c.

(** [_calculate_depth]. The pattern matches at the head of every line
    (possibly the empty prefix), so the branch of the source for a failed
    match is never taken. *)
Definition _calculate_depth (line : str) : nat :=
  let prefix := take_while tree_char line in
  let vertical_bars := count BOX_V prefix in
  let has_branch :=
    if contains BOX_VR prefix || contains BOX_UR prefix then 1 else 0 in
  vertical_bars + has_branch.

(** The length of a match of the annotation pattern, blanks, an opening
    parenthesis, anything up to the next closing one, blanks, at the head
    of [s]. *)
Definition annotation_match (s : str) : option nat :=
  let not_rparen := fun x => negb (x =? RPAREN)%N in
  match drop_while isspace s with
  | c :: r =>
      if (c =? LPAREN)%N then
        match drop_while not_rparen r with
        | _ :: r' =>
            Some (length (take_while isspace s) + 1
                  + length (take_while not_rparen r) + 1
                  + length (take_while isspace r'))
        | [] => None
        end
      else None
  | [] => None
  end.

(** The content of a line: prefix and annotations removed, stripped. *)
Definition clean_line (line : str) : str :=
  let clean := drop_while tree_char line in
  let clean := delete_matches annotation_match clean in
  strip clean.

(** [_extract_ga_version]: [Some (ga, version)], or [None] for the pair
    [(None, None)]. *)
Definition _extract_ga_version (line : str) : result (option (str * str)) :=
  let clean := clean_line line in
  match clean with
  | [] => Ok None
  | _ =>
      let parts := split COLON clean in
      if 3 <=? length parts then
        group ← subscript parts 0;
        artifact ← subscript parts 1;
        version ← subscript_last parts;
        Ok (Some (group ++ [COLON] ++ artifact, version))
      else Ok None
  end.

(** [_add_node]. [parent] is [None] or a string; an empty string is as
    false as [None]. The node is read again from the dictionary after each
    mutation, so a node that is its own parent is handled as the shared
    object it is. *)
Definition _add_node (self : DependencyGraph) (ga version : str)
  (depth : nat) (is_direct : bool) (parent : option str)
  : result DependencyGraph :=
  let self :=
    if dict_in ga (nodes self) then self
    else set_nodes (dict_set ga
           {| ga := ga; version := version; depth := depth;
              is_direct := is_direct; parents := []; children := [];
              centrality_score := 0; impact_score := 0 |} (nodes self)) self in
  node ← dict_item ga (nodes self);
  match parent with
  | Some p =>
      if negb (bool_decide (p = [])) && negb (bool_decide (p ∈ parents node))
      then
        let self := set_nodes (dict_set ga (append_parent p node) (nodes self)) self in
        if dict_in p (nodes self) then
          pnode ← dict_item p (nodes self);
          if negb (bool_decide (ga ∈ children pnode)) then
            pnode ← dict_item p (nodes self);
            Ok (set_nodes (dict_set p (append_child ga pnode) (nodes self)) self)
          else Ok self
        else Ok self
      else Ok self
  | None => Ok self
  end.

(** One turn of the loop of [parse_tree_text] over the lines; the state is
    the graph and the table [depth_parents]. *)
Definition parse_line (st : DependencyGraph * gmap nat str) (line : str)
  : result (DependencyGraph * gmap nat str) :=
  let '(self, depth_parents) := st in
  match strip line with
  | [] => Ok st
  | _ =>
      let depth := _calculate_depth line in
      gv ← _extract_ga_version line;
      match gv with
      | None => Ok st
      | Some ([], _) => Ok st
      | Some (ga, version) =>
          if depth =? 0 then
            let self := set_root_project (Some ga) self in
            let depth_parents := <[0 := ga]> depth_parents in
            self ← _add_node self ga version 0 true None;
            Ok (self, depth_parents)
          else
            let parent_ga := depth_parents !! (depth - 1) in
            self ← _add_node self ga version depth (depth =? 1) parent_ga;
            let depth_parents := <[depth := ga]> depth_parents in
            let depth_parents :=
              filter (fun kv : nat * str => kv.1 ≤ depth) depth_parents in
            Ok (self, depth_parents)
      end
  end.

(** The degree of a node: [len(n.parents) + len(n.children)]. *)
Definition degree (n : DependencyNode) : nat :=
  length (parents n) + length (children n).

(** The body of the loop of [_calculate_scores] for one node. *)
Definition score_node (max_degree max_depth : nat) (node : DependencyNode)
  : result DependencyNode :=
  centrality ← true_div (degree node) max_degree;
  depth_penalty ← true_div (depth node) (max_depth + 1);
  let direct_boost :=
    if is_direct node then float_lit (12 # 10) else float_lit 1 in
  let impact :=
    float_mul
      (float_mul centrality
         (float_sub 1 (float_mul depth_penalty (float_lit (1 # 2)))))
      direct_boost in
  Ok (set_scores centrality (float_min 1 (float_max 0 impact)) node).

Fixpoint score_nodes (max_degree max_depth : nat) (d : dict DependencyNode)
  : result (dict DependencyNode) :=
  match d with
  | [] => Ok []
  | (k, node) :: r =>
      node' ← score_node max_degree max_depth node;
      r' ← score_nodes max_degree max_depth r;
      Ok ((k, node') :: r')
  end.

Definition _calculate_scores (self : DependencyGraph) : result DependencyGraph :=
  match nodes self with
  | [] => Ok self
  | _ =>
      max_degree ← py_max (map degree (dict_values (nodes self)));
      let max_degree := Nat.max max_degree 1 in
      max_depth ← py_max (map depth (dict_values (nodes self)));
      let max_depth := Nat.max max_depth 1 in
      d ← score_nodes max_degree max_depth (nodes self);
      Ok (set_nodes d self)
  end.

(** [parse_tree_text] *)
Definition parse_tree_text (self : DependencyGraph) (tree_text : str)
  : result DependencyGraph :=
  let lines := split NEWLINE (strip tree_text) in
  st ← for_each parse_line (self, ∅) lines;
  _calculate_scores st.1.

(** [parse_dependency_tree] *)
Definition parse_dependency_tree (tree_text : str) : result DependencyGraph :=
  parse_tree_text new_graph tree_text.

(* ================================================================== *)
(** * Queries on the graph                                             *)
(* ================================================================== *)

(** The dictionary [to_dict] returns; [get_dependency_info] adds the key
    [risk_assessment] to it, which is absent ([None]) otherwise. *)
Record node_dict : Type := {
  dict_ga : str;
  dict_version : str;
  dict_depth : nat;
  dict_is_direct : bool;
  dict_parents : list str;
  dict_children : list str;
  dict_centrality_score : Q;
  dict_impact_score : Q;
  risk_assessment : option str;
}.

Definition to_dict (self : DependencyNode) : node_dict :=
  {| dict_ga := ga self; dict_version := version self;
     dict_depth := depth self; dict_is_direct := is_direct self;
     dict_parents := parents self; dict_children := children self;
     dict_centrality_score := round3 (centrality_score self);
     dict_impact_score := round3 (impact_score self);
     risk_assessment := None |}.

Definition with_risk_assessment (risk : str) (info : node_dict) : node_dict :=
  {| dict_ga := dict_ga info; dict_version := dict_version info;
     dict_depth := dict_depth info; dict_is_direct := dict_is_direct info;
     dict_parents := dict_parents info; dict_children := dict_children info;
     dict_centrality_score := dict_centrality_score info;
     dict_impact_score := dict_impact_score info;
     risk_assessment := Some risk |}.

(** [a > b] on floats. *)
Definition float_gt (a b : Q) : bool := negb (Qle_bool a b).

(** [get_dependency_info]: [None] for an unknown key. *)
Definition get_dependency_info (self : DependencyGraph) (ga : str)
  : result (option node_dict) :=
  if negb (dict_in ga (nodes self)) then Ok None
  else
    node ← dict_item ga (nodes self);
    let info := to_dict node in
    let risk :=
      if float_gt (impact_score node) (float_lit (7 # 10)) then
        py "HIGH - Critical dependency, changes may have wide impact"
      else if float_gt (impact_score node) (float_lit (4 # 10)) then
        py "MEDIUM - Moderate impact, test thoroughly after changes"
      else
        py "LOW - Isolated dependency, changes likely contained" in
    Ok (Some (with_risk_assessment risk info)).

(** An entry of the list of high-risk dependencies. *)
Record high_risk_entry : Type := {
  hr_ga : str;
  hr_impact_score : Q;
  hr_version : str;
}.

Record summary : Type := {
  project : option str;
  total_dependencies : nat;
  direct_count : nat;
  transitive_count : nat;
  max_depth : nat;
  high_risk_dependencies : list high_risk_entry;
  direct_dependencies : dict node_dict;
  transitive_dependencies : dict node_dict;
  all_dependencies : dict node_dict;
}.

(** What [get_llm_summary] returns: the dictionary with the one key
    [error], or the summary. *)
Inductive llm_summary : Type :=
  | SummaryError (error : str)
  | Summary (s : summary).

(** [{ga: n.to_dict() for ga, n in items if keep(n)}] *)
Definition to_dict_where (keep : DependencyNode -> bool)
  (items : dict DependencyNode) : dict node_dict :=
  fold_left (fun acc kv => dict_set kv.1 (to_dict kv.2) acc)
    (List.filter (fun kv => keep kv.2) items) [].

(** [l.sort(key=impact_score, reverse=True)]: a stable sort, greatest
    first; entries of equal score keep their order. *)
Fixpoint insert_by_impact (x : high_risk_entry) (l : list high_risk_entry)
  : list high_risk_entry :=
  match l with
  | [] => [x]
  | y :: r =>
      if Qle_bool (hr_impact_score x) (hr_impact_score y)
      then y :: insert_by_impact x r
      else x :: l
  end.

Definition sort_by_impact_desc (l : list high_risk_entry)
  : list high_risk_entry :=
  fold_left (fun acc x => insert_by_impact x acc) l [].

Definition get_llm_summary (self : DependencyGraph) : result llm_summary :=
  match nodes self with
  | [] => Ok (SummaryError (py "No dependencies parsed"))
  | _ =>
      let direct_deps := to_dict_where is_direct (nodes self) in
      let transitive_deps :=
        to_dict_where (fun n => negb (is_direct n)) (nodes self) in
      let high_risk :=
        map (fun kv : str * DependencyNode =>
               {| hr_ga := kv.1; hr_impact_score := impact_score kv.2;
                  hr_version := version kv.2 |})
          (List.filter
             (fun kv : str * DependencyNode =>
                float_gt (impact_score kv.2) (float_lit (1 # 2)))
             (nodes self)) in
      let high_risk := sort_by_impact_desc high_risk in
      max_depth ← py_max (map depth (dict_values (nodes self)));
      Ok (Summary
            {| project := root_project self;
               total_dependencies := length (nodes self);
               direct_count := length direct_deps;
               transitive_count := length transitive_deps;
               max_depth := max_depth;
               high_risk_dependencies := take 10 high_risk;
               direct_dependencies := direct_deps;
               transitive_dependencies := transitive_deps;
               all_dependencies := to_dict_where (fun _ => true) (nodes self) |})
  end.

(* ================================================================== *)
(** * The upgrade strategy engine ([upgrade_strategy.py])              *)
(* ================================================================== *)

Inductive UpgradeStrategy : Set :=
  | DIRECT_UPGRADE
  | PARENT_UPGRADE
  | BOM_OVERRIDE
  | FORCE_OVERRIDE
  | CANNOT_UPGRADE.

Record UpgradeRecommendation : Type := {
  vulnerable_ga : str;
  vulnerable_version : str;
  target_version : str;
  strategy : UpgradeStrategy;
  upgrade_target_ga : str;
  upgrade_target_version : str;
  risk_level : str;
  steps : list str;
  warnings : list str;
  testing_focus : list str;
  parent_to_upgrade : option str;
  parent_current_version : option str;
  parent_target_version : option str;
}.

Definition SPRING_BOOT_BOM_PROPERTIES : dict str :=
  [(py "org.apache.tomcat.embed:tomcat-embed-core", py "tomcat.version");
   (py "org.apache.tomcat.embed:tomcat-embed-el", py "tomcat.version");
   (py "org.apache.tomcat.embed:tomcat-embed-websocket", py "tomcat.version");
   (py "com.fasterxml.jackson.core:jackson-databind", py "jackson-bom.version");
   (py "com.fasterxml.jackson.core:jackson-core", py "jackson-bom.version");
   (py "com.fasterxml.jackson.core:jackson-annotations", py "jackson-bom.version");
   (py "org.apache.logging.log4j:log4j-core", py "log4j2.version");
   (py "org.apache.logging.log4j:log4j-api", py "log4j2.version");
   (py "io.netty:netty-handler", py "netty.version");
   (py "io.netty:netty-buffer", py "netty.version");
   (py "io.netty:netty-transport", py "netty.version");
   (py "org.hibernate.orm:hibernate-core", py "hibernate.version");
   (py "org.springframework:spring-core", py "spring-framework.version");
   (py "org.springframework:spring-context", py "spring-framework.version");
   (py "org.springframework:spring-web", py "spring-framework.version");
   (py "ch.qos.logback:logback-classic", py "logback.version");
   (py "ch.qos.logback:logback-core", py "logback.version")].

Definition _create_direct_upgrade (ga from_version to_version : str)
  : result UpgradeRecommendation :=
  let jump_type := version_jump_type from_version to_version in
  let risk :=
    if str_eqb jump_type (py "patch") then py "LOW"
    else if str_eqb jump_type (py "minor") then py "MEDIUM"
    else py "HIGH" in
  '(group, artifact) ← unpack2 (split COLON ga);
  Ok {| vulnerable_ga := ga;
        vulnerable_version := from_version;
        target_version := to_version;
        strategy := DIRECT_UPGRADE;
        upgrade_target_ga := ga;
        upgrade_target_version := to_version;
        risk_level := risk;
        steps :=
          [py "1. Open your pom.xml (or build.gradle)";
           py "2. Find the dependency: " ++ ga;
           py "3. Change version from " ++ from_version ++ py " to " ++ to_version;
           py "4. Run: mvn clean install";
           py "5. Run your test suite"];
        warnings :=
          [py "This is a " ++ jump_type ++ py " version jump";
           if negb (str_eqb jump_type (py "patch"))
           then py "Review the changelog for breaking changes"
           else []];
        testing_focus :=
          [py "Unit tests for components using this dependency";
           py "Integration tests"];
        parent_to_upgrade := None;
        parent_current_version := None;
        parent_target_version := None |}.

Definition _create_parent_upgrade
  (vulnerable_ga vulnerable_version target_version parent_ga parent_current
     parent_target : str) : result UpgradeRecommendation :=
  '(parent_group, parent_artifact) ← unpack2 (split COLON parent_ga);
  Ok {| vulnerable_ga := vulnerable_ga;
        vulnerable_version := vulnerable_version;
        target_version := target_version;
        strategy := PARENT_UPGRADE;
        upgrade_target_ga := parent_ga;
        upgrade_target_version := parent_target;
        risk_level := py "LOW";
        parent_to_upgrade := Some parent_ga;
        parent_current_version := Some parent_current;
        parent_target_version := Some parent_target;
        steps :=
          [py "1. DO NOT add " ++ vulnerable_ga ++ py " directly to your pom.xml";
           py "2. Instead, upgrade the PARENT: " ++ parent_ga;
           py "3. Change " ++ parent_ga ++ py " from " ++ parent_current ++ py " to " ++ parent_target;
           py "4. The fixed " ++ vulnerable_ga ++ py " will come automatically";
           py "5. Run: mvn dependency:tree to verify";
           py "6. Run your test suite"];
        warnings :=
          [py "‚ö†Ô∏è " ++ vulnerable_ga ++ py " is a TRANSITIVE dependency";
           py "‚ö†Ô∏è It's brought in by " ++ parent_ga;
           py "‚úÖ Upgrading the parent is the SAFEST approach"];
        testing_focus :=
          [py "All functionality using " ++ parent_artifact;
           py "Integration tests";
           py "End-to-end tests"] |}.

(** [artifact] is the value of [vulnerable_ga.split(':')[1]] in the fourth
    step. *)
Definition _create_bom_override
  (vulnerable_ga vulnerable_version target_version bom_property parent_ga : str)
  : result UpgradeRecommendation :=
  artifact ← subscript (split COLON vulnerable_ga) 1;
  Ok {| vulnerable_ga := vulnerable_ga;
        vulnerable_version := vulnerable_version;
        target_version := target_version;
        strategy := BOM_OVERRIDE;
        upgrade_target_ga := vulnerable_ga;
        upgrade_target_version := target_version;
        risk_level :=
          if is_same_major_minor vulnerable_version target_version
          then py "LOW" else py "MEDIUM";
        steps :=
          [py "1. Open your pom.xml";
           py "2. Add this property to <properties> section:";
           py "   <" ++ bom_property ++ py ">" ++ target_version ++ py "</" ++ bom_property ++ py ">";
           py "3. This will override the version managed by Spring Boot BOM";
           py "4. Run: mvn dependency:tree | grep " ++ artifact;
           py "5. Verify it shows version " ++ target_version;
           py "6. Run your test suite"];
        warnings :=
          [py "‚ö†Ô∏è " ++ vulnerable_ga ++ py " is managed by Spring Boot BOM";
           py "‚úÖ Using BOM property is the RECOMMENDED way to override";
           py "This ensures all related modules use the same version"];
        testing_focus :=
          [py "All web/API endpoints";
           py "Serialization/deserialization tests";
           py "Integration tests"];
        parent_to_upgrade := None;
        parent_current_version := None;
        parent_target_version := None |}.

Definition _create_force_override
  (vulnerable_ga vulnerable_version target_version parent_ga risk : str)
  : result UpgradeRecommendation :=
  '(group, artifact) ← unpack2 (split COLON vulnerable_ga);
  Ok {| vulnerable_ga := vulnerable_ga;
        vulnerable_version := vulnerable_version;
        target_version := target_version;
        strategy := FORCE_OVERRIDE;
        upgrade_target_ga := vulnerable_ga;
        upgrade_target_version := target_version;
        risk_level := risk;
        steps :=
          [py "1. ‚ö†Ô∏è WARNING: This is a forced override of a transitive dependency";
           py "2. Add explicit dependency to pom.xml:";
           py "   <dependency>";
           py "     <groupId>" ++ group ++ py "</groupId>";
           py "     <artifactId>" ++ artifact ++ py "</artifactId>";
           py "     <version>" ++ target_version ++ py "</version>";
           py "   </dependency>";
           py "3. This will override the version from " ++ parent_ga;
           py "4. Run: mvn dependency:tree to verify";
           py "5. ‚ö†Ô∏è EXTENSIVE TESTING REQUIRED"];
        warnings :=
          [py "üö® This forces a version that " ++ parent_ga ++ py " was NOT tested with";
           py "üö® " ++ parent_ga ++ py " expects " ++ vulnerable_version ++ py ", you're giving it " ++ target_version;
           py "üö® This might cause runtime errors if APIs changed";
           py "Consider upgrading " ++ parent_ga ++ py " instead if possible"];
        testing_focus :=
          [py "‚ö†Ô∏è FULL REGRESSION TEST REQUIRED";
           py "All functionality using " ++ parent_ga;
           py "Runtime error detection (NoSuchMethodError, ClassNotFoundException)";
           py "Load testing";
           py "End-to-end tests"];
        parent_to_upgrade := None;
        parent_current_version := None;
        parent_target_version := None |}.

Definition _create_cannot_upgrade
  (vulnerable_ga vulnerable_version target_version parent_ga : str)
  : result UpgradeRecommendation :=
  Ok {| vulnerable_ga := vulnerable_ga;
        vulnerable_version := vulnerable_version;
        target_version := target_version;
        strategy := CANNOT_UPGRADE;
        upgrade_target_ga := vulnerable_ga;
        upgrade_target_version := target_version;
        risk_level := py "CRITICAL";
        steps :=
          [py "1. üö® NO SAFE AUTOMATIC UPGRADE PATH";
           py "2. This requires MANUAL intervention:";
           py "   a. Check if " ++ parent_ga ++ py " has a newer version";
           py "   b. Check if there's an alternative to " ++ parent_ga;
           py "   c. Consider accepting the vulnerability with mitigations";
           py "3. The version jump " ++ vulnerable_version ++ py " ‚Üí " ++ target_version ++ py " is MAJOR";
           py "4. Forcing this version WILL LIKELY BREAK your application"];
        warnings :=
          [py "üö® CRITICAL: Major version change detected";
           py "üö® " ++ vulnerable_version ++ py " ‚Üí " ++ target_version ++ py " crosses major/minor boundaries";
           py "üö® " ++ parent_ga ++ py " almost certainly won't work with " ++ target_version;
           py "üö® Manual analysis required"];
        testing_focus :=
          [py "DO NOT PROCEED without manual analysis";
           py "Contact the library maintainers";
           py "Consider alternative libraries"];
        parent_to_upgrade := None;
        parent_current_version := None;
        parent_target_version := None |}.

(** [_analyze_transitive_upgrade]; [dep_info] is the dictionary
    [get_dependency_info] returned for [vulnerable_ga]. *)
Definition _analyze_transitive_upgrade (graph : DependencyGraph)
  (vulnerable_ga vulnerable_version target_version : str)
  (dep_info : node_dict) (available_parent_versions : dict (list str))
  : result UpgradeRecommendation :=
  let parents := dict_parents dep_info in
  match parents with
  | [] => _create_direct_upgrade vulnerable_ga vulnerable_version target_version
  | _ =>
      immediate_parent ← subscript parents 0;
      parent_info ← get_dependency_info graph immediate_parent;
      let strategy1 : result (option UpgradeRecommendation) :=
        if dict_in immediate_parent available_parent_versions then
          parent_versions ← dict_item immediate_parent available_parent_versions;
          match parent_versions with
          | [] => Ok None
          | _ =>
              latest ← subscript parent_versions 0;
              r ← _create_parent_upgrade
                    vulnerable_ga vulnerable_version target_version
                    immediate_parent
                    (match parent_info with
                     | Some info => dict_version info
                     | None => py "unknown"
                     end)
                    latest;
              Ok (Some r)
          end
        else Ok None in
      r1 ← strategy1;
      match r1 with
      | Some r => Ok r
      | None =>
          if dict_in vulnerable_ga SPRING_BOOT_BOM_PROPERTIES then
            bom_property ← dict_item vulnerable_ga SPRING_BOOT_BOM_PROPERTIES;
            _create_bom_override vulnerable_ga vulnerable_version
              target_version bom_property immediate_parent
          else if is_same_major_minor vulnerable_version target_version then
            _create_force_override vulnerable_ga vulnerable_version
              target_version immediate_parent (py "MEDIUM")
          else if is_same_major vulnerable_version target_version then
            _create_force_override vulnerable_ga vulnerable_version
              target_version immediate_parent (py "HIGH")
          else
            _create_cannot_upgrade vulnerable_ga vulnerable_version
              target_version immediate_parent
      end
  end.

(** [get_upgrade_strategy]; [available_parent_versions] is [None] when the
    caller leaves it out. *)
Definition get_upgrade_strategy (graph : DependencyGraph)
  (vulnerable_ga vulnerable_version target_version : str)
  (available_parent_versions : option (dict (list str)))
  : result UpgradeRecommendation :=
  dep_info ← get_dependency_info graph vulnerable_ga;
  match dep_info with
  | None =>
      _create_direct_upgrade vulnerable_ga vulnerable_version target_version
  | Some dep_info =>
      if dict_is_direct dep_info then
        _create_direct_upgrade vulnerable_ga vulnerable_version target_version
      else
        _analyze_transitive_upgrade graph vulnerable_ga vulnerable_version
          target_version dep_info
          (match available_parent_versions with
           | Some ((_ :: _) as d) => d
           | _ => []
           end)
  end.

(** [analyze_upgrade] *)
Definition analyze_upgrade (graph : DependencyGraph)
  (vulnerable_ga vulnerable_version target_version : str)
  (available_parent_versions : option (dict (list str)))
  : result UpgradeRecommendation :=
  get_upgrade_strategy graph vulnerable_ga vulnerable_version target_version
    available_parent_versions.

(* ================================================================== *)
(** * Numerals                                                         *)
(* ================================================================== *)

(** [str(n)] for an [int] that is not negative: its decimal numeral in
    ASCII digits, without leading zeros. [acc] holds the digits written so
    far, the numeral of [n] goes in front of them. *)
Fixpoint decimal_from (fuel : nat) (n : N) (acc : str) : str :=
  match fuel with
  | O => acc
  | S f =>
      let acc' := (48 + n mod 10)%N :: acc in
      if (n <? 10)%N then acc' else decimal_from f (n / 10)%N acc'
  end.

Definition decimal (n : N) : str :=
  decimal_from (S (N.to_nat (N.log2 n))) n [].

(* ================================================================== *)
(** * The printout of the graph ([pretty_print])                       *)
(* ================================================================== *)

(** [sep.join(parts)] for a separator of one character. *)
Definition join (sep : char) (parts : list str) : str :=
  match parts with
  | [] => []
  | p :: ps => p ++ concat (map (fun q => sep :: q) ps)
  end.

(** [s * k] *)
Definition repeat_str (s : str) (k : nat) : str := concat (replicate k s).

(** [a < b] on [str]: by code points, a proper prefix first. *)
Fixpoint str_ltb (a b : str) : bool :=
  match a, b with
  | _, [] => false
  | [], _ :: _ => true
  | x :: a', y :: b' => (x <? y)%N || ((x =? y)%N && str_ltb a' b')
  end.

(** [(n.depth, n.ga) < (m.depth, m.ga)], the order of the sort keys. *)
Definition key_ltb (n m : DependencyNode) : bool :=
  (depth n <? depth m) || ((depth n =? depth m) && str_ltb (ga n) (ga m)).

(** [sorted(l, key=lambda n: (n.depth, n.ga))]: a stable sort, least
    first; nodes of equal key keep their order. *)
Fixpoint insert_by_key (x : DependencyNode) (l : list DependencyNode)
  : list DependencyNode :=
  match l with
  | [] => [x]
  | y :: r => if key_ltb x y then x :: l else y :: insert_by_key x r
  end.

Definition sorted_by_key (l : list DependencyNode) : list DependencyNode :=
  fold_left (fun acc x => insert_by_key x acc) l [].

(** [f"{x:.2f}"]: [x] rounded to two decimals, ties of the exact value to
    even, written with its sign, its integer part and two digits. *)
Definition format_2f (x : Q) : str :=
  let r := Z.to_N (round_half_even (Qabs x * 100)%Q) in
  (if Qle_bool 0 x then [] else py "-")
  ++ decimal (r / 100)%N ++ py "."
  ++ [(48 + (r mod 100) / 10)%N; (48 + r mod 10)%N].

(** The warning sign and its variation selector. *)
Definition WARNING_SIGN : str := [0x26A0; 0xFE0F]%N.

(** [f"{x}"] for an optional string. *)
Definition str_of_optional (x : option str) : str :=
  match x with
  | Some s => s
  | None => py "None"
  end.

(** The line of one node. *)
Definition node_line (node : DependencyNode) : str :=
  let indent := repeat_str (py "  ") (depth node) in
  let direct_mark := if is_direct node then py "[D]" else py "[T]" in
  let risk_mark :=
    if float_gt (impact_score node) (float_lit (1 # 2)) then WARNING_SIGN
    else [] in
  indent ++ direct_mark ++ py " " ++ ga node ++ py ":" ++ version node
  ++ py " " ++ py "(impact=" ++ format_2f (impact_score node) ++ py ") "
  ++ risk_mark.

Definition pretty_print (self : DependencyGraph) : str :=
  let lines :=
    [py "Dependency Graph for: " ++ str_of_optional (root_project self)] in
  let lines :=
    lines ++ [py "Total: " ++ decimal (N.of_nat (length (nodes self)))
              ++ py " dependencies"] in
  let lines := lines ++ [repeat_str (py "-") 60] in
  let sorted_nodes := sorted_by_key (dict_values (nodes self)) in
  let lines := lines ++ map node_line sorted_nodes in
  join NEWLINE lines.

(* ================================================================== *)
(** * Vocabulary of the properties                                     *)
(* ================================================================== *)

(** The definitions below are not part of the program: they name what the
    lemmas and theorems talk about. *)

(** The keys of a dictionary, in insertion order. *)
Definition dict_keys {V} (d : dict V) : list str := map fst d.

(** A key of the form [group:artifact]: exactly one colon, so that
    [group, artifact = key.split(":")] succeeds. *)
Definition is_ga (k : str) : Prop :=
  exists g a, split COLON k = [g; a].

(** The sighting a line makes: the depth, key and version the loop of
    [parse_tree_text] reads from it, [None] for a line it skips. *)
Definition sighting (line : str) : option (nat * str * str) :=
  match strip line with
  | [] => None
  | _ =>
      match _extract_ga_version line with
      | Ok (Some (c :: g, v)) => Some (_calculate_depth line, c :: g, v)
      | _ => None
      end
  end.

(** What the loop does with a sighting. *)
Definition place (st : DependencyGraph * gmap nat str) (depth : nat)
  (ga version : str) : result (DependencyGraph * gmap nat str) :=
  if depth =? 0 then
    self ← _add_node (set_root_project (Some ga) st.1) ga version 0 true None;
    Ok (self, <[0 := ga]> st.2)
  else
    self ← _add_node st.1 ga version depth (depth =? 1) (st.2 !! (depth - 1));
    Ok (self, filter (fun kv : nat * str => kv.1 ≤ depth) (<[depth := ga]> st.2)).

(** The node [_add_node] creates for a key it has not seen. *)
Definition fresh_node (ga version : str) (depth : nat) (is_direct : bool)
  : DependencyNode :=
  {| ga := ga; version := version; depth := depth; is_direct := is_direct;
     parents := []; children := []; centrality_score := 0;
     impact_score := 0 |}.

(** Whether [_add_node] records [parent] on [node]: it is a non-empty
    string that is not among the parents yet. *)
Definition adds_edge (parent : option str) (node : DependencyNode) : bool :=
  match parent with
  | Some p =>
      negb (bool_decide (p = [])) && negb (bool_decide (p ∈ parents node))
  | None => false
  end.

(** The node stored under [k] after [_add_node ga .. parent], from the one
    stored before (the fresh node, for a new [ga]). *)
Definition node_after (ga : str) (parent : option str) (adds : bool)
  (k : str) (n : DependencyNode) : DependencyNode :=
  match parent with
  | Some p =>
      if adds then
        let n1 := if bool_decide (k = ga) then append_parent p n else n in
        if bool_decide (k = p) && negb (bool_decide (ga ∈ children n1))
        then append_child ga n1 else n1
      else n
  | None => n
  end.

Abbreviation parse_state := (DependencyGraph * gmap nat str)%type.

(** The sightings of a list of lines, in order. *)
Definition sightings (lines : list str) : list (nat * str * str) :=
  omap sighting lines.

(** The lines [parse_tree_text] reads from a text. *)
Definition lines_of (tree_text : str) : list str :=
  split NEWLINE (strip tree_text).

(** The loop, on the sightings. *)
Definition place_all (st : parse_state) (ss : list (nat * str * str))
  : result parse_state :=
  for_each (fun st s => place st s.1.1 s.1.2 s.2) st ss.

(** The parent [place] hands to [_add_node]. *)
Definition parent_of (chain : gmap nat str) (d : nat) : option str :=
  if d =? 0 then None else chain !! (d - 1).

(** The table [depth_parents] after a sighting at depth [d]. *)
Definition chain_after (chain : gmap nat str) (d : nat) (ga : str)
  : gmap nat str :=
  if d =? 0 then <[0 := ga]> chain
  else filter (fun kv : nat * str => kv.1 ≤ d) (<[d := ga]> chain).

(** What holds of every graph the parser builds from the empty one: keys
    are distinct and of the form [group:artifact], a node is stored under
    its own key, parents and children are duplicate-free, every recorded
    parent is a node of the graph, and a node is direct exactly when it was
    created at depth 0 or 1. *)
Record graph_ok (g : DependencyGraph) : Prop := {
  ok_keys : NoDup (dict_keys (nodes g));
  ok_node : forall k n,
      dict_get k (nodes g) = Some n ->
      ga n = k /\ is_ga k /\ NoDup (parents n) /\ NoDup (children n)
      /\ (forall p, p ∈ parents n -> is_Some (dict_get p (nodes g)))
      /\ is_direct n = (depth n <=? 1);
}.

(** Every entry of [depth_parents] is a node of the graph. *)
Definition chain_ok (g : DependencyGraph) (chain : gmap nat str) : Prop :=
  forall d p, chain !! d = Some p -> is_Some (dict_get p (nodes g)).

Definition state_ok (st : parse_state) : Prop :=
  graph_ok st.1 /\ chain_ok st.1 st.2.

(** The greatest degree and the greatest depth of a graph (0 for the empty
    one). *)
Definition graph_max_degree (g : DependencyGraph) : nat :=
  max_list (map degree (dict_values (nodes g))).

Definition graph_max_depth (g : DependencyGraph) : nat :=
  max_list (map depth (dict_values (nodes g))).

(** The node the loop of [_calculate_scores] leaves. *)
Definition scored (max_degree max_depth : nat) (n : DependencyNode)
  : DependencyNode :=
  let centrality := float_quotient (degree n) max_degree in
  let depth_penalty := float_quotient (depth n) (max_depth + 1) in
  let direct_boost :=
    if is_direct n then float_lit (12 # 10) else float_lit 1 in
  set_scores centrality
    (float_min 1
       (float_max 0
          (float_mul
             (float_mul centrality
                (float_sub 1 (float_mul depth_penalty (float_lit (1 # 2)))))
             direct_boost)))
    n.

(** The graph [_calculate_scores] leaves. *)
Definition scored_graph (g : DependencyGraph) : DependencyGraph :=
  set_nodes
    (map (fun kv : str * DependencyNode =>
            (kv.1, scored (Nat.max (graph_max_degree g) 1)
                     (Nat.max (graph_max_depth g) 1) kv.2))
       (nodes g))
    g.

(** The sample tree of [debug_test.py]. *)
Definition TEST_TREE : str := py "
com.random-x:part-finder-service-api:1.2.39-SNAPSHOT
├── org.springframework.boot:spring-boot-starter-tomcat:3.5.3
│   └── org.apache.tomcat.embed:tomcat-embed-core:10.1.42
├── com.fasterxml.jackson.core:jackson-databind:2.19.1
└── org.apache.logging.log4j:log4j-core:2.24.3
".

(** The key of the last sighting at depth 0, if there is one. *)
Definition last_root (ss : list (nat * str * str)) : option str :=
  list.last (omap (fun s : nat * str * str =>
                     if s.1.1 =? 0 then Some s.1.2 else None) ss).

(** The risk [_create_direct_upgrade] attaches to a jump. *)
Definition direct_risk (from_version to_version : str) : str :=
  let jump_type := version_jump_type from_version to_version in
  if str_eqb jump_type (py "patch") then py "LOW"
  else if str_eqb jump_type (py "minor") then py "MEDIUM"
  else py "HIGH".

(** The runs of digits [parse_version] hands to [int()]: the first three
    of the version without its qualifier. *)
Definition digits_read (version : str) : list str :=
  let clean_version :=
    match List.find (fun q => str_in q version) qualifiers with
    | Some q =>
        replace_with_empty (py "." ++ q)
          (replace_with_empty (py "-" ++ q) version)
    | None => version
    end in
  take 3 (findall_digits clean_version).

(** [int()] accepts every run [parse_version] reads from [version], so
    that the call returns. *)
Definition readable (version : str) : bool :=
  forallb int_accepts (digits_read version).

(** The alternative versions the caller supplied for a parent. *)
Definition supplied_versions (available_parent_versions : option (dict (list str)))
  (parent : str) : option (list str) :=
  available_parent_versions ≫= dict_get parent.

(** The answer of the cascade of [_analyze_transitive_upgrade] for a
    transitive node whose first parent is [parent], in the comparisons of
    versions the engine makes. *)
Definition cascade_outcome (key cur tgt parent : str)
  (available_parent_versions : option (dict (list str)))
  (r : UpgradeRecommendation) : Prop :=
  match supplied_versions available_parent_versions parent with
  | Some (latest :: _) =>
      strategy r = PARENT_UPGRADE /\ risk_level r = py "LOW"
      /\ upgrade_target_ga r = parent /\ upgrade_target_version r = latest
      /\ parent_to_upgrade r = Some parent
  | _ =>
      if dict_in key SPRING_BOOT_BOM_PROPERTIES then
        strategy r = BOM_OVERRIDE
        /\ risk_level r
           = (if is_same_major_minor cur tgt then py "LOW" else py "MEDIUM")
      else if is_same_major_minor cur tgt then
        strategy r = FORCE_OVERRIDE /\ risk_level r = py "MEDIUM"
      else if is_same_major cur tgt then
        strategy r = FORCE_OVERRIDE /\ risk_level r = py "HIGH"
      else
        strategy r = CANNOT_UPGRADE /\ risk_level r = py "CRITICAL"
  end.

(** The graph of the sample tree. *)
Definition test_graph : DependencyGraph :=
  match parse_dependency_tree TEST_TREE with
  | Ok g => g
  | Raise _ => new_graph
  end.

(** A tree in which one artifact is sighted at two depths. *)
Definition SHARED_TREE : str := py "com.x:app:1.0
├── a:lib:1
│   └── b:util:2
└── b:util:3".

(** Every sighting after [prev] is at depth 1 or more and at most one level
    deeper than the sighting before it. *)
Fixpoint well_nested (prev : nat) (ss : list (nat * str * str)) : bool :=
  match ss with
  | [] => true
  | s :: r => (1 <=? s.1.1) && (s.1.1 <=? prev + 1) && well_nested s.1.1 r
  end.

(** A well-formed tree: the first sighting is the root line at depth 0, it
    is the only one at depth 0, no line skips a level, and the root's key
    is not sighted again. *)
Definition well_formed (ss : list (nat * str * str)) : bool :=
  match ss with
  | [] => false
  | s :: r =>
      (s.1.1 =? 0) && well_nested 0 r
      && forallb (fun t : nat * str * str => negb (str_eqb t.1.2 s.1.2)) r
  end.

(** What the loop keeps true of a well-formed tree whose last sighting was
    at depth [dlast]. *)
Definition rooted (root : str) (dlast : nat) (st : parse_state) : Prop :=
  state_ok st
  /\ root_project st.1 = Some root
  /\ (exists rn, dict_get root (nodes st.1) = Some rn
                 /\ depth rn = 0 /\ parents rn = [])
  /\ (forall k n, dict_get k (nodes st.1) = Some n -> k ≠ root ->
                  1 <= depth n /\ parents n ≠ [])
  /\ (forall i, i <= dlast -> is_Some (st.2 !! i)).

(** The number of nodes of a graph at depth [d]. *)
Definition count_depth (d : nat) (g : DependencyGraph) : nat :=
  length (List.filter (fun kv : str * DependencyNode => depth kv.2 =? d)
            (nodes g)).

(** The keys of a list, each once, in the order of their first occurrence;
    [acc] holds the keys met so far. *)
Definition first_occurrences_from (acc l : list str) : list str :=
  fold_left (fun acc k => if bool_decide (k ∈ acc) then acc else acc ++ [k])
    l acc.

Definition first_occurrences (l : list str) : list str :=
  first_occurrences_from [] l.

(** The keys the lines of a text are read to, in the order of the lines. *)
Definition sighted_keys (tree_text : str) : list str :=
  map (fun s : nat * str * str => s.1.2) (sightings (lines_of tree_text)).

(** Parents and children mirror each other: a recorded parent is a node
    that lists the node among its children, and a recorded child is a node
    that lists the node among its parents. *)
Definition mirrored (g : DependencyGraph) : Prop :=
  forall k n,
    dict_get k (nodes g) = Some n ->
    (forall p, p ∈ parents n ->
               exists pn, dict_get p (nodes g) = Some pn /\ k ∈ children pn)
    /\ (forall c, c ∈ children n ->
                  exists cn, dict_get c (nodes g) = Some cn /\ k ∈ parents cn).

(** The entry of the high-risk list for the node [n] stored under [k]. *)
Definition high_risk_of (k : str) (n : DependencyNode) : high_risk_entry :=
  {| hr_ga := k; hr_impact_score := impact_score n; hr_version := version n |}.

(** The candidates for the high-risk list: the entries of the nodes whose
    impact is greater than 0.5, in the order of the nodes. *)
Definition high_risk_candidates (self : DependencyGraph)
  : list high_risk_entry :=
  map (fun kv : str * DependencyNode => high_risk_of kv.1 kv.2)
    (List.filter
       (fun kv : str * DependencyNode =>
          float_gt (impact_score kv.2) (float_lit (1 # 2)))
       (nodes self)).

(** [b] does not come before [a] in the order of decreasing impact. *)
Definition impact_desc (a b : high_risk_entry) : Prop :=
  (hr_impact_score b <= hr_impact_score a)%Q.

(** [reported] is [x] rounded to three decimals: the double nearest to
    [j / 1000] for an integer [j] at most half a thousandth away from [x]. *)
Definition three_decimals_of (x reported : Q) : Prop :=
  exists j : Z,
    reported = binary64 (inject_Z j / 1000)
    /\ (Qabs (inject_Z j / 1000 - x) <= 1 # 2000)%Q.

(** The version [_analyze_transitive_upgrade] reports as the current one of
    the parent [p]: the one of its node, or the word it writes when the
    graph has no such node. *)
Definition parent_current (graph : DependencyGraph) (p : str) : str :=
  match dict_get p (nodes graph) with
  | Some pn => version pn
  | None => py "unknown"
  end.

(** The recommendation is about the request, and its fields fit its
    strategy: a parent is named exactly by a PARENT_UPGRADE, which aims at
    that parent; every other strategy aims at the vulnerable key and the
    target version. *)
Definition answers (key cur tgt : str) (r : UpgradeRecommendation) : Prop :=
  vulnerable_ga r = key
  /\ vulnerable_version r = cur
  /\ target_version r = tgt
  /\ match strategy r with
     | PARENT_UPGRADE =>
         parent_to_upgrade r = Some (upgrade_target_ga r)
         /\ parent_target_version r = Some (upgrade_target_version r)
         /\ is_Some (parent_current_version r)
     | _ =>
         upgrade_target_ga r = key /\ upgrade_target_version r = tgt
         /\ parent_to_upgrade r = None
         /\ parent_current_version r = None
         /\ parent_target_version r = None
     end.

(** [":".join(parts)] *)
Definition colon_join (parts : list str) : str :=
  match parts with
  | [] => []
  | p :: ps => p ++ concat (map (fun q => COLON :: q) ps)
  end.

(** A field of a coordinate as build tools print it: not empty, and free of
    colons, opening parentheses, blanks and tree characters. *)
Definition plain (p : str) : bool :=
  match p with
  | [] => false
  | _ =>
      forallb (fun c => negb (c =? COLON)%N && negb (c =? LPAREN)%N
                        && negb (tree_char c)) p
  end.

(** The depth [_calculate_depth] reads from a prefix of tree characters. *)
Definition prefix_depth (prefix : str) : nat :=
  count BOX_V prefix
  + (if contains BOX_VR prefix || contains BOX_UR prefix then 1 else 0).

(** Characters that no annotation starts at. *)
Definition solid (s : str) : bool :=
  forallb (fun c => negb (isspace c) && negb (c =? LPAREN)%N) s.

Definition DOT : char := 46%N.
Definition HYPHEN : char := 45%N.

(** The numerals of [ns] joined by dots, as a version is written. *)
Definition dotted (ns : list N) : str :=
  match ns with
  | [] => []
  | n :: r => decimal n ++ concat (map (fun k => DOT :: decimal k) r)
  end.

Definition ascii_digit (c : char) : bool := (48 <=? c)%N && (c <=? 57)%N.

(** The characters of a dotted version. *)
Definition version_char (c : char) : bool := ascii_digit c || (c =? DOT)%N.

(** [a] is listed before [b] rightly: its depth is not greater, and at
    equal depth its key is not greater. *)
Definition key_le (a b : DependencyNode) : Prop :=
  depth a <= depth b
  /\ (depth a = depth b -> str_ltb (ga b) (ga a) = false).

(** The three lines at the head of the printout. *)
Definition head_lines (g : DependencyGraph) : list str :=
  [py "Dependency Graph for: " ++ str_of_optional (root_project g);
   py "Total: " ++ decimal (N.of_nat (length (nodes g)))
   ++ py " dependencies";
   repeat_str (py "-") 60].

(** The nodes [ns] have taken the sighting [s] in, for the table [chain]
    of the moment: its key is a node, and the parent the table names for
    its depth, if it is a string that is not empty, is among the parents
    of the node. *)
Definition absorbed (ns : dict DependencyNode) (chain : gmap nat str)
  (s : nat * str * str) : Prop :=
  exists n,
    dict_get s.1.2 ns = Some n
    /\ forall p, parent_of chain s.1.1 = Some p -> p = [] \/ p ∈ parents n.

(** All of [ss], the table following the sightings. *)
Fixpoint all_absorbed (ns : dict DependencyNode) (chain : gmap nat str)
  (ss : list (nat * str * str)) : Prop :=
  match ss with
  | [] => True
  | s :: r =>
      absorbed ns chain s /\ all_absorbed ns (chain_after chain s.1.1 s.1.2) r
  end.

(** The root the loop leaves behind. *)
Definition root_after (root : option str) (ss : list (nat * str * str))
  : option str :=
  match last_root ss with
  | Some r => Some r
  | None => root
  end.

(* ================================================================== *)
(** * Lemmas                                                           *)
(* ================================================================== *)

(** ** The [result] monad and dictionaries *)

Lemma bind_Ok {A B} (a : A) (f : A -> result B) : (Ok a ≫= f) = f a.
Proof. reflexivity. Qed.

Lemma str_eqb_eq (a b : str) : str_eqb a b = true <-> a = b.
Proof. unfold str_eqb. apply bool_decide_eq_true. Qed.

Lemma str_eqb_refl (a : str) : str_eqb a a = true.
Proof. by apply str_eqb_eq. Qed.

Lemma str_eqb_ne (a b : str) : a ≠ b -> str_eqb a b = false.
Proof. intros H. unfold str_eqb. by apply bool_decide_eq_false. Qed.

Section DictFacts.
Context {V : Type}.
Implicit Types (d : dict V) (k : str) (v : V).

Lemma dict_get_set_eq k v d : dict_get k (dict_set k v d) = Some v.
Proof.
  induction d as [|[k' v'] d IH]; simpl.
  - by rewrite str_eqb_refl.
  - destruct (str_eqb k k') eqn:E; simpl; rewrite ?str_eqb_refl, ?E; done.
Qed.

Lemma dict_get_set_ne k k' v d :
  k ≠ k' -> dict_get k' (dict_set k v d) = dict_get k' d.
Proof.
  intros Hne. induction d as [|[k2 v2] d IH]; simpl.
  - rewrite str_eqb_ne; [done | congruence].
  - destruct (str_eqb k k2) eqn:E; simpl.
    + apply str_eqb_eq in E as <-.
      rewrite !(str_eqb_ne k' k); [done | congruence ..].
    + by rewrite IH.
Qed.

Lemma dict_get_set k k' v d :
  dict_get k' (dict_set k v d)
  = if decide (k' = k) then Some v else dict_get k' d.
Proof.
  case_decide as E.
  - subst. apply dict_get_set_eq.
  - apply dict_get_set_ne. congruence.
Qed.

Lemma dict_in_true k d : dict_in k d = true <-> is_Some (dict_get k d).
Proof.
  unfold dict_in. destruct (dict_get k d); split; intros H; done.
Qed.

Lemma dict_in_false k d : dict_in k d = false <-> dict_get k d = None.
Proof. unfold dict_in. by destruct (dict_get k d). Qed.

Lemma dict_get_keys k d : is_Some (dict_get k d) <-> k ∈ dict_keys d.
Proof.
  induction d as [|[k' v'] d IH]; simpl.
  - split; [by intros [] | by intros ?%elem_of_nil].
  - rewrite elem_of_cons. destruct (str_eqb k k') eqn:E.
    + apply str_eqb_eq in E. split; [by left | by eexists].
    + rewrite IH. split; [by right | intros [->|]; [|done]].
      by rewrite str_eqb_refl in E.
Qed.

Lemma dict_get_elem k v d : dict_get k d = Some v -> (k, v) ∈ d.
Proof.
  induction d as [|[k' v'] d IH]; simpl; [done|].
  destruct (str_eqb k k') eqn:E.
  - apply str_eqb_eq in E as ->. intros [= ->]. by left.
  - intros H. right. by apply IH.
Qed.

Lemma dict_elem_get k v d :
  NoDup (dict_keys d) -> (k, v) ∈ d -> dict_get k d = Some v.
Proof.
  induction d as [|[k' v'] d IH]; simpl.
  - by intros _ ?%elem_of_nil.
  - intros [Hk Hd]%NoDup_cons [[= -> ->]|Hin]%elem_of_cons.
    + by rewrite str_eqb_refl.
    + rewrite str_eqb_ne; [by apply IH|]. intros ->. apply Hk.
      unfold dict_keys. apply list_elem_of_fmap. by exists (k', v).
Qed.

Lemma dict_keys_set k v d :
  dict_keys (dict_set k v d)
  = if dict_in k d then dict_keys d else dict_keys d ++ [k].
Proof.
  unfold dict_in. induction d as [|[k' v'] d IH]; simpl; [done|].
  destruct (str_eqb k k') eqn:E; simpl.
  - by apply str_eqb_eq in E as ->.
  - rewrite IH. by destruct (dict_get k d).
Qed.

Lemma dict_keys_set_NoDup k v d :
  NoDup (dict_keys d) -> NoDup (dict_keys (dict_set k v d)).
Proof.
  intros H. rewrite dict_keys_set. destruct (dict_in k d) eqn:E; [done|].
  apply NoDup_app. split_and!; [done | | apply NoDup_singleton].
  intros x Hx ->%list_elem_of_singleton.
  apply dict_in_false in E. apply dict_get_keys in Hx. rewrite E in Hx.
  by destruct Hx.
Qed.

Lemma dict_set_length_in k v d :
  dict_in k d = true -> length (dict_set k v d) = length d.
Proof.
  intros H. rewrite <- !(length_map fst). fold (dict_keys d).
  fold (dict_keys (dict_set k v d)). by rewrite dict_keys_set, H.
Qed.
End DictFacts.

(** ** Splitting and the shape of a key *)

Lemma split_no_sep sep s p : p ∈ split sep s -> sep ∉ p.
Proof.
  revert p. induction s as [|c r IH]; simpl; intros p.
  - intros ->%list_elem_of_singleton. apply not_elem_of_nil.
  - destruct (N.eqb_spec c sep) as [->|Hne].
    + intros [->|H]%elem_of_cons; [apply not_elem_of_nil | by apply IH].
    + destruct (split sep r) as [|q qs] eqn:E.
      * intros ->%list_elem_of_singleton.
        intros [?|?%elem_of_nil]%elem_of_cons; [congruence | done].
      * intros [->|H]%elem_of_cons.
        -- intros [?|H]%elem_of_cons; [congruence|].
           revert H. apply IH. by left.
        -- apply IH. by right.
Qed.

Lemma split_without_sep sep s : sep ∉ s -> split sep s = [s].
Proof.
  induction s as [|c r IH]; simpl; [done|].
  intros [Hc Hr]%not_elem_of_cons.
  destruct (N.eqb_spec c sep); [congruence|]. by rewrite IH.
Qed.

Lemma split_app_sep sep g s :
  sep ∉ g -> split sep (g ++ sep :: s) = g :: split sep s.
Proof.
  induction g as [|c r IH]; simpl; intros H.
  - by rewrite N.eqb_refl.
  - apply not_elem_of_cons in H as [Hc Hr].
    destruct (N.eqb_spec c sep); [congruence|]. by rewrite IH.
Qed.

Lemma is_ga_join g a : COLON ∉ g -> COLON ∉ a -> is_ga (g ++ [COLON] ++ a).
Proof.
  intros Hg Ha. exists g, a. simpl.
  by rewrite split_app_sep, split_without_sep.
Qed.

Lemma is_ga_not_nil k : is_ga k -> k ≠ [].
Proof. intros (g & a & H) ->. done. Qed.

(** ** Reading a line *)

Lemma _extract_ga_version_cases line :
  (_extract_ga_version line = Ok None
   /\ (clean_line line = [] \/ length (split COLON (clean_line line)) < 3))
  \/ (exists g a v,
        _extract_ga_version line = Ok (Some (g ++ [COLON] ++ a, v))
        /\ (COLON ∉ g) /\ (COLON ∉ a)
        /\ clean_line line ≠ []
        /\ 3 <= length (split COLON (clean_line line))).
Proof.
  unfold _extract_ga_version.
  destruct (clean_line line) as [|c0 cl] eqn:Ecl; [left; auto|].
  pose proof (split_no_sep COLON (c0 :: cl)) as Hsep.
  destruct (split COLON (c0 :: cl)) as [|g [|a [|x r]]] eqn:Es.
  - left. split; [done | right; simpl; lia].
  - left. split; [done | right; simpl; lia].
  - left. split; [done | right; simpl; lia].
  - right. exists g, a.
    assert (is_Some (list.last (g :: a :: x :: r))) as [v Hv]
      by (by apply last_is_Some).
    exists v. split_and!.
    + cbn [length Nat.leb]. unfold subscript, subscript_last.
      rewrite Hv. reflexivity.
    + apply Hsep. by left.
    + apply Hsep. right. by left.
    + done.
    + simpl. lia.
Qed.

Lemma sighting_is_ga line d ga v :
  sighting line = Some (d, ga, v) ->
  is_ga ga /\ d = _calculate_depth line
  /\ 3 <= length (split COLON (clean_line line)).
Proof.
  unfold sighting. destruct (strip line); [done|].
  destruct (_extract_ga_version_cases line) as [[-> _]|(g & a & w & -> & Hg & Ha & _ & Hl)];
    [done|].
  destruct (g ++ [COLON] ++ a) as [|c s] eqn:E; [done|].
  intros [= <- <- <-]. split_and!; [|done|done].
  rewrite <- E. by apply is_ga_join.
Qed.

Lemma parse_line_sighting st line :
  parse_line st line =
    match sighting line with
    | None => Ok st
    | Some (d, ga, v) => place st d ga v
    end.
Proof.
  unfold parse_line, sighting, place. destruct st as [self chain].
  destruct (strip line); [done|].
  destruct (_extract_ga_version_cases line)
    as [[-> _]|(g & a & w & -> & _)]; [done|].
  destruct (g ++ [COLON] ++ a); [done|].
  simpl. by destruct (_calculate_depth line).
Qed.

(** ** The effect of [_add_node] *)

Lemma _add_node_present self ga v d isd parent n0 :
  dict_get ga (nodes self) = Some n0 ->
  exists self',
    _add_node self ga v d isd parent = Ok self'
    /\ root_project self' = root_project self
    /\ dict_keys (nodes self') = dict_keys (nodes self)
    /\ forall k,
        dict_get k (nodes self')
        = node_after ga parent (adds_edge parent n0) k
            <$> dict_get k (nodes self).
Proof.
  intros Hga. unfold _add_node.
  assert (dict_in ga (nodes self) = true) as Hin by (apply dict_in_true; eauto).
  assert (dict_item ga (nodes self) = Ok n0) as Hitem
    by (unfold dict_item; by rewrite Hga).
  rewrite Hin. cbv zeta. rewrite Hitem, bind_Ok.
  destruct parent as [p|]; cbn [adds_edge node_after nodes set_nodes root_project].
  2:{ eexists. split_and!; try done. intros k. by destruct (dict_get k _). }
  destruct (negb (bool_decide (p = [])) && negb (bool_decide (p ∈ parents n0)))
    eqn:Eadd.
  2:{ eexists. split_and!; try done. intros k. by destruct (dict_get k _). }
  set (d2 := dict_set ga (append_parent p n0) (nodes self)).
  assert (dict_keys d2 = dict_keys (nodes self)) as Hk2.
  { subst d2. by rewrite dict_keys_set, Hin. }
  assert (forall k, dict_get k d2
                    = (fun n => if bool_decide (k = ga)
                                then append_parent p n else n)
                        <$> dict_get k (nodes self)) as Hg2.
  { intros k. subst d2. rewrite dict_get_set.
    destruct (decide (k = ga)) as [->|Hne].
    - by rewrite Hga, bool_decide_eq_true_2.
    - rewrite bool_decide_eq_false_2 by done. by destruct (dict_get k _). }
  clearbody d2.
  destruct (dict_in p d2) eqn:Ep.
  - apply dict_in_true in Ep as [pn Hpn]. unfold dict_item. rewrite Hpn.
    rewrite bind_Ok. pose proof (Hg2 p) as Hp. rewrite Hpn in Hp.
    destruct (dict_get p (nodes self)) as [pn0|] eqn:Ep0; [|done].
    injection Hp as ->.
    destruct (bool_decide (ga ∈ children _)) eqn:Ech; cbn [negb].
    + eexists. split_and!; try done. intros k. cbn [nodes set_nodes].
      rewrite Hg2.
      destruct (dict_get k (nodes self)) as [n|] eqn:Ek; [|done].
      cbn [fmap option_fmap option_map]. f_equal.
      unfold node_after; cbv zeta.
      destruct (decide (k = p)) as [->|Hne].
      * assert (n = pn0) as -> by congruence.
        by rewrite Ech, andb_false_r.
      * by rewrite (bool_decide_eq_false_2 (k = p)).
    + rewrite bind_Ok. eexists. split_and!; try done.
      * cbn [nodes set_nodes]. rewrite dict_keys_set.
        assert (dict_in p d2 = true) as -> by (apply dict_in_true; eauto).
        done.
      * intros k. cbn [nodes set_nodes]. rewrite dict_get_set.
        destruct (decide (k = p)) as [->|Hne].
        -- rewrite Ep0. cbn [fmap option_fmap option_map].
           unfold node_after; cbv zeta.
           by rewrite (bool_decide_eq_true_2 (p = p)), Ech by done.
        -- rewrite Hg2. destruct (dict_get k (nodes self)); [|done].
           cbn [fmap option_fmap option_map].
           unfold node_after; cbv zeta.
           by rewrite (bool_decide_eq_false_2 (k = p)).
  - eexists. split_and!; try done. intros k. cbn [nodes set_nodes].
    rewrite Hg2.
    destruct (dict_get k (nodes self)) as [n|] eqn:Ek; [|done].
    cbn [fmap option_fmap option_map]. f_equal.
      unfold node_after; cbv zeta.
    destruct (decide (k = p)) as [->|Hne].
    + apply dict_in_false in Ep. by rewrite Hg2, Ek in Ep.
    + by rewrite (bool_decide_eq_false_2 (k = p)).
Qed.

Lemma _add_node_new self ga v d isd parent :
  dict_in ga (nodes self) = false ->
  _add_node self ga v d isd parent
  = _add_node (set_nodes (dict_set ga (fresh_node ga v d isd) (nodes self)) self)
      ga v d isd parent.
Proof.
  intros H.
  assert (dict_in ga (dict_set ga (fresh_node ga v d isd) (nodes self)) = true)
    as Hin by (apply dict_in_true; rewrite dict_get_set_eq; eauto).
  unfold _add_node. rewrite H. cbn [nodes set_nodes]. by rewrite Hin.
Qed.

Lemma _add_node_spec self ga v d isd parent :
  let n0 := default (fresh_node ga v d isd) (dict_get ga (nodes self)) in
  exists self',
    _add_node self ga v d isd parent = Ok self'
    /\ root_project self' = root_project self
    /\ dict_keys (nodes self')
       = (if dict_in ga (nodes self) then dict_keys (nodes self)
          else dict_keys (nodes self) ++ [ga])
    /\ forall k,
        dict_get k (nodes self')
        = node_after ga parent (adds_edge parent n0) k
            <$> (if bool_decide (k = ga) then Some n0
                 else dict_get k (nodes self)).
Proof.
  intros n0. subst n0. unfold dict_in.
  destruct (dict_get ga (nodes self)) as [n|] eqn:E; simpl.
  - destruct (_add_node_present self ga v d isd parent n E)
      as (self' & -> & ? & ? & Hg).
    exists self'. split_and!; try done. intros k. rewrite Hg.
    destruct (decide (k = ga)) as [->|Hne].
    + rewrite bool_decide_eq_true_2 by done. by rewrite E.
    + by rewrite bool_decide_eq_false_2.
  - rewrite _add_node_new by (by apply dict_in_false).
    edestruct (_add_node_present
                 (set_nodes (dict_set ga (fresh_node ga v d isd) (nodes self)) self)
                 ga v d isd parent) as (self' & -> & ? & Hk & Hg).
    { simpl. apply dict_get_set_eq. }
    exists self'. split_and!; try done.
    + rewrite Hk. simpl. rewrite dict_keys_set.
      unfold dict_in. by rewrite E.
    + intros k. rewrite Hg. cbn [nodes set_nodes]. rewrite dict_get_set.
      destruct (decide (k = ga)) as [->|Hne].
      * by rewrite bool_decide_eq_true_2.
      * by rewrite bool_decide_eq_false_2.
Qed.

(** [_add_node] leaves the identity of every node alone and adds at most
    one parent to the node of [ga] and one child to the node of [parent]. *)
Lemma node_after_spec key parent adds k n :
  let n' := node_after key parent adds k n in
  ga n' = ga n
  /\ version n' = version n
  /\ depth n' = depth n
  /\ is_direct n' = is_direct n
  /\ parents n'
     = match parent with
       | Some p => if adds && bool_decide (k = key)
                   then parents n ++ [p] else parents n
       | None => parents n
       end
  /\ children n'
     = match parent with
       | Some p =>
           if adds && bool_decide (k = p) && negb (bool_decide (key ∈ children n))
           then children n ++ [key] else children n
       | None => children n
       end.
Proof.
  unfold node_after. destruct parent as [p|]; [|done].
  destruct adds; [|done]. cbv zeta. cbn [andb].
  destruct (bool_decide (k = key)), (bool_decide (k = p)); cbn [andb];
    try destruct (bool_decide (key ∈ children _)) eqn:E; cbn [negb];
    cbn; rewrite ?E; done.
Qed.

(** ** The loop over the lines *)

Lemma for_each_app {S A} (body : S -> A -> result S) st l1 l2 :
  for_each body st (l1 ++ l2) = (st' ← for_each body st l1; for_each body st' l2).
Proof.
  revert st. induction l1 as [|x l1 IH]; intros st; simpl; [done|].
  destruct (body st x); simpl; [apply IH | done].
Qed.

Lemma for_each_parse_line st lines :
  for_each parse_line st lines = place_all st (sightings lines).
Proof.
  unfold place_all, sightings. revert st.
  induction lines as [|l lines IH]; intros st; simpl; [done|].
  rewrite parse_line_sighting.
  destruct (sighting l) as [[[d g] v]|]; simpl.
  - destruct (place st d g v); simpl; [apply IH | done].
  - apply IH.
Qed.

Lemma sightings_app l1 l2 : sightings (l1 ++ l2) = sightings l1 ++ sightings l2.
Proof. apply omap_app. Qed.

Lemma sightings_is_ga lines d ga v :
  (d, ga, v) ∈ sightings lines -> is_ga ga.
Proof.
  unfold sightings. rewrite list_elem_of_omap. intros (l & _ & H).
  by apply sighting_is_ga in H as [? _].
Qed.

Lemma place_spec (st : parse_state) d ga v :
  let n0 := default (fresh_node ga v d (d <=? 1)) (dict_get ga (nodes st.1)) in
  exists self',
    place st d ga v = Ok (self', chain_after st.2 d ga)
    /\ root_project self'
       = (if d =? 0 then Some ga else root_project st.1)
    /\ dict_keys (nodes self')
       = (if dict_in ga (nodes st.1) then dict_keys (nodes st.1)
          else dict_keys (nodes st.1) ++ [ga])
    /\ forall k,
        dict_get k (nodes self')
        = node_after ga (parent_of st.2 d) (adds_edge (parent_of st.2 d) n0) k
            <$> (if bool_decide (k = ga) then Some n0
                 else dict_get k (nodes st.1)).
Proof.
  intros n0. unfold place, parent_of, chain_after.
  destruct (Nat.eqb_spec d 0) as [->|Hd].
  - destruct (_add_node_spec (set_root_project (Some ga) st.1) ga v 0 true None)
      as (self' & -> & Hr & Hk & Hg).
    exists self'. split_and!; try done.
  - assert ((d =? 1) = (d <=? 1)) as E.
    { destruct d as [|[|d]]; done. }
    destruct (_add_node_spec st.1 ga v d (d =? 1) (st.2 !! (d - 1)))
      as (self' & -> & Hr & Hk & Hg).
    exists self'. split_and!; try done.
    intros k. rewrite Hg. subst n0. by rewrite E.
Qed.

(** ** Invariants of the loop *)

Lemma new_graph_ok : state_ok (new_graph, ∅).
Proof.
  split; [split|]; simpl.
  - apply NoDup_nil_2.
  - done.
  - intros d p. by rewrite lookup_empty.
Qed.

Lemma adds_edge_true parent n :
  adds_edge parent n = true ->
  exists p, parent = Some p /\ p ≠ [] /\ p ∉ parents n.
Proof.
  destruct parent as [p|]; [|done]. simpl.
  intros [H1 H2]%andb_true_iff. exists p.
  apply negb_true_iff, bool_decide_eq_false in H1, H2. done.
Qed.

Lemma chain_after_lookup chain d ga i p :
  chain_after chain d ga !! i = Some p ->
  p = ga \/ chain !! i = Some p.
Proof.
  unfold chain_after. destruct (d =? 0).
  - rewrite lookup_insert. case_decide; [left; congruence | by right].
  - rewrite map_lookup_filter_Some. intros [H _]. revert H.
    rewrite lookup_insert. case_decide; [left; congruence | by right].
Qed.

Lemma parent_of_chain_ok g chain d p :
  chain_ok g chain -> parent_of chain d = Some p ->
  is_Some (dict_get p (nodes g)).
Proof.
  unfold parent_of. intros Hc. destruct (d =? 0); [done|]. apply Hc.
Qed.

Lemma place_ok st d key v st' :
  is_ga key -> state_ok st -> place st d key v = Ok st' -> state_ok st'.
Proof.
  intros Hga [[Hnd Hnode] Hchain] Hplace.
  destruct (place_spec st d key v) as (self' & E & _ & Hk & Hg).
  rewrite E in Hplace. injection Hplace as <-.
  set (n0 := default (fresh_node key v d (d <=? 1)) (dict_get key (nodes st.1))) in *.
  set (par := parent_of st.2 d) in *.
  assert (forall k, is_Some (dict_get k (nodes st.1)) ->
                    is_Some (dict_get k (nodes self'))) as Hmono.
  { intros k [n Hn]. rewrite Hg.
    destruct (bool_decide (k = key)); [by eexists|]. rewrite Hn. by eexists. }
  assert (is_Some (dict_get key (nodes self'))) as Hkey.
  { rewrite Hg, bool_decide_eq_true_2 by done. by eexists. }
  assert (ga n0 = key /\ NoDup (parents n0) /\ NoDup (children n0)
          /\ (forall p, p ∈ parents n0 -> is_Some (dict_get p (nodes st.1)))
          /\ is_direct n0 = (depth n0 <=? 1)) as Hn0.
  { subst n0. destruct (dict_get key (nodes st.1)) as [n|] eqn:En; simpl.
    - destruct (Hnode _ _ En) as (? & ? & ? & ? & ? & ?). done.
    - split_and!; try done; try apply NoDup_nil_2.
      by intros p ?%elem_of_nil. }
  split; [split|]; simpl.
  - rewrite Hk. destruct (dict_in key (nodes st.1)) eqn:Ein; [done|].
    apply NoDup_app. split_and!; [done | | apply NoDup_singleton].
    intros x Hx ->%list_elem_of_singleton.
    apply dict_in_false in Ein. apply dict_get_keys in Hx.
    rewrite Ein in Hx. by destruct Hx.
  - intros k n' Hn'. rewrite Hg in Hn'.
    apply fmap_Some in Hn' as (n & Hn & ->).
    destruct (node_after_spec key par (adds_edge par n0) k n)
      as (-> & _ & Hdep & -> & -> & ->). rewrite Hdep. clear Hdep.
    assert (ga n = k /\ is_ga k /\ NoDup (parents n) /\ NoDup (children n)
            /\ (forall p, p ∈ parents n -> is_Some (dict_get p (nodes st.1)))
            /\ is_direct n = (depth n <=? 1)
            /\ (k = key -> n = n0))
      as (Hgn & Hgk & Hpn & Hcn & Hpin & Hdn & Hkn).
    { destruct (decide (k = key)) as [->|Hne].
      - rewrite bool_decide_eq_true_2 in Hn by done. injection Hn as <-.
        destruct Hn0 as (? & ? & ? & ? & ?). done.
      - rewrite bool_decide_eq_false_2 in Hn by done.
        destruct (Hnode _ _ Hn) as (? & ? & ? & ? & ? & ?). done. }
    split_and!; try done.
    + destruct par as [p|]; [|done].
      destruct (adds_edge (Some p) n0 && bool_decide (k = key)) eqn:Ea; [|done].
      apply andb_true_iff in Ea as [Ha Hkk].
      apply bool_decide_eq_true in Hkk. rewrite (Hkn Hkk).
      apply adds_edge_true in Ha as (p' & [= <-] & _ & Hnotin).
      apply NoDup_app. split_and!; [by destruct Hn0 as (? & ? & ?) | | apply NoDup_singleton].
      by intros x Hx ->%list_elem_of_singleton.
    + destruct par as [p|]; [|done].
      destruct (_ && negb (bool_decide (key ∈ children n))) eqn:Ea; [|done].
      apply andb_true_iff in Ea as [_ Hc].
      apply negb_true_iff, bool_decide_eq_false in Hc.
      apply NoDup_app. split_and!; [done | | apply NoDup_singleton].
      by intros x Hx ->%list_elem_of_singleton.
    + intros p Hp. destruct par as [q|] eqn:Epar; [|by apply Hmono, Hpin].
      destruct (adds_edge (Some q) n0 && bool_decide (k = key)) eqn:Ea;
        [|by apply Hmono, Hpin].
      apply elem_of_app in Hp as [Hp|Hp]; [by apply Hmono, Hpin|].
      apply list_elem_of_singleton in Hp as ->.
      apply Hmono. by eapply parent_of_chain_ok.
  - intros i p [->|Hp]%chain_after_lookup; [done|].
    apply Hmono. by eapply Hchain.
Qed.

Lemma place_total st d key v : exists st', place st d key v = Ok st'.
Proof. destruct (place_spec st d key v) as (self' & E & _). eauto. Qed.

Lemma place_all_total st ss : exists st', place_all st ss = Ok st'.
Proof.
  unfold place_all. revert st. induction ss as [|s ss IH]; intros st; simpl.
  - eauto.
  - destruct (place_total st s.1.1 s.1.2 s.2) as [st1 ->]. apply IH.
Qed.

Lemma place_all_ok st ss st' :
  (forall s, s ∈ ss -> is_ga s.1.2) ->
  state_ok st -> place_all st ss = Ok st' -> state_ok st'.
Proof.
  unfold place_all. revert st. induction ss as [|s ss IH]; intros st Hga Hok; simpl.
  - by intros [= <-].
  - destruct (place_total st s.1.1 s.1.2 s.2) as [st1 E]. rewrite E. simpl.
    apply IH.
    + intros s' Hs'. apply Hga. by right.
    + eapply place_ok; [|done|done]. apply Hga. by left.
Qed.

(** ** Rounding to a double *)

Section FloatFacts.
Local Open Scope Z_scope.
Local Open Scope Q_scope.

Lemma round_half_even_cases q :
  round_half_even q = Qfloor q
  \/ (round_half_even q = (Qfloor q + 1)%Z
      /\ (Z.pos (Qden q) <= 2 * (Qnum q - Qfloor q * Z.pos (Qden q)))%Z).
Proof.
  unfold round_half_even, Qfloor. destruct q as [n d]. cbn [Qnum Qden].
  destruct (Z.ltb_spec (2 * (n - n / Z.pos d * Z.pos d)) (Z.pos d));
    [by left|].
  destruct (Z.ltb_spec (Z.pos d) (2 * (n - n / Z.pos d * Z.pos d))).
  - right. split; [done|lia].
  - destruct (Z.even _); [by left | right; split; [done|lia]].
Qed.

Lemma round_half_even_nonneg q : 0 <= q -> (0 <= round_half_even q)%Z.
Proof.
  intros H. assert (0 <= Qfloor q)%Z.
  { rewrite <- (Qfloor_Z 0). by apply Qfloor_resp_le. }
  destruct (round_half_even_cases q) as [->|[-> _]]; lia.
Qed.

Lemma round_half_even_le_int q (N : Z) :
  q <= inject_Z N -> (round_half_even q <= N)%Z.
Proof.
  intros H. assert (Qfloor q <= N)%Z as Hf.
  { rewrite <- (Qfloor_Z N). by apply Qfloor_resp_le. }
  destruct (round_half_even_cases q) as [->|[-> Hr]]; [done|].
  destruct (Z.eq_dec (Qfloor q) N) as [E|]; [|lia].
  exfalso. rewrite E in Hr. unfold Qle in H. destruct q as [n d].
  cbn [Qnum Qden inject_Z] in *. lia.
Qed.

Lemma pow2_pos e : 0 < pow2 e.
Proof.
  unfold pow2. destruct (0 <=? e)%Z eqn:E.
  - apply Z.leb_le in E. change 0 with (inject_Z 0). rewrite <- Zlt_Qlt.
    by apply Z.pow_pos_nonneg.
  - apply Z.leb_gt in E. apply Qinv_lt_0_compat.
    change 0 with (inject_Z 0). rewrite <- Zlt_Qlt.
    apply Z.pow_pos_nonneg; lia.
Qed.

Lemma floor_log2_le_0 a : 0 < a -> a <= 1 -> (floor_log2 a <= 0)%Z.
Proof.
  destruct a as [n d]. unfold Qlt, Qle, floor_log2. cbn [Qnum Qden].
  intros Hn Hd.
  assert (Z.log2 n <= Z.log2 (Z.pos d))%Z by (apply Z.log2_le_mono; lia).
  destruct (Qle_bool _ _); lia.
Qed.

(** Equal rationals round to the same double, whatever fraction
    denotes them. *)
Lemma binary64_proper q q' : q == q' -> binary64 q = binary64 q'.
Proof. intros H. unfold binary64. by rewrite (Qred_complete _ _ H). Qed.

(** Rounding keeps a number of the unit interval in it: 0 and 1 are
    doubles. *)
Lemma binary64_unit_interval q :
  0 <= q -> q <= 1 -> 0 <= binary64 q /\ binary64 q <= 1.
Proof.
  intros H0 H1. unfold binary64.
  pose proof (Qred_correct q) as Hred. set (r := Qred q) in *.
  destruct (Qnum r =? 0)%Z eqn:En; [split; [apply Qle_refl | done]|].
  apply Z.eqb_neq in En.
  assert (0 < r) as Hpos.
  { assert (0 <= r) as Hr by (by rewrite Hred).
    destruct r as [n d]. unfold Qle, Qlt in *. cbn [Qnum Qden] in *. lia. }
  assert (Qabs r = r) as ->.
  { destruct r as [n d]. unfold Qlt in Hpos. cbn [Qnum Qden Qabs] in *.
    rewrite Z.abs_eq by lia. done. }
  assert (Z.sgn (Qnum r) = 1%Z) as ->.
  { destruct r as [n d]. unfold Qlt in Hpos. cbn [Qnum Qden] in *.
    apply Z.sgn_pos. lia. }
  assert (floor_log2 r <= 0)%Z as He.
  { apply floor_log2_le_0; [done | by rewrite Hred]. }
  set (u := Z.max (floor_log2 r - 52) (-1074)).
  assert (u < 0)%Z as Hu by (subst u; lia).
  assert (pow2 u = / inject_Z (2 ^ (- u))) as Hp.
  { unfold pow2. apply Z.leb_gt in Hu. by rewrite Hu. }
  set (P := (2 ^ (- u))%Z) in *.
  assert (0 < P)%Z as HP by (apply Z.pow_pos_nonneg; lia).
  assert (0 < inject_Z P) as HPq.
  { change 0 with (inject_Z 0). by rewrite <- Zlt_Qlt. }
  set (m := round_half_even (r / pow2 u)).
  assert (r / pow2 u == r * inject_Z P) as Hdiv.
  { rewrite Hp. unfold Qdiv. by rewrite Qinv_involutive. }
  assert (0 <= m)%Z as Hm0.
  { apply round_half_even_nonneg. rewrite Hdiv.
    apply Qmult_le_0_compat; [by apply Qlt_le_weak | by apply Qlt_le_weak]. }
  assert (m <= P)%Z as HmP.
  { apply round_half_even_le_int. rewrite Hdiv.
    rewrite <- (Qmult_1_l (inject_Z P)) at 2.
    apply Qmult_le_compat_r; [by rewrite Hred | by apply Qlt_le_weak]. }
  rewrite Qred_correct, Hp, Z.mul_1_l.
  split.
  - apply Qmult_le_0_compat.
    + change 0 with (inject_Z 0). by rewrite <- Zle_Qle.
    + apply Qlt_le_weak, Qinv_lt_0_compat. done.
  - apply Qle_shift_div_r; [done|]. rewrite Qmult_1_l. by rewrite <- Zle_Qle.
Qed.

Lemma float_mul_comm a b : float_mul a b = float_mul b a.
Proof. apply binary64_proper, Qmult_comm. Qed.

Lemma float_quotient_unit_interval a b :
  (a <= b)%nat -> (0 < b)%nat ->
  0 <= float_quotient a b /\ float_quotient a b <= 1.
Proof.
  intros Hab Hb. apply binary64_unit_interval.
  - apply Qle_shift_div_l.
    + change 0 with (inject_Z 0). rewrite <- Zlt_Qlt. lia.
    + rewrite Qmult_0_l. change 0 with (inject_Z 0). rewrite <- Zle_Qle. lia.
  - apply Qle_shift_div_r.
    + change 0 with (inject_Z 0). rewrite <- Zlt_Qlt. lia.
    + rewrite Qmult_1_l. rewrite <- Zle_Qle. lia.
Qed.

Lemma float_quotient_zero b b' : float_quotient 0 (S b) = float_quotient 0 (S b').
Proof. apply binary64_proper. unfold Qdiv. by rewrite !Qmult_0_l. Qed.

Lemma clamp_unit_interval x :
  0 <= float_min 1 (float_max 0 x) /\ float_min 1 (float_max 0 x) <= 1.
Proof.
  unfold float_min, float_max.
  destruct (Qle_bool x 0) eqn:E0.
  - change (Qle_bool 1 0) with false. cbv iota. split; [apply Qle_refl | done].
  - assert (0 < x) as Hx.
    { apply Qnot_le_lt. intros H%Qle_bool_iff. congruence. }
    destruct (Qle_bool 1 x) eqn:E1.
    + split; [done | apply Qle_refl].
    + split; [by apply Qlt_le_weak|].
      apply Qlt_le_weak, Qnot_le_lt. intros H%Qle_bool_iff. congruence.
Qed.
End FloatFacts.

(** ** The scorer *)

Lemma fold_left_max l a : fold_left Nat.max l a = Nat.max a (max_list l).
Proof.
  revert a. induction l as [|x l IH]; intros a; simpl; [lia|].
  rewrite IH. lia.
Qed.

Lemma py_max_cons x l : py_max (x :: l) = Ok (max_list (x :: l)).
Proof. simpl. by rewrite fold_left_max. Qed.

Lemma score_node_ok md mx n :
  md ≠ 0 -> score_node md mx n = Ok (scored md mx n).
Proof.
  intros H. unfold score_node, scored, true_div.
  destruct md; [done|]. rewrite bind_Ok.
  replace (mx + 1) with (S mx) by lia. by rewrite bind_Ok.
Qed.

Lemma score_nodes_ok md mx d :
  md ≠ 0 ->
  score_nodes md mx d
  = Ok (map (fun kv : str * DependencyNode => (kv.1, scored md mx kv.2)) d).
Proof.
  intros H. induction d as [|[k n] d IH]; simpl; [done|].
  by rewrite score_node_ok, bind_Ok, IH, bind_Ok.
Qed.

Lemma _calculate_scores_spec g : _calculate_scores g = Ok (scored_graph g).
Proof.
  unfold _calculate_scores, scored_graph, graph_max_degree, graph_max_depth.
  destruct g as [ns r]. cbn [nodes root_project set_nodes].
  destruct ns as [|[k n] ns]; [done|].
  cbn [dict_values map]. rewrite !py_max_cons, !bind_Ok.
  rewrite score_nodes_ok by lia. by rewrite bind_Ok.
Qed.

Lemma dict_get_map_values {V W} (f : V -> W) k (d : dict V) :
  dict_get k (map (fun kv : str * V => (kv.1, f kv.2)) d) = f <$> dict_get k d.
Proof.
  induction d as [|[k' v] d IH]; simpl; [done|].
  by destruct (str_eqb k k').
Qed.

Lemma dict_keys_map_values {V W} (f : V -> W) (d : dict V) :
  dict_keys (map (fun kv : str * V => (kv.1, f kv.2)) d) = dict_keys d.
Proof. unfold dict_keys. rewrite map_map. by apply map_ext. Qed.

Lemma scored_graph_get g k :
  dict_get k (nodes (scored_graph g))
  = scored (Nat.max (graph_max_degree g) 1) (Nat.max (graph_max_depth g) 1)
      <$> dict_get k (nodes g).
Proof. unfold scored_graph. cbn [nodes set_nodes]. apply dict_get_map_values. Qed.

Lemma scored_graph_keys g :
  dict_keys (nodes (scored_graph g)) = dict_keys (nodes g).
Proof. unfold scored_graph. cbn [nodes set_nodes]. apply dict_keys_map_values. Qed.

Lemma scored_graph_ok g : graph_ok g -> graph_ok (scored_graph g).
Proof.
  intros [Hk Hn]. split.
  - by rewrite scored_graph_keys.
  - intros k n'. rewrite scored_graph_get.
    intros (n & Hg & ->)%fmap_Some.
    unfold scored. cbn [ga depth is_direct parents children set_scores].
    destruct (Hn _ _ Hg) as (? & ? & ? & ? & Hp & ?). split_and!; try done.
    intros p Hin. rewrite scored_graph_get. apply fmap_is_Some. by apply Hp.
Qed.

(** ** [parse_tree_text] as a whole *)

Lemma parse_tree_text_spec self text :
  exists st,
    place_all (self, ∅) (sightings (lines_of text)) = Ok st
    /\ parse_tree_text self text = Ok (scored_graph st.1).
Proof.
  destruct (place_all_total (self, ∅) (sightings (lines_of text))) as [st E].
  exists st. split; [done|]. unfold parse_tree_text. fold (lines_of text).
  by rewrite for_each_parse_line, E, bind_Ok, _calculate_scores_spec.
Qed.

Lemma parse_dependency_tree_ok text g :
  parse_dependency_tree text = Ok g -> graph_ok g.
Proof.
  unfold parse_dependency_tree.
  destruct (parse_tree_text_spec new_graph text) as (st & E & ->).
  intros [= <-]. apply scored_graph_ok.
  eapply (place_all_ok _ _ st) in E as [? _]; [done| |apply new_graph_ok].
  intros [[d k] v] H. by eapply sightings_is_ga.
Qed.

Lemma last_root_snoc ss d k v :
  last_root (ss ++ [(d, k, v)]) = if d =? 0 then Some k else last_root ss.
Proof.
  unfold last_root. rewrite omap_app. cbn [omap list_omap fst snd].
  destruct (d =? 0).
  - by rewrite last_snoc.
  - by rewrite app_nil_r.
Qed.

Lemma chain_after_lookup_0 chain d k :
  chain_after chain d k !! 0 = if d =? 0 then Some k else chain !! 0.
Proof.
  unfold chain_after. destruct (Nat.eqb_spec d 0) as [->|Hd].
  - by rewrite lookup_insert_eq.
  - apply option_eq. intros x. rewrite map_lookup_filter_Some.
    rewrite lookup_insert_ne by done. cbn [fst]. split; [by intros [? _]|].
    intros ?. split; [done | lia].
Qed.

Lemma place_all_snoc st ss s :
  place_all st (ss ++ [s])
  = (st' ← place_all st ss; place st' s.1.1 s.1.2 s.2).
Proof.
  unfold place_all. rewrite for_each_app. destruct (for_each _ st ss); [|done].
  simpl. by destruct (place _ _ _ _).
Qed.

Lemma place_all_root ss :
  exists st,
    place_all (new_graph, ∅) ss = Ok st
    /\ root_project st.1 = last_root ss
    /\ st.2 !! 0 = last_root ss.
Proof.
  induction ss as [|[[d k] v] ss (st & E & Hr & Hc)] using rev_ind.
  - exists (new_graph, ∅). split_and!; try done.
  - rewrite place_all_snoc, E, bind_Ok. cbn [fst snd].
    destruct (place_spec st d k v) as (self' & -> & Hr' & _).
    eexists. split; [reflexivity|]. cbn [fst snd].
    rewrite last_root_snoc, Hr', chain_after_lookup_0, Hr, Hc.
    by destruct (d =? 0).
Qed.

(** ** The engine *)

Lemma get_dependency_info_get self key :
  match dict_get key (nodes self) with
  | None => get_dependency_info self key = Ok None
  | Some n =>
      exists info,
        get_dependency_info self key = Ok (Some info)
        /\ dict_ga info = ga n /\ dict_version info = version n
        /\ dict_depth info = depth n /\ dict_is_direct info = is_direct n
        /\ dict_parents info = parents n
        /\ dict_children info = children n
  end.
Proof.
  unfold get_dependency_info, dict_in, dict_item.
  destruct (dict_get key (nodes self)) as [n|]; [|done].
  cbn [negb]. rewrite bind_Ok. eexists. split; [reflexivity|].
  by repeat case_match.
Qed.

(** [parse_version] reads its numbers from the runs of [digits_read]. *)
Lemma parse_version_digits_read version :
  let numbers := map int_of_digits (digits_read version) in
  parse_version version
  = (nth 0 numbers 0%N, nth 1 numbers 0%N, nth 2 numbers 0%N,
     default [] (List.find (fun q => str_in q version) qualifiers)).
Proof.
  unfold parse_version, digits_read.
  destruct (List.find _ qualifiers) as [q|]; cbv zeta; cbn [default];
    match goal with |- context [findall_digits ?c] =>
      destruct (findall_digits c) as [|a [|b [|c' l]]] end; reflexivity.
Qed.

(** A run of 4300 digits is read, one of 4301 digits is not, unless it is
    the fourth run or a later one. *)
Example readable_versions :
  readable (py "10.1.42") = true
  /\ readable (py "2.19.1-SNAPSHOT") = true
  /\ readable (repeat 49%N 4300) = true
  /\ readable (repeat 49%N 4301) = false
  /\ readable (py "1.2.3." ++ repeat 49%N 4301) = true.
Proof. split_and!; vm_compute; reflexivity. Qed.

Lemma direct_risk_spec cur tgt :
  (version_jump_type cur tgt = py "patch" -> direct_risk cur tgt = py "LOW")
  /\ (version_jump_type cur tgt = py "minor" -> direct_risk cur tgt = py "MEDIUM")
  /\ (version_jump_type cur tgt = py "major" -> direct_risk cur tgt = py "HIGH").
Proof. unfold direct_risk. split_and!; intros ->; by vm_compute. Qed.

Lemma _create_direct_upgrade_ok key cur tgt :
  is_ga key ->
  exists r,
    _create_direct_upgrade key cur tgt = Ok r
    /\ strategy r = DIRECT_UPGRADE
    /\ upgrade_target_ga r = key
    /\ upgrade_target_version r = tgt
    /\ risk_level r = direct_risk cur tgt.
Proof.
  intros (g & a & E). unfold _create_direct_upgrade. rewrite E.
  cbn [unpack2]. rewrite bind_Ok. eexists. split; [reflexivity|]. done.
Qed.

Lemma transitive_cascade_ok g key node p ps cur tgt apv :
  graph_ok g ->
  dict_get key (nodes g) = Some node ->
  is_direct node = false ->
  parents node = p :: ps ->
  exists r,
    get_upgrade_strategy g key cur tgt apv = Ok r
    /\ cascade_outcome key cur tgt p apv r.
Proof.
  intros [_ Hok] Hkey Hdir Hpar.
  destruct (Hok _ _ Hkey) as (_ & (kg & ka & Hksplit) & _ & _ & Hpin & _).
  assert (is_Some (dict_get p (nodes g))) as [pn Hp].
  { apply Hpin. rewrite Hpar. by left. }
  destruct (Hok _ _ Hp) as (_ & (pg & pa & Hpsplit) & _).
  unfold get_upgrade_strategy.
  pose proof (get_dependency_info_get g key) as Hinfo. rewrite Hkey in Hinfo.
  destruct Hinfo as (info & -> & _ & _ & _ & Hd & Hps & _).
  rewrite bind_Ok, Hd, Hdir.
  unfold _analyze_transitive_upgrade. rewrite Hps, Hpar.
  cbn [subscript lookup list_lookup]. rewrite bind_Ok.
  pose proof (get_dependency_info_get g p) as Hpinfo. rewrite Hp in Hpinfo.
  destruct Hpinfo as (pinfo & -> & _). rewrite bind_Ok.
  unfold cascade_outcome, supplied_versions.
  match goal with |- context [dict_in p ?d] => set (D := d) end.
  assert (apv ≫= dict_get p = dict_get p D) as ->.
  { subst D. destruct apv as [[|? ?]|]; reflexivity. }
  assert (exists r,
    (if dict_in key SPRING_BOOT_BOM_PROPERTIES
     then bom_property ← dict_item key SPRING_BOOT_BOM_PROPERTIES;
          _create_bom_override key cur tgt bom_property p
     else if is_same_major_minor cur tgt
          then _create_force_override key cur tgt p (py "MEDIUM")
          else if is_same_major cur tgt
               then _create_force_override key cur tgt p (py "HIGH")
               else _create_cannot_upgrade key cur tgt p) = Ok r
    /\ (if dict_in key SPRING_BOOT_BOM_PROPERTIES
        then strategy r = BOM_OVERRIDE
             /\ risk_level r
                = (if is_same_major_minor cur tgt then py "LOW" else py "MEDIUM")
        else if is_same_major_minor cur tgt
             then strategy r = FORCE_OVERRIDE /\ risk_level r = py "MEDIUM"
             else if is_same_major cur tgt
                  then strategy r = FORCE_OVERRIDE /\ risk_level r = py "HIGH"
                  else strategy r = CANNOT_UPGRADE
                       /\ risk_level r = py "CRITICAL")) as Hrest.
  { unfold dict_in, dict_item.
    destruct (dict_get key SPRING_BOOT_BOM_PROPERTIES) as [prop|].
    - rewrite bind_Ok. unfold _create_bom_override. rewrite Hksplit.
      cbn [subscript lookup list_lookup]. rewrite bind_Ok.
      eexists. split; [reflexivity|]. done.
    - unfold _create_force_override, _create_cannot_upgrade. rewrite Hksplit.
      cbn [unpack2]. rewrite !bind_Ok.
      destruct (is_same_major_minor cur tgt);
        [eexists; split; [reflexivity|done]|].
      destruct (is_same_major cur tgt); eexists; split; try reflexivity; done. }
  destruct (dict_get p D) as [[|latest rest]|] eqn:ED.
  - assert (dict_in p D = true) as -> by (unfold dict_in; by rewrite ED).
    assert (dict_item p D = Ok []) as -> by (unfold dict_item; by rewrite ED).
    rewrite !bind_Ok. exact Hrest.
  - assert (dict_in p D = true) as -> by (unfold dict_in; by rewrite ED).
    assert (dict_item p D = Ok (latest :: rest)) as ->
      by (unfold dict_item; by rewrite ED).
    rewrite bind_Ok. cbn [subscript lookup list_lookup]. rewrite bind_Ok.
    unfold _create_parent_upgrade. rewrite Hpsplit. cbn [unpack2].
    rewrite !bind_Ok. eexists. split; [reflexivity|]. done.
  - assert (dict_in p D = false) as -> by (unfold dict_in; by rewrite ED).
    rewrite bind_Ok. exact Hrest.
Qed.

Lemma test_graph_parsed : parse_dependency_tree TEST_TREE = Ok test_graph.
Proof. vm_compute. reflexivity. Qed.

(** ** Parents and children mirror each other *)

Lemma new_graph_mirrored : mirrored new_graph.
Proof. intros k n. done. Qed.

Lemma place_mirrored (st st' : parse_state) d key v :
  state_ok st -> mirrored st.1 ->
  place st d key v = Ok st' -> mirrored st'.1.
Proof.
  intros [[Hnd Hnode] Hchain] Hmir Hplace.
  destruct (place_spec st d key v) as (self' & E & _ & _ & Hg).
  rewrite E in Hplace. injection Hplace as <-. cbn [fst].
  set (n0 := default (fresh_node key v d (d <=? 1)) (dict_get key (nodes st.1))) in *.
  set (par := parent_of st.2 d) in *.
  (* the node stored under [k] before the step, the fresh one for a new key *)
  set (before := fun k => if bool_decide (k = key) then Some n0
                          else dict_get k (nodes st.1)).
  assert (forall k n, dict_get k (nodes st.1) = Some n -> before k = Some n)
    as Hbefore.
  { intros k n Hn. unfold before. case_bool_decide as Hk; [|done].
    subst k n0. by rewrite Hn. }
  assert (forall k n, before k = Some n ->
            (forall p, p ∈ parents n ->
               exists pn, before p = Some pn /\ k ∈ children pn)
            /\ (forall c, c ∈ children n ->
                  exists cn, before c = Some cn /\ k ∈ parents cn)) as Hold.
  { intros k n Hn.
    assert (dict_get k (nodes st.1) = Some n
            \/ (n = fresh_node key v d (d <=? 1))) as [Hn'| ->].
    { unfold before in Hn. case_bool_decide as Hk; [|by left].
      injection Hn as <-. subst n0 k.
      destruct (dict_get key (nodes st.1)); [by left | by right]. }
    - destruct (Hmir _ _ Hn') as [Hp Hc]. split.
      + intros p Hin. destruct (Hp p Hin) as (pn & ? & ?). eauto.
      + intros c Hin. destruct (Hc c Hin) as (cn & ? & ?). eauto.
    - split; intros x Hx; by apply elem_of_nil in Hx. }
  intros k n' Hn'. rewrite Hg in Hn'. fold (before k) in Hn'.
  apply fmap_Some in Hn' as (n & Hn & ->).
  destruct (node_after_spec key par (adds_edge par n0) k n)
    as (_ & _ & _ & _ & Hps & Hcs).
  assert (forall q qn, before q = Some qn ->
            exists qn', dict_get q (nodes self') = Some qn'
              /\ (forall x, x ∈ parents qn -> x ∈ parents qn')
              /\ (forall x, x ∈ children qn -> x ∈ children qn')
              /\ qn' = node_after key par (adds_edge par n0) q qn) as Hkeep.
  { intros q qn Hq. eexists. split; [|split_and!; [| |reflexivity]].
    - rewrite Hg. fold (before q). rewrite Hq. reflexivity.
    - intros x Hx.
      destruct (node_after_spec key par (adds_edge par n0) q qn)
        as (_ & _ & _ & _ & -> & _).
      destruct par; [|done].
      destruct (_ && bool_decide (q = key)); [|done].
      apply elem_of_app. by left.
    - intros x Hx.
      destruct (node_after_spec key par (adds_edge par n0) q qn)
        as (_ & _ & _ & _ & _ & ->).
      destruct par; [|done].
      destruct (_ && negb (bool_decide (key ∈ children qn))); [|done].
      apply elem_of_app. by left. }
  destruct (Hold _ _ Hn) as [Hop Hoc].
  split.
  - intros p Hp. rewrite Hps in Hp.
    assert (p ∈ parents n
            \/ (par = Some p /\ adds_edge par n0 = true /\ k = key))
      as [Hin|(Epar & Ha & ->)].
    { destruct par as [q|]; [|by left].
      destruct (adds_edge (Some q) n0) eqn:Ea; [|by left].
      case_bool_decide as Hk; cbn [andb] in Hp; [|by left].
      apply elem_of_app in Hp as [?| ->%list_elem_of_singleton]; [by left|].
      by right. }
    + destruct (Hop p Hin) as (pn & Hpn & Hk).
      destruct (Hkeep _ _ Hpn) as (pn' & ? & _ & Hc' & _). eauto.
    + assert (is_Some (dict_get p (nodes st.1))) as [pn Hpn].
      { eapply parent_of_chain_ok; [exact Hchain|exact Epar]. }
      destruct (Hkeep _ _ (Hbefore _ _ Hpn)) as (pn' & Hpn' & _ & _ & ->).
      eexists. split; [exact Hpn'|].
      destruct (node_after_spec key par (adds_edge par n0) p pn)
        as (_ & _ & _ & _ & _ & ->).
      rewrite Ha, Epar, bool_decide_eq_true_2 by done. cbn [andb].
      destruct (bool_decide (key ∈ children pn)) eqn:Ec; cbn [negb].
      * by apply bool_decide_eq_true in Ec.
      * apply elem_of_app. right. by apply list_elem_of_singleton.
  - intros c Hc. rewrite Hcs in Hc.
    assert (c ∈ children n
            \/ (par = Some k /\ adds_edge par n0 = true /\ c = key))
      as [Hin|(Epar & Ha & ->)].
    { destruct par as [q|]; [|by left].
      destruct (adds_edge (Some q) n0) eqn:Ea; [|by left].
      case_bool_decide as Hk; cbn [andb] in Hc; [|by left].
      destruct (negb (bool_decide (key ∈ children n))); [|by left].
      apply elem_of_app in Hc as [?| ->%list_elem_of_singleton]; [by left|].
      right. by subst q. }
    + destruct (Hoc c Hin) as (cn & Hcn & Hk).
      destruct (Hkeep _ _ Hcn) as (cn' & ? & Hp' & _ & _). eauto.
    + assert (before key = Some n0) as Hkey.
      { unfold before. by rewrite bool_decide_eq_true_2. }
      destruct (Hkeep _ _ Hkey) as (cn' & Hcn' & _ & _ & ->).
      eexists. split; [exact Hcn'|].
      destruct (node_after_spec key par (adds_edge par n0) key n0)
        as (_ & _ & _ & _ & -> & _).
      rewrite Ha, Epar, bool_decide_eq_true_2 by done. cbn [andb].
      apply elem_of_app. right. by apply list_elem_of_singleton.
Qed.

Lemma place_all_mirrored (st st' : parse_state) ss :
  (forall s, s ∈ ss -> is_ga s.1.2) ->
  state_ok st -> mirrored st.1 ->
  place_all st ss = Ok st' -> mirrored st'.1.
Proof.
  unfold place_all. revert st.
  induction ss as [|s ss IH]; intros st Hga Hok Hmir; simpl.
  - by intros [= <-].
  - destruct (place_total st s.1.1 s.1.2 s.2) as [st1 E]. rewrite E, bind_Ok.
    apply IH.
    + intros s' Hs'. apply Hga. by right.
    + eapply place_ok; [|done|done]. apply Hga. by left.
    + by eapply place_mirrored.
Qed.

Lemma scored_graph_mirrored g : mirrored g -> mirrored (scored_graph g).
Proof.
  intros Hmir k n'. rewrite scored_graph_get.
  intros (n & Hn & ->)%fmap_Some. destruct (Hmir _ _ Hn) as [Hp Hc].
  unfold scored. cbn [parents children set_scores]. split.
  - intros p Hin. destruct (Hp p Hin) as (pn & Hpn & ?).
    eexists. split; [by rewrite scored_graph_get, Hpn|]. done.
  - intros c Hin. destruct (Hc c Hin) as (cn & Hcn & ?).
    eexists. split; [by rewrite scored_graph_get, Hcn|]. done.
Qed.

(** ** Sightings and the nodes they leave *)

Lemma place_step_old (st st' : parse_state) d key v k n :
  place st d key v = Ok st' ->
  dict_get k (nodes st.1) = Some n ->
  exists n',
    dict_get k (nodes st'.1) = Some n'
    /\ ga n' = ga n /\ version n' = version n
    /\ depth n' = depth n /\ is_direct n' = is_direct n
    /\ (parents n' = parents n
        \/ (k = key
            /\ exists p, parent_of st.2 d = Some p /\ (p ∉ parents n)
                         /\ parents n' = parents n ++ [p]))
    /\ (children n' = children n
        \/ (parent_of st.2 d = Some k /\ (key ∉ children n)
            /\ children n' = children n ++ [key])).
Proof.
  intros Hplace Hn.
  destruct (place_spec st d key v) as (self' & E & _ & _ & Hg).
  rewrite E in Hplace. injection Hplace as <-. cbn [fst snd].
  set (n0 := default (fresh_node key v d (d <=? 1)) (dict_get key (nodes st.1))) in *.
  set (par := parent_of st.2 d) in *.
  assert ((if bool_decide (k = key) then Some n0 else dict_get k (nodes st.1))
          = Some n) as Hbase.
  { destruct (decide (k = key)) as [->|Hne].
    - rewrite bool_decide_eq_true_2 by done. subst n0. by rewrite Hn.
    - by rewrite bool_decide_eq_false_2. }
  exists (node_after key par (adds_edge par n0) k n).
  split; [by rewrite Hg, Hbase|].
  destruct (node_after_spec key par (adds_edge par n0) k n)
    as (-> & -> & -> & -> & -> & ->).
  split_and!; try done.
  - destruct par as [p|]; [|by left].
    destruct (adds_edge (Some p) n0 && bool_decide (k = key)) eqn:Ea; [|by left].
    apply andb_true_iff in Ea as [Ha Hk]. apply bool_decide_eq_true in Hk.
    subst k. right. split; [done|]. exists p.
    apply adds_edge_true in Ha as (? & [= <-] & _ & Hnot).
    subst n0. rewrite Hn in Hnot. done.
  - destruct par as [p|]; [|by left].
    destruct (_ && negb (bool_decide (key ∈ children n))) eqn:Ea; [|by left].
    apply andb_true_iff in Ea as [Ea Hc].
    apply andb_true_iff in Ea as [_ Hk]. apply bool_decide_eq_true in Hk.
    apply negb_true_iff, bool_decide_eq_false in Hc. subst k. by right.
Qed.

Lemma place_step_new (st st' : parse_state) d key v :
  state_ok st ->
  place st d key v = Ok st' ->
  dict_get key (nodes st.1) = None ->
  exists n,
    dict_get key (nodes st'.1) = Some n
    /\ ga n = key /\ version n = v /\ depth n = d
    /\ is_direct n = (d <=? 1)
    /\ parents n = match parent_of st.2 d with Some p => [p] | None => [] end
    /\ children n = [].
Proof.
  intros [[_ Hnode] Hchain] Hplace Hnone.
  destruct (place_spec st d key v) as (self' & E & _ & _ & Hg).
  rewrite E in Hplace. injection Hplace as <-. cbn [fst snd].
  rewrite Hnone in Hg. cbn [default] in Hg.
  set (par := parent_of st.2 d) in *.
  eexists. split.
  { rewrite Hg, bool_decide_eq_true_2 by done. reflexivity. }
  destruct (node_after_spec key par (adds_edge par (fresh_node key v d (d <=? 1)))
              key (fresh_node key v d (d <=? 1)))
    as (-> & -> & -> & -> & -> & ->).
  split_and!; try done.
  - destruct par as [p|] eqn:Epar; [|done].
    assert (is_Some (dict_get p (nodes st.1))) as [pn Hp]
      by (by eapply parent_of_chain_ok).
    destruct (Hnode _ _ Hp) as (_ & Hpga%is_ga_not_nil & _).
    cbn [adds_edge fresh_node parents].
    rewrite (bool_decide_eq_false_2 (p = [])) by done.
    rewrite (bool_decide_eq_false_2 (p ∈ [])) by apply not_elem_of_nil.
    by rewrite bool_decide_eq_true_2.
  - destruct par as [p|] eqn:Epar; [|done].
    assert (is_Some (dict_get p (nodes st.1))) as [pn Hp]
      by (by eapply parent_of_chain_ok).
    assert (key ≠ p) as Hne by (intros ->; congruence).
    rewrite (bool_decide_eq_false_2 (key = p)) by done.
    by rewrite andb_false_r.
Qed.

(** What a sighting does to the nodes that exist, in a state the parser
    reaches: the attributes stay, the chain's parent is appended to the
    parents of the sighted node unless it is there, and the sighted key to
    the children of that parent unless it is there. *)
Lemma place_step_exact (st st' : parse_state) d key v k n :
  state_ok st -> mirrored st.1 ->
  place st d key v = Ok st' ->
  dict_get k (nodes st.1) = Some n ->
  exists n',
    dict_get k (nodes st'.1) = Some n'
    /\ depth n' = depth n /\ version n' = version n
    /\ is_direct n' = is_direct n
    /\ parents n'
       = match parent_of st.2 d with
         | Some p =>
             if bool_decide (k = key) && negb (bool_decide (p ∈ parents n))
             then parents n ++ [p] else parents n
         | None => parents n
         end
    /\ children n'
       = match parent_of st.2 d with
         | Some p =>
             if bool_decide (k = p) && negb (bool_decide (key ∈ children n))
             then children n ++ [key] else children n
         | None => children n
         end.
Proof.
  intros [[Hnd Hnode] Hchain] Hmir Hplace Hn.
  destruct (place_spec st d key v) as (self' & E & _ & _ & Hg).
  rewrite E in Hplace. injection Hplace as <-. cbn [fst].
  set (n0 := default (fresh_node key v d (d <=? 1)) (dict_get key (nodes st.1))) in *.
  set (par := parent_of st.2 d) in *.
  assert ((if bool_decide (k = key) then Some n0 else dict_get k (nodes st.1))
          = Some n) as Hbefore.
  { case_bool_decide as Hk; [|done]. subst k n0. by rewrite Hn. }
  eexists. split; [by rewrite Hg, Hbefore|].
  destruct (node_after_spec key par (adds_edge par n0) k n)
    as (_ & -> & -> & -> & -> & ->).
  split_and!; try done.
  - destruct par as [p|] eqn:Epar; [|done].
    assert (p ≠ []) as Hp.
    { destruct (parent_of_chain_ok _ _ _ _ Hchain Epar) as [pn Hpn].
      destruct (Hnode _ _ Hpn) as (_ & (g & a & Hs) & _).
      intros ->. by vm_compute in Hs. }
    case_bool_decide as Hk; [|by rewrite andb_false_r].
    subst k. rewrite andb_true_r. cbn [andb]. unfold adds_edge.
    rewrite (bool_decide_eq_false_2 (p = [])) by done. cbn [negb andb].
    subst n0. by rewrite Hn.
  - destruct par as [p|] eqn:Epar; [|done].
    assert (p ≠ []) as Hp.
    { destruct (parent_of_chain_ok _ _ _ _ Hchain Epar) as [pn Hpn].
      destruct (Hnode _ _ Hpn) as (_ & (g & a & Hs) & _).
      intros ->. by vm_compute in Hs. }
    destruct (decide (k = p)) as [->|Hk].
    2:{ rewrite (bool_decide_eq_false_2 (k = p)) by done.
        by rewrite andb_false_r. }
    rewrite (bool_decide_eq_true_2 (p = p)) by done. rewrite andb_true_r.
    destruct (bool_decide (key ∈ children n)) eqn:Ec; cbn [negb andb];
      [by rewrite andb_false_r|].
    apply bool_decide_eq_false in Ec.
    rewrite andb_true_r. unfold adds_edge.
    rewrite (bool_decide_eq_false_2 (p = [])) by done. cbn [negb andb].
    rewrite bool_decide_eq_false_2; [done|].
    intros Hin. apply Ec. subst n0.
    destruct (dict_get key (nodes st.1)) as [kn|] eqn:Ekey; cbn [default] in Hin.
    + destruct (Hmir _ _ Ekey) as [Hpar _].
      destruct (Hpar p Hin) as (pn & Hpn & ?). congruence.
    + by apply elem_of_nil in Hin.
Qed.

Lemma place_all_keeps (st st' : parse_state) ss k n :
  place_all st ss = Ok st' ->
  dict_get k (nodes st.1) = Some n ->
  exists m,
    dict_get k (nodes st'.1) = Some m
    /\ ga m = ga n /\ version m = version n
    /\ depth m = depth n /\ is_direct m = is_direct n.
Proof.
  unfold place_all. revert st n.
  induction ss as [|s ss IH]; intros st n; simpl.
  - intros [= <-] Hn. by exists n.
  - destruct (place_total st s.1.1 s.1.2 s.2) as [st1 E]. rewrite E. simpl.
    intros Hrest Hn.
    destruct (place_step_old _ _ _ _ _ _ _ E Hn)
      as (n1 & Hn1 & <- & <- & <- & <- & _).
    exact (IH st1 n1 Hrest Hn1).
Qed.

Lemma place_all_split (st st' : parse_state) sb s sa :
  place_all st (sb ++ s :: sa) = Ok st' ->
  exists st1 st2,
    place_all st sb = Ok st1
    /\ place st1 s.1.1 s.1.2 s.2 = Ok st2
    /\ place_all st2 sa = Ok st'.
Proof.
  unfold place_all. rewrite for_each_app.
  destruct (place_all_total st sb) as [st1 E1]. unfold place_all in E1.
  rewrite E1, bind_Ok. cbn [for_each].
  destruct (place_total st1 s.1.1 s.1.2 s.2) as [st2 E2].
  rewrite E2, bind_Ok. intros H. by exists st1, st2.
Qed.

(** ** Trees without orphans *)

Lemma place_lookup_origin (st st' : parse_state) d key v k n' :
  place st d key v = Ok st' ->
  dict_get k (nodes st'.1) = Some n' ->
  is_Some (dict_get k (nodes st.1)) \/ (k = key /\ dict_get key (nodes st.1) = None).
Proof.
  intros Hplace Hn'.
  destruct (place_spec st d key v) as (self' & E & _ & _ & Hg).
  rewrite E in Hplace. injection Hplace as <-. cbn [fst snd] in Hn'.
  rewrite Hg in Hn'. destruct (decide (k = key)) as [->|Hne].
  - destruct (dict_get key (nodes st.1)); [left; eauto | right; done].
  - rewrite bool_decide_eq_false_2 in Hn' by done.
    destruct (dict_get k (nodes st.1)); [left; eauto | done].
Qed.

Lemma rooted_first root v :
  is_ga root ->
  exists st, place (new_graph, ∅) 0 root v = Ok st /\ rooted root 0 st.
Proof.
  intros Hga. destruct (place_total (new_graph, ∅) 0 root v) as [st E].
  exists st. split; [done|].
  pose proof (place_ok _ _ _ _ _ Hga new_graph_ok E) as Hok.
  destruct (place_step_new _ _ _ _ _ new_graph_ok E eq_refl)
    as (rn & Hrn & _ & _ & Hd & _ & Hp & _).
  destruct (place_spec (new_graph, ∅) 0 root v) as (self' & E' & Hr & _ & Hg).
  rewrite E in E'. injection E' as ->. cbn [fst snd] in *.
  unfold rooted. cbn [fst snd]. split_and!; try done.
  - by exists rn.
  - intros k n Hn Hne. rewrite Hg, bool_decide_eq_false_2 in Hn by done. done.
  - intros i Hi. assert (i = 0) as -> by lia.
    rewrite chain_after_lookup_0. by eexists.
Qed.

Lemma rooted_step root dlast (st st' : parse_state) d key v :
  rooted root dlast st ->
  1 <= d -> d <= dlast + 1 -> key ≠ root -> is_ga key ->
  place st d key v = Ok st' ->
  rooted root d st'.
Proof.
  intros (Hok & Hroot & (rn & Hrn & Hrd & Hrp) & Hothers & Hchain)
         Hd1 Hd2 Hne Hga Hplace.
  assert (exists p, parent_of st.2 d = Some p) as [p Hpar].
  { unfold parent_of. destruct (Nat.eqb_spec d 0); [lia|].
    apply Hchain. lia. }
  pose proof (place_ok _ _ _ _ _ Hga Hok Hplace) as Hok'.
  split_and!; try done.
  - destruct (place_spec st d key v) as (self' & E & Hr & _).
    rewrite E in Hplace. injection Hplace as <-. cbn [fst snd].
    rewrite Hr. by destruct (Nat.eqb_spec d 0); [lia|].
  - destruct (place_step_old _ _ _ _ _ _ _ Hplace Hrn)
      as (rn' & Hrn' & _ & _ & Hd' & _ & Hp' & _).
    exists rn'. split_and!; [done | congruence |].
    destruct Hp' as [->|[? _]]; [done | congruence].
  - intros k n' Hn' Hk.
    destruct (place_lookup_origin _ _ _ _ _ _ _ Hplace Hn') as [[n Hn]|[-> Hnone]].
    + destruct (place_step_old _ _ _ _ _ _ _ Hplace Hn)
        as (n2 & Hn2 & _ & _ & Hd' & _ & Hp' & _).
      assert (n2 = n') as -> by congruence.
      destruct (Hothers _ _ Hn Hk) as [? Hnn]. split; [lia|].
      destruct Hp' as [->|(_ & q & _ & _ & ->)]; [done|].
      by destruct (parents n).
    + destruct (place_step_new _ _ _ _ _ Hok Hplace Hnone)
        as (n2 & Hn2 & _ & _ & Hd' & _ & Hp' & _).
      assert (n2 = n') as -> by congruence.
      rewrite Hpar in Hp'. split; [lia | by rewrite Hp'].
  - intros i Hi.
    destruct (place_spec st d key v) as (self' & E & _).
    rewrite E in Hplace. injection Hplace as <-. cbn [fst snd].
    unfold chain_after. destruct (Nat.eqb_spec d 0); [lia|].
    destruct (decide (i = d)) as [->|Hid].
    + exists key. apply map_lookup_filter_Some. split; [|cbn [fst]; lia].
      apply lookup_insert_eq.
    + destruct (Hchain i) as [q Hq]; [lia|].
      exists q. apply map_lookup_filter_Some. split; [|cbn [fst]; lia].
      by rewrite lookup_insert_ne.
Qed.

Lemma rooted_all root dlast (st st' : parse_state) ss :
  rooted root dlast st ->
  well_nested dlast ss = true ->
  (forall s, s ∈ ss -> s.1.2 ≠ root /\ is_ga s.1.2) ->
  place_all st ss = Ok st' ->
  exists dlast', rooted root dlast' st'.
Proof.
  unfold place_all. revert dlast st.
  induction ss as [|s ss IH]; intros dlast st Hr Hw Hs; simpl.
  - intros [= <-]. eauto.
  - destruct (place_total st s.1.1 s.1.2 s.2) as [st1 E]. rewrite E. simpl.
    cbn [well_nested] in Hw.
    apply andb_true_iff in Hw as [Hw Hw3].
    apply andb_true_iff in Hw as [Hw1%Nat.leb_le Hw2%Nat.leb_le].
    destruct (Hs s) as [? ?]; [by left|].
    apply (IH s.1.1 st1); [|done|].
    + by eapply rooted_step.
    + intros s' Hs'. apply Hs. by right.
Qed.

(** ** The summary and the root *)

Lemma dict_set_fresh {V} k (v : V) (d : dict V) :
  dict_get k d = None -> dict_set k v d = d ++ [(k, v)].
Proof.
  induction d as [|[k' v'] d IH]; simpl; [done|].
  destruct (str_eqb k k'); [done|]. intros H. by rewrite IH.
Qed.

Lemma fold_dict_set_fresh {V W} (f : V -> W) (l : dict V) (acc : dict W) :
  NoDup (dict_keys acc ++ dict_keys l) ->
  fold_left (fun acc kv => dict_set kv.1 (f kv.2) acc) l acc
  = acc ++ map (fun kv : str * V => (kv.1, f kv.2)) l.
Proof.
  revert acc. induction l as [|[k v] l IH]; intros acc Hnd; simpl.
  - by rewrite app_nil_r.
  - rewrite dict_set_fresh.
    + rewrite IH; [by rewrite <- app_assoc|].
      unfold dict_keys in *. rewrite map_app. simpl.
      by rewrite <- app_assoc.
    + apply NoDup_app in Hnd as (_ & Hdis & _).
      destruct (dict_get k acc) eqn:E; [|done]. exfalso.
      apply (Hdis k); [apply dict_get_keys; eauto | by left].
Qed.

Lemma filter_keys_NoDup {V} (p : str * V -> bool) (d : dict V) :
  NoDup (dict_keys d) -> NoDup (dict_keys (List.filter p d)).
Proof.
  induction d as [|[k v] d IH]; simpl; [done|].
  intros [Hk Hd]%NoDup_cons. destruct (p (k, v)); simpl; [|by apply IH].
  apply NoDup_cons. split; [|by apply IH].
  intros Hin. apply Hk. unfold dict_keys in *.
  apply list_elem_of_fmap in Hin as ([k' v'] & -> & Hin).
  apply list_elem_of_In, filter_In in Hin as [Hin _].
  apply list_elem_of_fmap. exists (k', v'). by rewrite list_elem_of_In.
Qed.

Lemma to_dict_where_nodup keep d :
  NoDup (dict_keys d) ->
  to_dict_where keep d
  = map (fun kv : str * DependencyNode => (kv.1, to_dict kv.2))
      (List.filter (fun kv => keep kv.2) d).
Proof.
  intros H. unfold to_dict_where. rewrite fold_dict_set_fresh; [done|].
  by apply filter_keys_NoDup.
Qed.

Lemma to_dict_where_get keep d k n :
  NoDup (dict_keys d) -> dict_get k d = Some n -> keep n = true ->
  dict_get k (to_dict_where keep d) = Some (to_dict n).
Proof.
  intros Hnd Hk Hkeep. rewrite to_dict_where_nodup by done.
  rewrite dict_get_map_values.
  rewrite (dict_elem_get k n); [done | by apply filter_keys_NoDup |].
  apply list_elem_of_In, filter_In. split; [|done].
  by apply list_elem_of_In, dict_get_elem.
Qed.

Lemma direct_count_by_depth (l : dict DependencyNode) :
  (forall kv, kv ∈ l -> is_direct kv.2 = (depth kv.2 <=? 1)) ->
  length (List.filter (fun kv => is_direct kv.2) l)
  = length (List.filter (fun kv : str * DependencyNode => depth kv.2 =? 1) l)
    + length (List.filter (fun kv : str * DependencyNode => depth kv.2 =? 0) l).
Proof.
  induction l as [|[k n] l IH]; intros H; simpl; [done|].
  assert (is_direct n = (depth n <=? 1)) as -> by (apply (H (k, n)); by left).
  assert (forall kv, kv ∈ l -> is_direct kv.2 = (depth kv.2 <=? 1)) as H'
    by (intros kv ?; apply H; by right).
  specialize (IH H').
  destruct (depth n) as [|[|m]]; simpl; lia.
Qed.

Lemma single_key_length {V} (l : dict V) r :
  NoDup (dict_keys l) -> (forall kv, kv ∈ l -> kv.1 = r) -> length l <= 1.
Proof.
  destruct l as [|[k v] [|[k' v'] l]]; simpl; [lia | lia |].
  intros [Hk _]%NoDup_cons Hall. exfalso. apply Hk.
  assert (k = r) as -> by (apply (Hall (k, v)); by left).
  assert (k' = r) as -> by (apply (Hall (k', v')); right; by left).
  by left.
Qed.

Lemma place_step_created (st st' : parse_state) d key v :
  place st d key v = Ok st' ->
  dict_get key (nodes st.1) = None ->
  exists n,
    dict_get key (nodes st'.1) = Some n
    /\ version n = v /\ depth n = d /\ is_direct n = (d <=? 1).
Proof.
  intros Hplace Hnone.
  destruct (place_spec st d key v) as (self' & E & _ & _ & Hg).
  rewrite E in Hplace. injection Hplace as <-. cbn [fst snd].
  rewrite Hnone in Hg. cbn [default] in Hg.
  eexists. split.
  { rewrite Hg, bool_decide_eq_true_2 by done. reflexivity. }
  destruct (node_after_spec key (parent_of st.2 d)
              (adds_edge (parent_of st.2 d) (fresh_node key v d (d <=? 1)))
              key (fresh_node key v d (d <=? 1)))
    as (_ & -> & -> & -> & _). done.
Qed.

(** Every node carries the depth and version of a sighting of its key. *)
Lemma place_all_origin ss (st : parse_state) k n :
  place_all (new_graph, ∅) ss = Ok st ->
  dict_get k (nodes st.1) = Some n ->
  (depth n, k, version n) ∈ ss.
Proof.
  revert st k n. induction ss as [|[[d key] v] ss IH] using rev_ind;
    intros st' k n'.
  - by intros [= <-].
  - rewrite place_all_snoc. destruct (place_all_total (new_graph, ∅) ss) as [st E].
    rewrite E, bind_Ok. cbn [fst snd]. intros Hplace Hn'.
    apply elem_of_app.
    destruct (place_lookup_origin _ _ _ _ _ _ _ Hplace Hn') as [[n Hn]|[-> Hnone]].
    + left. destruct (place_step_old _ _ _ _ _ _ _ Hplace Hn)
        as (n2 & Hn2 & _ & Hv & Hd & _).
      assert (n2 = n') as -> by congruence. rewrite Hv, Hd. by eapply IH.
    + right. destruct (place_step_created _ _ _ _ _ Hplace Hnone)
        as (n2 & Hn2 & Hv & Hd & _).
      assert (n2 = n') as -> by congruence. rewrite Hv, Hd. by left.
Qed.

Lemma get_llm_summary_nonempty g :
  nodes g ≠ [] ->
  exists s,
    get_llm_summary g = Ok (Summary s)
    /\ direct_dependencies s = to_dict_where is_direct (nodes g)
    /\ direct_count s = length (to_dict_where is_direct (nodes g)).
Proof.
  intros Hne. unfold get_llm_summary.
  destruct (nodes g) as [|[k n] ns] eqn:E; [done|].
  cbn [dict_values map]. rewrite py_max_cons, bind_Ok.
  eexists. split; [reflexivity|]. done.
Qed.

(** ** The model on the examples of the source *)

Example parse_version_plain :
  parse_version (py "10.1.42") = (10%N, 1%N, 42%N, []).
Proof. vm_compute. reflexivity. Qed.

Example parse_version_snapshot :
  parse_version (py "2.19.1-SNAPSHOT") = (2%N, 19%N, 1%N, py "SNAPSHOT").
Proof. vm_compute. reflexivity. Qed.

Example parse_version_final :
  parse_version (py "4.1.122.Final") = (4%N, 1%N, 122%N, py "Final").
Proof. vm_compute. reflexivity. Qed.

Example _calculate_depth_docstring :
  map _calculate_depth
    [py "com.random-x:app:1.0";
     py "├── spring-boot:3.5.3";
     py "│   ├── tomcat:10.1.42";
     py "│   │   ├── servlet-api:6.0";
     py "│   │   └── websocket:10.1.42"]
  = [0; 1; 2; 3; 3].
Proof. vm_compute. reflexivity. Qed.

Example _extract_ga_version_docstring :
  _extract_ga_version
    (py "├── org.springframework.boot:spring-boot-starter-tomcat:3.5.3")
  = Ok (Some (py "org.springframework.boot:spring-boot-starter-tomcat",
              py "3.5.3"))
  /\ _extract_ga_version
       (py "com.random-x:part-finder-service-api:1.2.39-SNAPSHOT")
     = Ok (Some (py "com.random-x:part-finder-service-api",
                 py "1.2.39-SNAPSHOT")).
Proof. split; vm_compute; reflexivity. Qed.

Example _extract_ga_version_packaging_and_note :
  _extract_ga_version (py "│   └── org.x:lib:jar:1.0 (conflict resolved)")
  = Ok (Some (py "org.x:lib", py "1.0"))
  /\ _extract_ga_version (py "│") = Ok None
  /\ _extract_ga_version (py "├── not-a-coordinate") = Ok None.
Proof. split_and!; vm_compute; reflexivity. Qed.

Example is_same_major_minor_docstring :
  is_same_major_minor (py "10.1.42") (py "10.1.45") = true
  /\ is_same_major_minor (py "10.1.42") (py "10.2.0") = false
  /\ is_same_major_minor (py "2.9.0") (py "2.15.0") = false.
Proof. split_and!; vm_compute; reflexivity. Qed.

(** Two doubles: 2/3 and the literal 1.2. *)
Example binary64_values :
  binary64 (2 # 3) = (6004799503160661 # 9007199254740992)%Q
  /\ binary64 (12 # 10) = (5404319552844595 # 4503599627370496)%Q.
Proof. split; vm_compute; reflexivity. Qed.

(** The summary of the sample tree: five nodes, of which the root and the
    three at depth 1 are direct. *)
Example test_graph_summary :
  exists s,
    get_llm_summary test_graph = Ok (Summary s)
    /\ project s = Some (py "com.random-x:part-finder-service-api")
    /\ total_dependencies s = 5 /\ direct_count s = 4
    /\ transitive_count s = 1 /\ max_depth s = 2.
Proof.
  eexists. split; [vm_compute; reflexivity|]. split_and!; vm_compute; reflexivity.
Qed.

(* ================================================================== *)
(** * The claims of the specification                                  *)
(* ================================================================== *)

(** C1. In every parsed graph, for a key that is present, not direct and
    has a recorded parent, [get_upgrade_strategy] decides on the first
    recorded parent alone. When the caller supplied a non-empty list of
    versions for that parent it returns PARENT_UPGRADE at risk LOW, aimed
    at that parent and the first supplied version. Otherwise, for versions
    whose runs of digits [int()] accepts, it returns BOM_OVERRIDE when the
    key is in the override-property table (LOW when the parsed major and
    minor components agree, else MEDIUM); else FORCE_OVERRIDE at MEDIUM
    when major and minor agree, FORCE_OVERRIDE at HIGH when only the major
    components agree, and CANNOT_UPGRADE at CRITICAL when the major
    components differ. In the sample tree tomcat-embed-core sits at depth
    2 under spring-boot-starter-tomcat, and 10.1.42 to 10.1.45 without
    alternatives yields BOM_OVERRIDE at LOW; the other answers are
    computed on the sample tree and on a tree with a node that is not in
    the table. *)
Theorem transitive_upgrade_cascade :
  (forall tree_text : str,
      exists g,
        parse_dependency_tree tree_text = Ok g
        /\ forall (key : str) (node : DependencyNode) (p : str) (ps : list str)
                  (cur tgt : str) (apv : option (dict (list str))),
            dict_get key (nodes g) = Some node ->
            is_direct node = false ->
            parents node = p :: ps ->
            let p1 := parse_version cur in
            let p2 := parse_version tgt in
            match apv ≫= dict_get p with
            | Some (latest :: _) =>
                exists r,
                  get_upgrade_strategy g key cur tgt apv = Ok r
                  /\ strategy r = PARENT_UPGRADE /\ risk_level r = py "LOW"
                  /\ upgrade_target_ga r = p
                  /\ upgrade_target_version r = latest
                  /\ parent_to_upgrade r = Some p
            | _ =>
                readable cur = true -> readable tgt = true ->
                exists r,
                  get_upgrade_strategy g key cur tgt apv = Ok r
                  /\ match dict_get key SPRING_BOOT_BOM_PROPERTIES with
                     | Some _ =>
                         strategy r = BOM_OVERRIDE
                         /\ (major_of p1 = major_of p2 ->
                             minor_of p1 = minor_of p2 ->
                             risk_level r = py "LOW")
                         /\ (major_of p1 ≠ major_of p2
                             \/ minor_of p1 ≠ minor_of p2 ->
                             risk_level r = py "MEDIUM")
                     | None =>
                         (major_of p1 = major_of p2 ->
                          minor_of p1 = minor_of p2 ->
                          strategy r = FORCE_OVERRIDE
                          /\ risk_level r = py "MEDIUM")
                         /\ (major_of p1 = major_of p2 ->
                             minor_of p1 ≠ minor_of p2 ->
                             strategy r = FORCE_OVERRIDE
                             /\ risk_level r = py "HIGH")
                         /\ (major_of p1 ≠ major_of p2 ->
                             strategy r = CANNOT_UPGRADE
                             /\ risk_level r = py "CRITICAL")
                     end
            end)
  /\ (exists node,
         parse_dependency_tree TEST_TREE = Ok test_graph
         /\ dict_get (py "org.apache.tomcat.embed:tomcat-embed-core")
              (nodes test_graph) = Some node
         /\ depth node = 2 /\ is_direct node = false
         /\ parents node = [py "org.springframework.boot:spring-boot-starter-tomcat"]
         /\ (exists r,
               get_upgrade_strategy test_graph
                 (py "org.apache.tomcat.embed:tomcat-embed-core")
                 (py "10.1.42") (py "10.1.45") None = Ok r
               /\ strategy r = BOM_OVERRIDE /\ risk_level r = py "LOW")
         /\ (exists r,
               get_upgrade_strategy test_graph
                 (py "org.apache.tomcat.embed:tomcat-embed-core")
                 (py "10.1.42") (py "10.2.0") None = Ok r
               /\ strategy r = BOM_OVERRIDE /\ risk_level r = py "MEDIUM")
         /\ (exists r,
               get_upgrade_strategy test_graph
                 (py "org.apache.tomcat.embed:tomcat-embed-core")
                 (py "10.1.42") (py "10.1.45")
                 (Some [(py "org.springframework.boot:spring-boot-starter-tomcat",
                         [py "3.5.4"; py "3.5.5"])]) = Ok r
               /\ strategy r = PARENT_UPGRADE /\ risk_level r = py "LOW"
               /\ upgrade_target_ga r
                  = py "org.springframework.boot:spring-boot-starter-tomcat"
               /\ upgrade_target_version r = py "3.5.4"))
  /\ (exists g node,
         parse_dependency_tree SHARED_TREE = Ok g
         /\ dict_get (py "b:util") (nodes g) = Some node
         /\ is_direct node = false
         /\ parents node = [py "a:lib"; py "com.x:app"]
         /\ (exists r,
               get_upgrade_strategy g (py "b:util") (py "2.9.0") (py "2.9.5")
                 None = Ok r
               /\ strategy r = FORCE_OVERRIDE /\ risk_level r = py "MEDIUM")
         /\ (exists r,
               get_upgrade_strategy g (py "b:util") (py "2.9.0") (py "2.15.0")
                 None = Ok r
               /\ strategy r = FORCE_OVERRIDE /\ risk_level r = py "HIGH")
         /\ (exists r,
               get_upgrade_strategy g (py "b:util") (py "2.9.0") (py "3.0.0")
                 None = Ok r
               /\ strategy r = CANNOT_UPGRADE /\ risk_level r = py "CRITICAL")
         /\ (exists r,
               get_upgrade_strategy g (py "b:util") (py "2.9.0") (py "3.0.0")
                 (Some [(py "com.x:app", [py "1.1"]); (py "a:lib", [py "1.5"])])
               = Ok r
               /\ strategy r = PARENT_UPGRADE /\ risk_level r = py "LOW"
               /\ upgrade_target_ga r = py "a:lib"
               /\ upgrade_target_version r = py "1.5")).
Proof.
  split_and!.
  - intros text.
    destruct (parse_tree_text_spec new_graph text) as (st & _ & E).
    eexists. split; [exact E|]. intros key node p ps cur tgt apv Hkey Hdir Hpar.
    destruct (transitive_cascade_ok _ key node p ps cur tgt apv
                (parse_dependency_tree_ok _ _ E) Hkey Hdir Hpar) as (r & Hr & Hc).
    unfold cascade_outcome, supplied_versions, is_same_major_minor,
      is_same_major, dict_in in Hc.
    cbv zeta in *.
    assert (forall P : Prop, P -> readable cur = true -> readable tgt = true -> P)
      as Hany by auto.
    destruct (apv ≫= dict_get p) as [[|latest rest]|]; [apply Hany| |apply Hany].
    2:{ exists r. split; [exact Hr|]. exact Hc. }
    all: exists r; split; [exact Hr|];
      destruct (dict_get key SPRING_BOOT_BOM_PROPERTIES);
      destruct (N.eqb_spec (major_of (parse_version cur))
                  (major_of (parse_version tgt)));
      destruct (N.eqb_spec (minor_of (parse_version cur))
                  (minor_of (parse_version tgt)));
      cbn [andb] in Hc; destruct Hc as [? ?]; split_and!; try done;
      intros; try done; tauto.
  - exists (default (fresh_node [] [] 0 false)
              (dict_get (py "org.apache.tomcat.embed:tomcat-embed-core")
                 (nodes test_graph))).
    split; [exact test_graph_parsed|].
    split; [vm_compute; reflexivity|].
    split; [vm_compute; reflexivity|]. split; [vm_compute; reflexivity|].
    split; [vm_compute; reflexivity|].
    split_and!; eexists; (split; [vm_compute; reflexivity|]);
      split_and!; vm_compute; reflexivity.
  - eexists _, _. split; [vm_compute; reflexivity|].
    split; [vm_compute; reflexivity|].
    split; [vm_compute; reflexivity|]. split; [vm_compute; reflexivity|].
    split_and!; eexists; (split; [vm_compute; reflexivity|]);
      split_and!; vm_compute; reflexivity.
Qed.

(** C2. For a component key (group:artifact, exactly one ':') and versions
    whose runs of digits [int()] accepts, [get_upgrade_strategy] returns a
    DIRECT_UPGRADE recommendation for the key and the target version when
    the key is not in the graph, when its node is direct, and when its node
    has no recorded parent; the risk is LOW for a patch jump, MEDIUM for a
    minor one and HIGH for a major one, that is, LOW when the parsed major
    and minor components agree, MEDIUM when only the major components
    agree, and HIGH when the major components differ. *)
Theorem direct_upgrade_fallback (graph : DependencyGraph) (key cur tgt : str)
  (apv : option (dict (list str))) :
  is_ga key ->
  readable cur = true ->
  readable tgt = true ->
  (dict_get key (nodes graph) = None
   \/ exists n, dict_get key (nodes graph) = Some n
                /\ (is_direct n = true \/ parents n = [])) ->
  let p1 := parse_version cur in
  let p2 := parse_version tgt in
  exists r,
    get_upgrade_strategy graph key cur tgt apv = Ok r
    /\ strategy r = DIRECT_UPGRADE
    /\ upgrade_target_ga r = key
    /\ upgrade_target_version r = tgt
    /\ (version_jump_type cur tgt = py "patch" -> risk_level r = py "LOW")
    /\ (version_jump_type cur tgt = py "minor" -> risk_level r = py "MEDIUM")
    /\ (version_jump_type cur tgt = py "major" -> risk_level r = py "HIGH")
    /\ (major_of p1 = major_of p2 -> minor_of p1 = minor_of p2 ->
        risk_level r = py "LOW")
    /\ (major_of p1 = major_of p2 -> minor_of p1 ≠ minor_of p2 ->
        risk_level r = py "MEDIUM")
    /\ (major_of p1 ≠ major_of p2 -> risk_level r = py "HIGH").
Proof.
  intros Hga _ _ Hcase p1 p2.
  destruct (_create_direct_upgrade_ok key cur tgt Hga) as (r & E & ? & ? & ? & Hr).
  destruct (direct_risk_spec cur tgt) as (? & ? & ?).
  exists r. rewrite Hr. split_and!; try done.
  - unfold get_upgrade_strategy.
    pose proof (get_dependency_info_get graph key) as Hinfo.
    destruct Hcase as [Hnone|(n & Hn & Hcase)].
    + rewrite Hnone in Hinfo. by rewrite Hinfo, bind_Ok.
    + rewrite Hn in Hinfo. destruct Hinfo as (info & -> & _ & _ & _ & Hd & Hp & _).
      rewrite bind_Ok, Hd. destruct (is_direct n) eqn:Edir; [done|].
      destruct Hcase as [?|Hnil]; [done|].
      unfold _analyze_transitive_upgrade. by rewrite Hp, Hnil.
  - intros E1 E2. unfold direct_risk, version_jump_type. fold p1 p2.
    apply N.eqb_eq in E1, E2. by rewrite E1, E2.
  - intros E1 E2. unfold direct_risk, version_jump_type. fold p1 p2.
    apply N.eqb_eq in E1. apply N.eqb_neq in E2. by rewrite E1, E2.
  - intros E1. unfold direct_risk, version_jump_type. fold p1 p2.
    apply N.eqb_neq in E1. by rewrite E1.
Qed.

Lemma direct_upgrade_fallback_witness :
  let key := py "com.fasterxml.jackson.core:jackson-databind" in
  let cur := py "2.19.1" in
  let tgt := py "2.19.5" in
  is_ga key
  /\ readable cur = true
  /\ readable tgt = true
  /\ (dict_get key (nodes test_graph) = None
      \/ exists n,
          dict_get key (nodes test_graph) = Some n
          /\ (is_direct n = true \/ parents n = []))
  /\ exists r,
      get_upgrade_strategy test_graph key cur tgt None = Ok r
      /\ strategy r = DIRECT_UPGRADE
      /\ upgrade_target_ga r = key
      /\ upgrade_target_version r = tgt
      /\ (version_jump_type cur tgt = py "patch" -> risk_level r = py "LOW")
      /\ (version_jump_type cur tgt = py "minor" -> risk_level r = py "MEDIUM")
      /\ (version_jump_type cur tgt = py "major" -> risk_level r = py "HIGH")
      /\ (major_of (parse_version cur) = major_of (parse_version tgt) ->
          minor_of (parse_version cur) = minor_of (parse_version tgt) ->
          risk_level r = py "LOW")
      /\ (major_of (parse_version cur) = major_of (parse_version tgt) ->
          minor_of (parse_version cur) ≠ minor_of (parse_version tgt) ->
          risk_level r = py "MEDIUM")
      /\ (major_of (parse_version cur) ≠ major_of (parse_version tgt) ->
          risk_level r = py "HIGH").
Proof.
  intros key cur tgt.
  assert (is_ga key) as Hga.
  { eexists _, _. vm_compute. reflexivity. }
  assert (readable cur = true) as Hcur by (vm_compute; reflexivity).
  assert (readable tgt = true) as Htgt by (vm_compute; reflexivity).
  assert (dict_get key (nodes test_graph) = None
          \/ exists n,
              dict_get key (nodes test_graph) = Some n
              /\ (is_direct n = true \/ parents n = [])) as Hcase.
  { right. vm_compute. eexists. split; [reflexivity|]. left. reflexivity. }
  split; [exact Hga|]. split; [exact Hcur|]. split; [exact Htgt|].
  split; [exact Hcase|].
  exact (direct_upgrade_fallback test_graph key cur tgt None Hga Hcur Htgt Hcase).
Defined.

(** The three fallbacks and the three risks, on the sample tree. *)
Example direct_upgrade_cases :
  (exists r,
      dict_get (py "org.example:absent") (nodes test_graph) = None
      /\ get_upgrade_strategy test_graph (py "org.example:absent")
           (py "10.1.42") (py "10.2.0") None = Ok r
      /\ strategy r = DIRECT_UPGRADE /\ risk_level r = py "MEDIUM")
  /\ (exists r,
         get_upgrade_strategy test_graph
           (py "org.apache.logging.log4j:log4j-core")
           (py "2.24.3") (py "3.0.0") None = Ok r
         /\ strategy r = DIRECT_UPGRADE /\ risk_level r = py "HIGH")
  /\ (exists g n r,
         parse_dependency_tree (py "r:root:1
│   ├── a:lib:2") = Ok g
         /\ dict_get (py "a:lib") (nodes g) = Some n
         /\ is_direct n = false /\ parents n = []
         /\ get_upgrade_strategy g (py "a:lib") (py "2") (py "2.0.1") None = Ok r
         /\ strategy r = DIRECT_UPGRADE /\ risk_level r = py "LOW").
Proof.
  split_and!.
  - eexists. split; [vm_compute; reflexivity|].
    split; [vm_compute; reflexivity|]. split; vm_compute; reflexivity.
  - eexists. split; [vm_compute; reflexivity|]. split; vm_compute; reflexivity.
  - eexists _, _, _. split; [vm_compute; reflexivity|].
    split; [vm_compute; reflexivity|].
    split; [vm_compute; reflexivity|]. split; [vm_compute; reflexivity|].
    split; [vm_compute; reflexivity|]. split; vm_compute; reflexivity.
Qed.

(** A string without a colon is no component key; for such a key that is
    not in the graph the unpacking of the split key in
    [_create_direct_upgrade], whose two names are not used, raises. *)
Remark direct_upgrade_raises_on_plain_key :
  dict_get (py "log4j-core") (nodes test_graph) = None
  /\ get_upgrade_strategy test_graph (py "log4j-core") (py "2.24.3")
       (py "2.24.5") None = Raise ValueError.
Proof. by vm_compute. Qed.

(** C3, as the code has it. At the first sighting of a key its node is
    created with that sighting's depth and version and with is_direct true
    exactly at depth 0 (a root line) or depth 1, its parents being the
    chain's parent alone. Every sighting leaves depth, version and
    is_direct of every node that exists as they are; it appends the
    chain's parent to the parents of the sighted node exactly when it is
    not among them, and the sighted key to the children of that parent
    exactly when it is not among them, and changes no other list. So after
    every sighting with a parent in the chain, a later one of the same key
    included, the edge is recorded at both ends. The three attributes then
    stay the same to the end of the parse, and no list of parents or
    children of the final graph has a duplicate. *)
Theorem first_sighting_fixes_node (tree_text : str) (before after : list str)
  (line : str) (d : nat) (key v : str) :
  lines_of tree_text = before ++ line :: after ->
  sighting line = Some (d, key, v) ->
  exists (st st' : parse_state) (g : DependencyGraph),
    for_each parse_line (new_graph, ∅) before = Ok st
    /\ parse_line st line = Ok st'
    /\ parse_dependency_tree tree_text = Ok g
    /\ (dict_get key (nodes st.1) = None ->
        exists n,
          dict_get key (nodes st'.1) = Some n
          /\ depth n = d /\ version n = v /\ is_direct n = (d <=? 1)
          /\ parents n = match parent_of st.2 d with
                         | Some p => [p]
                         | None => []
                         end
          /\ children n = [])
    /\ (forall k n,
           dict_get k (nodes st.1) = Some n ->
           exists n',
             dict_get k (nodes st'.1) = Some n'
             /\ depth n' = depth n /\ version n' = version n
             /\ is_direct n' = is_direct n
             /\ parents n'
                = match parent_of st.2 d with
                  | Some p =>
                      if bool_decide (k = key)
                         && negb (bool_decide (p ∈ parents n))
                      then parents n ++ [p] else parents n
                  | None => parents n
                  end
             /\ children n'
                = match parent_of st.2 d with
                  | Some p =>
                      if bool_decide (k = p)
                         && negb (bool_decide (key ∈ children n))
                      then children n ++ [key] else children n
                  | None => children n
                  end)
    /\ (forall p,
           parent_of st.2 d = Some p ->
           exists n' pn',
             dict_get key (nodes st'.1) = Some n'
             /\ dict_get p (nodes st'.1) = Some pn'
             /\ p ∈ parents n' /\ key ∈ children pn')
    /\ (forall k n',
           dict_get k (nodes st'.1) = Some n' ->
           exists m,
             dict_get k (nodes g) = Some m
             /\ depth m = depth n' /\ version m = version n'
             /\ is_direct m = is_direct n')
    /\ (forall k m,
           dict_get k (nodes g) = Some m ->
           NoDup (parents m) /\ NoDup (children m)).
Proof.
  intros Hlines Hsight.
  destruct (parse_tree_text_spec new_graph tree_text) as (st_end & E & Hparse).
  rewrite Hlines, sightings_app in E.
  change (sightings (line :: after))
    with (from_option (fun s => s :: sightings after) (sightings after)
            (sighting line)) in E.
  rewrite Hsight in E. cbn [from_option] in E.
  apply place_all_split in E as (st & st' & E1 & E2 & E3). cbn [fst snd] in E2.
  assert (forall s, s ∈ sightings before -> is_ga s.1.2) as Hga.
  { intros [[d' k'] v'] H. by eapply sightings_is_ga. }
  assert (state_ok st) as Hok.
  { eapply place_all_ok; [exact Hga|apply new_graph_ok|exact E1]. }
  assert (mirrored st.1) as Hmir.
  { eapply place_all_mirrored;
      [exact Hga|apply new_graph_ok|apply new_graph_mirrored|exact E1]. }
  exists st, st', (scored_graph st_end.1). split_and!.
  - by rewrite for_each_parse_line.
  - by rewrite parse_line_sighting, Hsight.
  - exact Hparse.
  - intros Hnone.
    destruct (place_step_new _ _ _ _ _ Hok E2 Hnone)
      as (n & ? & ? & ? & ? & ? & ? & ?). by exists n.
  - intros k n Hn. exact (place_step_exact _ _ _ _ _ _ _ Hok Hmir E2 Hn).
  - intros p Hp.
    destruct (parent_of_chain_ok _ _ _ _ (proj2 Hok) Hp) as [pn Hpn].
    destruct (place_step_exact _ _ _ _ _ _ _ Hok Hmir E2 Hpn)
      as (pn' & Hpn' & _ & _ & _ & _ & Hch).
    rewrite Hp, bool_decide_eq_true_2 in Hch by done. cbn [andb] in Hch.
    assert (key ∈ children pn') as Hkey.
    { rewrite Hch. case_bool_decide as Hin; cbn [negb]; [done|].
      apply elem_of_app. right. by apply list_elem_of_singleton. }
    destruct (dict_get key (nodes st.1)) as [n|] eqn:En.
    + destruct (place_step_exact _ _ _ _ _ _ _ Hok Hmir E2 En)
        as (n' & Hn' & _ & _ & _ & Hpar & _).
      rewrite Hp, bool_decide_eq_true_2 in Hpar by done. cbn [andb] in Hpar.
      exists n', pn'. split_and!; try done.
      rewrite Hpar. case_bool_decide as Hin; cbn [negb]; [done|].
      apply elem_of_app. right. by apply list_elem_of_singleton.
    + destruct (place_step_new _ _ _ _ _ Hok E2 En)
        as (n' & Hn' & _ & _ & _ & _ & Hpar & _).
      rewrite Hp in Hpar. exists n', pn'. split_and!; try done.
      rewrite Hpar. by apply list_elem_of_singleton.
  - intros k n' Hn'.
    destruct (place_all_keeps _ _ _ _ _ E3 Hn') as (m & Hm & _ & ? & ? & ?).
    eexists. split; [by rewrite scored_graph_get, Hm|]. done.
  - intros k m Hm.
    destruct (parse_dependency_tree_ok _ _ Hparse) as [_ Hnode].
    destruct (Hnode _ _ Hm) as (_ & _ & ? & ? & _). done.
Qed.

Lemma first_sighting_fixes_node_witness :
  let tree_text := SHARED_TREE in
  let before :=
    [py "com.x:app:1.0"; py "├── a:lib:1"; py "│   └── b:util:2"] in
  let line := py "└── b:util:3" in
  let after : list str := [] in
  let d := 1 in
  let key := py "b:util" in
  let v := py "3" in
  lines_of tree_text = before ++ line :: after
  /\ sighting line = Some (d, key, v)
  /\
  exists (st st' : parse_state) (g : DependencyGraph),
    for_each parse_line (new_graph, ∅) before = Ok st
    /\ parse_line st line = Ok st'
    /\ parse_dependency_tree tree_text = Ok g
    /\ (dict_get key (nodes st.1) = None ->
        exists n,
          dict_get key (nodes st'.1) = Some n
          /\ depth n = d /\ version n = v /\ is_direct n = (d <=? 1)
          /\ parents n = match parent_of st.2 d with
                         | Some p => [p]
                         | None => []
                         end
          /\ children n = [])
    /\ (forall k n,
           dict_get k (nodes st.1) = Some n ->
           exists n',
             dict_get k (nodes st'.1) = Some n'
             /\ depth n' = depth n /\ version n' = version n
             /\ is_direct n' = is_direct n
             /\ parents n'
                = match parent_of st.2 d with
                  | Some p =>
                      if bool_decide (k = key)
                         && negb (bool_decide (p ∈ parents n))
                      then parents n ++ [p] else parents n
                  | None => parents n
                  end
             /\ children n'
                = match parent_of st.2 d with
                  | Some p =>
                      if bool_decide (k = p)
                         && negb (bool_decide (key ∈ children n))
                      then children n ++ [key] else children n
                  | None => children n
                  end)
    /\ (forall p,
           parent_of st.2 d = Some p ->
           exists n' pn',
             dict_get key (nodes st'.1) = Some n'
             /\ dict_get p (nodes st'.1) = Some pn'
             /\ p ∈ parents n' /\ key ∈ children pn')
    /\ (forall k n',
           dict_get k (nodes st'.1) = Some n' ->
           exists m,
             dict_get k (nodes g) = Some m
             /\ depth m = depth n' /\ version m = version n'
             /\ is_direct m = is_direct n')
    /\ (forall k m,
           dict_get k (nodes g) = Some m ->
           NoDup (parents m) /\ NoDup (children m)).
Proof.
  intros tree_text before line after d key v.
  assert (lines_of tree_text = before ++ line :: after) as H1
    by (vm_compute; reflexivity).
  assert (sighting line = Some (d, key, v)) as H2
    by (vm_compute; reflexivity).
  split; [exact H1|]. split; [exact H2|].
  exact (first_sighting_fixes_node tree_text before after line d key v H1 H2).
Defined.

(** The tree in which [b:util] is sighted at depth 2 under [a:lib] and
    again, with another version, at depth 1 under the root: the node keeps
    the depth, the version and the directness of its first sighting, and
    the second sighting records the root as a second parent and the key as
    a second child of the root. *)
Example later_sighting_adds_the_edge :
  exists g root lib util,
    parse_dependency_tree SHARED_TREE = Ok g
    /\ dict_get (py "com.x:app") (nodes g) = Some root
    /\ dict_get (py "a:lib") (nodes g) = Some lib
    /\ dict_get (py "b:util") (nodes g) = Some util
    /\ (depth util, version util, is_direct util) = (2, py "2", false)
    /\ parents util = [py "a:lib"; py "com.x:app"]
    /\ children lib = [py "b:util"]
    /\ children root = [py "a:lib"; py "b:util"].
Proof.
  eexists _, _, _, _. split; [vm_compute; reflexivity|].
  split; [vm_compute; reflexivity|]. split; [vm_compute; reflexivity|].
  split; [vm_compute; reflexivity|]. split_and!; vm_compute; reflexivity.
Qed.

(** C3 as stated fails at the root: its node is created at depth 0 with
    is_direct true, which is not [depth == 1]. *)
Lemma root_is_direct_at_depth_0 :
  exists n,
    parse_dependency_tree TEST_TREE = Ok test_graph
    /\ dict_get (py "com.random-x:part-finder-service-api") (nodes test_graph)
       = Some n
    /\ depth n = 0 /\ is_direct n = true /\ (depth n =? 1) = false.
Proof.
  eexists. split; [exact test_graph_parsed|].
  split; [vm_compute; reflexivity|]. split_and!; reflexivity.
Qed.

(** Every line at depth 0 that yields a key sets both the recorded root
    project and the depth-0 entry of the ancestor chain to its key: after
    any lines, and so at the end of a parse, both are the key of the last
    such line. *)
Lemma root_is_last_depth0_line :
  (forall lines : list str,
      exists (self : DependencyGraph) (chain : gmap nat str),
        for_each parse_line (new_graph, ∅) lines = Ok (self, chain)
        /\ root_project self = last_root (sightings lines)
        /\ chain !! 0 = last_root (sightings lines))
  /\ (forall tree_text : str,
         exists g,
           parse_dependency_tree tree_text = Ok g
           /\ root_project g = last_root (sightings (lines_of tree_text))).
Proof.
  split.
  - intros lines. rewrite for_each_parse_line.
    destruct (place_all_root (sightings lines)) as ([self chain] & ? & ? & ?).
    by exists self, chain.
  - intros text. unfold parse_dependency_tree.
    destruct (parse_tree_text_spec new_graph text) as (st & E & ->).
    destruct (place_all_root (sightings (lines_of text))) as (st' & E' & Hr & _).
    rewrite E in E'. injection E' as <-.
    eexists. split; [reflexivity|]. done.
Qed.

(** C4. The code does not keep the first root line as the root, against
    its own comment ("First line (depth 0) is the root project"): a second
    line without prefix characters replaces the recorded root project and
    the depth-0 entry of the chain, so that the depth-1 line after it is
    attached to the key of the second line. *)
Theorem second_root_line_replaces_root :
  exists g n,
    parse_dependency_tree (py "a:first:1
b:second:2
├── c:child:3") = Ok g
    /\ root_project g = Some (py "b:second")
    /\ dict_get (py "c:child") (nodes g) = Some n
    /\ parents n = [py "b:second"].
Proof. vm_compute. eexists _, _. split_and!; reflexivity. Qed.

(** C5, as the code has it. When the sightings of a text form a well-formed
    tree (the first is the root line at depth 0 and the only one at depth
    0, no line is more than one level deeper than the line before it, and
    the root's key does not appear again), the root of the parsed graph
    has depth 0 and no parent, and every other node has depth at least 1
    and at least one parent. *)
Theorem well_formed_tree_has_no_orphan (tree_text : str) :
  well_formed (sightings (lines_of tree_text)) = true ->
  exists g root rn,
    parse_dependency_tree tree_text = Ok g
    /\ root_project g = Some root
    /\ dict_get root (nodes g) = Some rn
    /\ depth rn = 0 /\ parents rn = []
    /\ forall k n,
        dict_get k (nodes g) = Some n -> k ≠ root ->
        1 <= depth n /\ parents n ≠ [].
Proof.
  intros Hwf.
  destruct (parse_tree_text_spec new_graph tree_text) as (st_end & E & Hparse).
  assert (forall s, s ∈ sightings (lines_of tree_text) -> is_ga s.1.2) as Hga.
  { intros [[d k] v] H. by eapply sightings_is_ga. }
  destruct (sightings (lines_of tree_text)) as [|[[d0 root] v0] ss]; [done|].
  cbn [well_formed fst snd] in Hwf.
  apply andb_true_iff in Hwf as [Hwf Hkeys].
  apply andb_true_iff in Hwf as [->%Nat.eqb_eq Hnest].
  destruct (rooted_first root v0) as (st1 & E1 & Hr1).
  { apply (Hga (0, root, v0)). by left. }
  unfold place_all in E. cbn [for_each fst snd] in E.
  rewrite E1, bind_Ok in E.
  destruct (rooted_all root 0 st1 st_end ss Hr1 Hnest) as [dl Hr]; [|exact E|].
  { intros s Hs. split; [|apply Hga; by right].
    rewrite forallb_forall in Hkeys. specialize (Hkeys s).
    rewrite <- list_elem_of_In in Hkeys. specialize (Hkeys Hs).
    apply negb_true_iff in Hkeys. intros Heq.
    by rewrite Heq, str_eqb_refl in Hkeys. }
  destruct Hr as (_ & Hroot & (rn & Hrn & Hrd & Hrp) & Hothers & _).
  exists (scored_graph st_end.1), root,
    (scored (Nat.max (graph_max_degree st_end.1) 1)
       (Nat.max (graph_max_depth st_end.1) 1) rn).
  split_and!; try done.
  - by rewrite scored_graph_get, Hrn.
  - intros k n'. rewrite scored_graph_get. intros (n & Hn & ->)%fmap_Some Hk.
    exact (Hothers k n Hn Hk).
Qed.

Lemma well_formed_tree_has_no_orphan_witness :
  well_formed (sightings (lines_of TEST_TREE)) = true
  /\ exists g root rn,
      parse_dependency_tree TEST_TREE = Ok g
      /\ root_project g = Some root
      /\ dict_get root (nodes g) = Some rn
      /\ depth rn = 0 /\ parents rn = []
      /\ forall k n,
          dict_get k (nodes g) = Some n -> k ≠ root ->
          1 <= depth n /\ parents n ≠ [].
Proof.
  assert (well_formed (sightings (lines_of TEST_TREE)) = true) as H
    by (vm_compute; reflexivity).
  split; [exact H|]. exact (well_formed_tree_has_no_orphan TEST_TREE H).
Defined.

(** C5 as stated fails: a line two levels below the root line finds no
    entry one level up in the chain, and its node stays without parent. *)
Lemma skipped_level_leaves_orphan :
  exists g n,
    parse_dependency_tree (py "r:root:1
│   ├── a:lib:2") = Ok g
    /\ root_project g = Some (py "r:root")
    /\ dict_get (py "a:lib") (nodes g) = Some n
    /\ depth n = 2 /\ parents n = [].
Proof. vm_compute. eexists _, _. split_and!; reflexivity. Qed.

(** C6. After a parse every node's centrality is the number of its parents
    plus the number of its children, divided by the greatest such number
    over the nodes of the graph (at least 1); its impact is centrality *
    (1 - 0.5 * depth / (max_depth + 1)) * (1.2 if direct, else 1.0)
    clamped to the unit interval, max_depth being the greatest depth of a
    node; and both scores lie between 0 and 1. Each operation is the
    floating-point one. In the sample tree the root has 3 edges and both
    scores 1, spring-boot-starter-tomcat has 2 edges, centrality 2/3 and
    impact 2/3 * (1 - 0.5 * 1/3) * 1.2, and tomcat-embed-core has 1 edge,
    centrality 1/3 and impact 1/3 * (1 - 0.5 * 2/3), each as the double
    the operations give. *)
Theorem scores_after_parse :
  (forall (self : DependencyGraph) (tree_text : str),
      exists g,
        parse_tree_text self tree_text = Ok g
        /\ let max_degree :=
             max_list (map (fun m => length (parents m) + length (children m))
                         (dict_values (nodes g))) in
           let max_depth := max_list (map depth (dict_values (nodes g))) in
           forall (k : str) (n : DependencyNode),
             dict_get k (nodes g) = Some n ->
             centrality_score n
             = float_quotient (length (parents n) + length (children n))
                 (Nat.max max_degree 1)
             /\ impact_score n
                = float_min 1
                    (float_max 0
                       (float_mul
                          (float_mul (centrality_score n)
                             (float_sub 1
                                (float_mul (float_lit (1 # 2))
                                   (float_quotient (depth n) (max_depth + 1)))))
                          (if is_direct n then float_lit (12 # 10)
                           else float_lit 1)))
             /\ (0 <= centrality_score n)%Q /\ (centrality_score n <= 1)%Q
             /\ (0 <= impact_score n)%Q /\ (impact_score n <= 1)%Q)
  /\ (exists root starter tomcat,
         parse_dependency_tree TEST_TREE = Ok test_graph
         /\ dict_get (py "com.random-x:part-finder-service-api")
              (nodes test_graph) = Some root
         /\ dict_get (py "org.springframework.boot:spring-boot-starter-tomcat")
              (nodes test_graph) = Some starter
         /\ dict_get (py "org.apache.tomcat.embed:tomcat-embed-core")
              (nodes test_graph) = Some tomcat
         /\ (length (parents root), length (children root), depth root) = (0, 3, 0)
         /\ centrality_score root = 1%Q /\ impact_score root = 1%Q
         /\ (length (parents starter), length (children starter), depth starter)
            = (1, 1, 1)
         /\ centrality_score starter = binary64 (2 # 3)
         /\ impact_score starter = (6004799503160661 # 9007199254740992)%Q
         /\ (length (parents tomcat), length (children tomcat), depth tomcat)
            = (1, 0, 2)
         /\ centrality_score tomcat = binary64 (1 # 3)
         /\ impact_score tomcat = (8006399337547549 # 36028797018963968)%Q).
Proof.
  split.
  2:{ eexists _, _, _. split; [exact test_graph_parsed|].
      split; [vm_compute; reflexivity|]. split; [vm_compute; reflexivity|].
      split; [vm_compute; reflexivity|]. split_and!; vm_compute; reflexivity. }
  intros self tree_text.
  destruct (parse_tree_text_spec self tree_text) as (st & _ & ->).
  set (g0 := st.1). exists (scored_graph g0). split; [done|].
  assert (forall f : DependencyNode -> nat,
             (forall md mx n, f (scored md mx n) = f n) ->
             max_list (map f (dict_values (nodes (scored_graph g0))))
             = max_list (map f (dict_values (nodes g0)))) as Hmax.
  { intros f Hf. unfold scored_graph, dict_values. cbn [nodes set_nodes].
    rewrite !map_map. f_equal. apply map_ext. intros [k n]. apply Hf. }
  rewrite !Hmax by done.
  change (max_list (map (fun m => length (parents m) + length (children m))
                      (dict_values (nodes g0)))) with (graph_max_degree g0).
  change (max_list (map depth (dict_values (nodes g0))))
    with (graph_max_depth g0).
  cbv zeta.
  intros k n'. rewrite scored_graph_get. intros (n & Hn & ->)%fmap_Some.
  assert (n ∈ dict_values (nodes g0)) as Hin.
  { apply list_elem_of_fmap. exists (k, n). split; [done|].
    by apply dict_get_elem. }
  assert (degree n <= graph_max_degree g0) as Hdeg.
  { apply max_list_elem_of_le, list_elem_of_fmap. eauto. }
  assert (depth n <= graph_max_depth g0) as Hdep.
  { apply max_list_elem_of_le, list_elem_of_fmap. eauto. }
  unfold scored.
  cbn [centrality_score impact_score set_scores degree depth is_direct
       parents children].
  fold (degree n).
  split_and!.
  - done.
  - rewrite (float_mul_comm (float_lit (1 # 2))).
    destruct (graph_max_depth g0) as [|m] eqn:Em.
    + assert (depth n = 0) as -> by lia. cbn [Nat.max Nat.add].
      by rewrite (float_quotient_zero 0 1).
    + by replace (Nat.max (S m) 1) with (S m) by lia.
  - apply float_quotient_unit_interval; lia.
  - apply float_quotient_unit_interval; lia.
  - apply clamp_unit_interval.
  - apply clamp_unit_interval.
Qed.

(** C7. [version_jump_type] answers "major" when the parsed major
    components differ, else "minor" when the minor components differ, else
    "patch"; 10.1.42 to 10.1.45 is a patch jump, 10.1.42 to 10.2.0 a minor
    one and 2.9.0 to 3.0.0 a major one. *)
Theorem version_jump_type_spec :
  (forall from_v to_v : str,
      let p1 := parse_version from_v in
      let p2 := parse_version to_v in
      (major_of p1 ≠ major_of p2 ->
       version_jump_type from_v to_v = py "major")
      /\ (major_of p1 = major_of p2 -> minor_of p1 ≠ minor_of p2 ->
          version_jump_type from_v to_v = py "minor")
      /\ (major_of p1 = major_of p2 -> minor_of p1 = minor_of p2 ->
          version_jump_type from_v to_v = py "patch"))
  /\ version_jump_type (py "10.1.42") (py "10.1.45") = py "patch"
  /\ version_jump_type (py "10.1.42") (py "10.2.0") = py "minor"
  /\ version_jump_type (py "2.9.0") (py "3.0.0") = py "major".
Proof.
  split; [|by vm_compute].
  intros from_v to_v p1 p2. unfold version_jump_type. fold p1 p2.
  destruct (N.eqb_spec (major_of p1) (major_of p2)) as [E1|E1];
    destruct (N.eqb_spec (minor_of p1) (minor_of p2)) as [E2|E2];
    cbn [negb]; split_and!; intros; done.
Qed.

(** C8. [parse_tree_text] returns a graph for every text, on every graph it
    is called on; a line whose cleaned content splits on ':' into fewer
    than three parts leaves the state of the loop as it was, so it adds no
    node and the parse goes on as if the line were not there. *)
Theorem parse_tree_text_never_raises :
  (forall (self : DependencyGraph) (tree_text : str),
      exists g, parse_tree_text self tree_text = Ok g)
  /\ (forall (st : parse_state) (line : str),
         length (split COLON (clean_line line)) < 3 ->
         parse_line st line = Ok st)
  /\ (forall (st : parse_state) (before after : list str) (line : str),
         length (split COLON (clean_line line)) < 3 ->
         for_each parse_line st (before ++ line :: after)
         = for_each parse_line st (before ++ after)).
Proof.
  assert (forall line, length (split COLON (clean_line line)) < 3 ->
                       sighting line = None) as Hskip.
  { intros line Hl. destruct (sighting line) as [[[d k] v]|] eqn:E; [|done].
    apply sighting_is_ga in E as (_ & _ & ?). lia. }
  split_and!.
  - intros self text.
    destruct (parse_tree_text_spec self text) as (st & _ & ->). eauto.
  - intros st line Hl. by rewrite parse_line_sighting, Hskip.
  - intros st before after line Hl.
    rewrite !for_each_parse_line, !sightings_app. unfold sightings at 2.
    cbn [omap list_omap]. by rewrite Hskip.
Qed.

(** C9. [get_dependency_info] never raises and answers [None] exactly for
    a key that is not in the graph; [get_llm_summary] never raises and
    answers the error marker when the graph has no node, and the summary
    of the graph when it has one. *)
Theorem queries_report_absence (self : DependencyGraph) :
  (forall key : str,
      match dict_get key (nodes self) with
      | None => get_dependency_info self key = Ok None
      | Some n =>
          exists info,
            get_dependency_info self key = Ok (Some info)
            /\ dict_ga info = ga n /\ dict_version info = version n
            /\ dict_depth info = depth n /\ dict_is_direct info = is_direct n
            /\ dict_parents info = parents n
            /\ dict_children info = children n
      end)
  /\ match nodes self with
     | [] => get_llm_summary self
             = Ok (SummaryError (py "No dependencies parsed"))
     | _ :: _ =>
         exists s,
           get_llm_summary self = Ok (Summary s)
           /\ project s = root_project self
           /\ total_dependencies s = length (nodes self)
           /\ max_depth s = graph_max_depth self
     end.
Proof.
  split.
  - intros key. unfold get_dependency_info, dict_in, dict_item.
    destruct (dict_get key (nodes self)) as [n|]; [|done].
    cbn [negb]. rewrite bind_Ok. eexists. split; [reflexivity|].
    by repeat case_match.
  - unfold get_llm_summary, graph_max_depth.
    destruct (nodes self) as [|[k n] ns]; [done|].
    cbn [dict_values map]. rewrite py_max_cons, bind_Ok.
    eexists. split; [reflexivity|]. done.
Qed.

(** When the first line of a text is a root declaration, the root's node
    is stored at depth 0 with is_direct true, the summary lists it among
    the direct dependencies, and direct_count is the number of depth-1
    nodes plus the number of depth-0 nodes; that is the number of depth-1
    nodes plus one when no line at depth 0 declares another key. *)
Lemma root_counts_as_direct (tree_text first : str) (rest : list str)
  (root v : str) :
  lines_of tree_text = first :: rest ->
  sighting first = Some (0, root, v) ->
  exists g s rn,
    parse_dependency_tree tree_text = Ok g
    /\ get_llm_summary g = Ok (Summary s)
    /\ dict_get root (nodes g) = Some rn
    /\ depth rn = 0 /\ is_direct rn = true
    /\ is_Some (dict_get root (direct_dependencies s))
    /\ direct_count s = count_depth 1 g + count_depth 0 g
    /\ ((forall d k w,
            (d, k, w) ∈ sightings (lines_of tree_text) -> d = 0 -> k = root) ->
        count_depth 0 g = 1 /\ direct_count s = count_depth 1 g + 1).
Proof.
  intros Hlines Hfirst.
  destruct (parse_tree_text_spec new_graph tree_text) as (st_end & E & Hparse).
  pose proof (parse_dependency_tree_ok _ _ Hparse) as [Hnd Hnode].
  set (g := scored_graph st_end.1) in *.
  assert (sightings (lines_of tree_text) = (0, root, v) :: sightings rest) as Hs.
  { rewrite Hlines. unfold sightings. cbn [omap list_omap]. by rewrite Hfirst. }
  pose proof E as E0. rewrite Hs in E.
  apply (place_all_split _ _ []) in E as (st0 & st1 & [= <-] & E1 & E2).
  cbn [fst snd] in E1.
  destruct (place_step_created _ _ _ _ _ E1 eq_refl) as (n1 & Hn1 & _ & Hd1 & Hi1).
  destruct (place_all_keeps _ _ _ _ _ E2 Hn1) as (m & Hm & _ & _ & Hdm & Him).
  set (rn := scored (Nat.max (graph_max_degree st_end.1) 1)
               (Nat.max (graph_max_depth st_end.1) 1) m).
  assert (dict_get root (nodes g) = Some rn) as Hrn.
  { subst g rn. by rewrite scored_graph_get, Hm. }
  assert (depth rn = 0) as Hrd.
  { subst rn. unfold scored. cbn [depth set_scores]. congruence. }
  assert (is_direct rn = true) as Hri.
  { subst rn. unfold scored. cbn [is_direct set_scores]. by rewrite Him, Hi1. }
  destruct (get_llm_summary_nonempty g) as (s & Hsum & Hdd & Hdc).
  { intros Hnil. rewrite Hnil in Hrn. done. }
  assert (direct_count s = count_depth 1 g + count_depth 0 g) as Hcount.
  { rewrite Hdc, to_dict_where_nodup, length_map by done.
    apply direct_count_by_depth. intros [k n] Hin.
    destruct (Hnode k n) as (_ & _ & _ & _ & _ & ?); [|done].
    by apply dict_elem_get. }
  exists g, s, rn. split_and!; try done.
  - rewrite Hdd. rewrite (to_dict_where_get _ _ _ _ Hnd Hrn Hri). by eexists.
  - intros Honly.
    assert (count_depth 0 g = 1) as H0; [|by rewrite Hcount, H0].
    unfold count_depth.
    set (l := List.filter _ (nodes g)).
    assert (length l <= 1).
    { apply (single_key_length l root).
      - by apply filter_keys_NoDup.
      - intros [k n] [Hin Hd]%list_elem_of_In%filter_In. cbn [fst snd] in *.
        apply list_elem_of_In, (dict_elem_get _ _ _ Hnd) in Hin.
        subst g. rewrite scored_graph_get in Hin.
        apply fmap_Some in Hin as (n0 & Hn0 & ->).
        apply Nat.eqb_eq in Hd. unfold scored in Hd.
        cbn [depth set_scores] in Hd.
        pose proof (place_all_origin _ _ _ _ E0 Hn0) as Horigin.
        by eapply Honly. }
    assert ((root, rn) ∈ l) as Hin.
    { apply list_elem_of_In, filter_In. split.
      - by apply list_elem_of_In, dict_get_elem.
      - cbn [snd]. by rewrite Hrd. }
    destruct l as [|x l]; [by apply elem_of_nil in Hin|].
    cbn [length] in *. lia.
Qed.

Lemma root_counts_as_direct_witness :
  let rest :=
    [py "├── org.springframework.boot:spring-boot-starter-tomcat:3.5.3";
     py "│   └── org.apache.tomcat.embed:tomcat-embed-core:10.1.42";
     py "├── com.fasterxml.jackson.core:jackson-databind:2.19.1";
     py "└── org.apache.logging.log4j:log4j-core:2.24.3"] in
  let first := py "com.random-x:part-finder-service-api:1.2.39-SNAPSHOT" in
  let root := py "com.random-x:part-finder-service-api" in
  let v := py "1.2.39-SNAPSHOT" in
  lines_of TEST_TREE = first :: rest
  /\ sighting first = Some (0, root, v)
  /\ exists g s rn,
      parse_dependency_tree TEST_TREE = Ok g
      /\ get_llm_summary g = Ok (Summary s)
      /\ dict_get root (nodes g) = Some rn
      /\ depth rn = 0 /\ is_direct rn = true
      /\ is_Some (dict_get root (direct_dependencies s))
      /\ direct_count s = count_depth 1 g + count_depth 0 g
      /\ ((forall d k w,
              (d, k, w) ∈ sightings (lines_of TEST_TREE) -> d = 0 -> k = root) ->
          count_depth 0 g = 1 /\ direct_count s = count_depth 1 g + 1).
Proof.
  intros rest first root v.
  assert (lines_of TEST_TREE = first :: rest) as H1 by (vm_compute; reflexivity).
  assert (sighting first = Some (0, root, v)) as H2 by (vm_compute; reflexivity).
  split; [exact H1|]. split; [exact H2|].
  exact (root_counts_as_direct TEST_TREE first rest root v H1 H2).
Defined.

(** C10. When a second line at depth 0 declares another key, the code
    takes it for a root declaration too, against its own comment ("First
    line (depth 0) is the root project"): both depth-0 nodes are stored as
    direct, so direct_count is two with no node at depth 1, and not the
    number of depth-1 nodes plus one. *)
Theorem two_root_lines_count_twice :
  exists g s,
    parse_dependency_tree (py "a:first:1
b:second:2") = Ok g
    /\ get_llm_summary g = Ok (Summary s)
    /\ direct_count s = 2
    /\ count_depth 1 g = 0.
Proof.
  eexists _, _. split; [vm_compute; reflexivity|].
  split; [vm_compute; reflexivity|]. split; vm_compute; reflexivity.
Qed.

(* ================================================================== *)
(** * Further properties of the code                                   *)
(* ================================================================== *)

(** ** The nodes and the sighted keys *)

Lemma dict_in_keys {V} k (d : dict V) :
  dict_in k d = bool_decide (k ∈ dict_keys d).
Proof.
  destruct (dict_in k d) eqn:E; symmetry.
  - apply bool_decide_eq_true. by apply dict_get_keys, dict_in_true.
  - apply bool_decide_eq_false. intros H%dict_get_keys.
    apply dict_in_false in E. rewrite E in H. by destruct H.
Qed.

Lemma place_all_keys (st st' : parse_state) ss :
  place_all st ss = Ok st' ->
  dict_keys (nodes st'.1)
  = first_occurrences_from (dict_keys (nodes st.1))
      (map (fun s : nat * str * str => s.1.2) ss).
Proof.
  unfold place_all. revert st.
  induction ss as [|s ss IH]; intros st; simpl.
  - by intros [= <-].
  - destruct (place_spec st s.1.1 s.1.2 s.2) as (self' & -> & _ & Hk & _).
    rewrite bind_Ok. intros H. rewrite (IH _ H). cbn [fst].
    unfold first_occurrences_from. cbn [fold_left].
    by rewrite Hk, dict_in_keys.
Qed.

Lemma first_occurrences_from_elem acc l k :
  k ∈ first_occurrences_from acc l <-> k ∈ acc \/ k ∈ l.
Proof.
  unfold first_occurrences_from. revert acc.
  induction l as [|x l IH]; intros acc; simpl.
  - rewrite elem_of_nil. tauto.
  - rewrite IH, elem_of_cons. case_bool_decide as Hx.
    + split; [tauto|]. intros [?|[->|?]]; auto.
    + rewrite elem_of_app, list_elem_of_singleton. tauto.
Qed.

Lemma first_occurrences_from_NoDup acc l :
  NoDup acc -> NoDup (first_occurrences_from acc l).
Proof.
  unfold first_occurrences_from. revert acc.
  induction l as [|x l IH]; intros acc Hacc; simpl; [done|].
  apply IH. case_bool_decide as Hx; [done|].
  apply NoDup_app. split_and!; [done| |apply NoDup_singleton].
  by intros y Hy ->%list_elem_of_singleton.
Qed.

(** X1. The nodes of a parsed graph are the keys its lines are read to,
    each once, in the order in which the keys are first sighted: no node
    is made up, no sighted key is lost, and a key sighted again adds no
    node. *)
Theorem nodes_in_order_of_first_sighting (tree_text : str) :
  exists g,
    parse_dependency_tree tree_text = Ok g
    /\ dict_keys (nodes g) = first_occurrences (sighted_keys tree_text)
    /\ NoDup (dict_keys (nodes g))
    /\ forall k, is_Some (dict_get k (nodes g)) <-> k ∈ sighted_keys tree_text.
Proof.
  destruct (parse_tree_text_spec new_graph tree_text) as (st & E & Hparse).
  exists (scored_graph st.1). split; [exact Hparse|].
  assert (dict_keys (nodes (scored_graph st.1))
          = first_occurrences (sighted_keys tree_text)) as Hkeys.
  { rewrite scored_graph_keys. by rewrite (place_all_keys _ _ _ E). }
  split_and!.
  - exact Hkeys.
  - rewrite Hkeys. apply first_occurrences_from_NoDup, NoDup_nil_2.
  - intros k. rewrite dict_get_keys, Hkeys.
    unfold first_occurrences. rewrite first_occurrences_from_elem, elem_of_nil.
    tauto.
Qed.

(** ** Edges at both ends *)

(** X2. In a parsed graph the edges are recorded at both ends and lead
    to nodes: every recorded parent of a node is a node that lists it as
    a child, every recorded child is a node that lists it as a parent, and
    the root project, when there is one, is a node. *)
Theorem edges_are_mirrored (tree_text : str) :
  exists g,
    parse_dependency_tree tree_text = Ok g
    /\ (forall k n,
          dict_get k (nodes g) = Some n ->
          (forall p, p ∈ parents n ->
             exists pn, dict_get p (nodes g) = Some pn /\ k ∈ children pn)
          /\ (forall c, c ∈ children n ->
                exists cn, dict_get c (nodes g) = Some cn /\ k ∈ parents cn))
    /\ (forall r, root_project g = Some r -> is_Some (dict_get r (nodes g))).
Proof.
  destruct (parse_tree_text_spec new_graph tree_text) as (st & E & Hparse).
  assert (forall s, s ∈ sightings (lines_of tree_text) -> is_ga s.1.2) as Hga.
  { intros [[d k] v] H. by eapply sightings_is_ga. }
  exists (scored_graph st.1). split_and!.
  - exact Hparse.
  - apply scored_graph_mirrored.
    eapply place_all_mirrored; [exact Hga|apply new_graph_ok| |exact E].
    apply new_graph_mirrored.
  - intros r Hr. cbn [scored_graph root_project set_nodes] in Hr.
    destruct (place_all_root (sightings (lines_of tree_text)))
      as (st' & E' & Hroot & Hchain0).
    rewrite E in E'. injection E' as <-.
    destruct (place_all_ok _ _ _ Hga new_graph_ok E) as [_ Hchain].
    rewrite scored_graph_get.
    destruct (Hchain 0 r) as [rn ->]; [congruence|]. by eexists.
Qed.

(** ** The summary *)

Lemma to_dict_where_lookup keep d k :
  NoDup (dict_keys d) ->
  dict_get k (to_dict_where keep d)
  = match dict_get k d with
    | Some n => if keep n then Some (to_dict n) else None
    | None => None
    end.
Proof.
  intros Hnd. rewrite to_dict_where_nodup by done.
  induction d as [|[k' n'] d IH]; [done|].
  apply NoDup_cons in Hnd as [Hk' Hnd]. specialize (IH Hnd).
  assert (str_eqb k k' = true ->
          dict_get k (map (fun kv : str * DependencyNode => (kv.1, to_dict kv.2))
                        (List.filter (fun kv => keep kv.2) d)) = None) as Hfresh.
  { intros ->%str_eqb_eq. rewrite IH.
    destruct (dict_get k' d) eqn:E; [|done].
    destruct Hk'. apply dict_get_keys. by eexists. }
  cbn [List.filter dict_get snd]. destruct (keep n') eqn:Ek.
  - cbn [map dict_get fst snd]. destruct (str_eqb k k'); [by rewrite Ek|].
    exact IH.
  - destruct (str_eqb k k') eqn:E; [rewrite Ek; by apply Hfresh|]. exact IH.
Qed.

(** X3. For a graph with at least one node (its keys distinct, as those
    of a dictionary are) the summary counts add up: direct_count plus
    transitive_count is total_dependencies, the table of all dependencies
    has the keys of the graph in their order, and every node is in that
    table and in exactly one of the tables of direct and of transitive
    dependencies, the one its is_direct flag names. *)
Theorem summary_tables_partition_the_nodes (self : DependencyGraph) :
  NoDup (dict_keys (nodes self)) ->
  nodes self ≠ [] ->
  exists s,
    get_llm_summary self = Ok (Summary s)
    /\ direct_count s + transitive_count s = total_dependencies s
    /\ direct_count s = length (direct_dependencies s)
    /\ transitive_count s = length (transitive_dependencies s)
    /\ dict_keys (all_dependencies s) = dict_keys (nodes self)
    /\ forall k,
        match dict_get k (nodes self) with
        | Some n =>
            dict_get k (all_dependencies s) = Some (to_dict n)
            /\ dict_get k (direct_dependencies s)
               = (if is_direct n then Some (to_dict n) else None)
            /\ dict_get k (transitive_dependencies s)
               = (if is_direct n then None else Some (to_dict n))
        | None =>
            dict_get k (all_dependencies s) = None
            /\ dict_get k (direct_dependencies s) = None
            /\ dict_get k (transitive_dependencies s) = None
        end.
Proof.
  intros Hnd Hne. unfold get_llm_summary.
  destruct (nodes self) as [|[k0 n0] ns] eqn:E; [done|]. rewrite <- E in *.
  assert (py_max (map depth (dict_values (nodes self)))
          = Ok (graph_max_depth self)) as ->.
  { unfold graph_max_depth. rewrite E. cbn [dict_values map].
    by rewrite py_max_cons. }
  rewrite bind_Ok. eexists. split; [reflexivity|].
  cbn [direct_count transitive_count total_dependencies direct_dependencies
       transitive_dependencies all_dependencies].
  split_and!; try done.
  - rewrite !to_dict_where_nodup, !length_map by done.
    apply (filter_length (fun kv : str * DependencyNode => is_direct kv.2)).
  - rewrite to_dict_where_nodup by done.
    rewrite (dict_keys_map_values to_dict).
    f_equal. clear. induction (nodes self) as [|kv l IH]; [done|].
    cbn [List.filter]. by rewrite IH.
  - intros k. rewrite !to_dict_where_lookup by done.
    destruct (dict_get k (nodes self)) as [n|]; [|done].
    by destruct (is_direct n).
Qed.

Lemma summary_tables_partition_the_nodes_witness :
  NoDup (dict_keys (nodes test_graph))
  /\ nodes test_graph ≠ []
  /\ exists s,
      get_llm_summary test_graph = Ok (Summary s)
      /\ direct_count s + transitive_count s = total_dependencies s
      /\ direct_count s = length (direct_dependencies s)
      /\ transitive_count s = length (transitive_dependencies s)
      /\ dict_keys (all_dependencies s) = dict_keys (nodes test_graph)
      /\ forall k,
          match dict_get k (nodes test_graph) with
          | Some n =>
              dict_get k (all_dependencies s) = Some (to_dict n)
              /\ dict_get k (direct_dependencies s)
                 = (if is_direct n then Some (to_dict n) else None)
              /\ dict_get k (transitive_dependencies s)
                 = (if is_direct n then None else Some (to_dict n))
          | None =>
              dict_get k (all_dependencies s) = None
              /\ dict_get k (direct_dependencies s) = None
              /\ dict_get k (transitive_dependencies s) = None
          end.
Proof.
  assert (NoDup (dict_keys (nodes test_graph))) as H1.
  { apply (bool_decide_unpack (NoDup (dict_keys (nodes test_graph)))).
    vm_compute. exact I. }
  assert (nodes test_graph ≠ []) as H2 by (vm_compute; discriminate).
  split; [exact H1|]. split; [exact H2|].
  exact (summary_tables_partition_the_nodes test_graph H1 H2).
Defined.

(** ** The list of high-risk dependencies *)

Lemma float_gt_half x :
  float_gt x (float_lit (1 # 2)) = true <-> (1 # 2 < x)%Q.
Proof.
  assert (float_lit (1 # 2) = (1 # 2)%Q) as -> by (vm_compute; reflexivity).
  unfold float_gt. rewrite negb_true_iff.
  destruct (Qle_bool x (1 # 2)) eqn:E.
  - apply Qle_bool_iff in E. split; [done|]. intros H.
    exfalso. by apply (Qlt_not_le _ _ H).
  - split; [|done]. intros _. apply Qnot_le_lt. intros H%Qle_bool_iff.
    congruence.
Qed.

Lemma insert_by_impact_elem x l e :
  e ∈ insert_by_impact x l <-> e = x \/ e ∈ l.
Proof.
  induction l as [|y l IH]; simpl.
  - rewrite list_elem_of_singleton, elem_of_nil. tauto.
  - destruct (Qle_bool _ _); rewrite !elem_of_cons; [rewrite IH|]; tauto.
Qed.

Lemma insert_by_impact_sorted x l :
  StronglySorted impact_desc l ->
  StronglySorted impact_desc (insert_by_impact x l).
Proof.
  induction 1 as [|y l Hl IH Hy]; simpl.
  - apply SSorted_cons; [apply SSorted_nil | apply Forall_nil_2].
  - destruct (Qle_bool (hr_impact_score x) (hr_impact_score y)) eqn:E.
    + apply SSorted_cons; [exact IH|].
      apply Forall_forall. intros e [->|He]%insert_by_impact_elem.
      * by apply Qle_bool_iff.
      * by apply (proj1 (Forall_forall _ _) Hy).
    + assert (hr_impact_score y < hr_impact_score x)%Q as Hlt.
      { apply Qnot_le_lt. intros H%Qle_bool_iff. congruence. }
      apply SSorted_cons; [by apply SSorted_cons|].
      apply Forall_cons. split; [by apply Qlt_le_weak|].
      apply Forall_forall. intros e He. unfold impact_desc.
      apply Qle_trans with (hr_impact_score y); [|by apply Qlt_le_weak].
      by apply (proj1 (Forall_forall _ _) Hy).
Qed.

Lemma sort_by_impact_desc_spec l :
  StronglySorted impact_desc (sort_by_impact_desc l)
  /\ forall e, e ∈ sort_by_impact_desc l <-> e ∈ l.
Proof.
  unfold sort_by_impact_desc.
  assert (forall acc,
            StronglySorted impact_desc acc ->
            StronglySorted impact_desc
              (fold_left (fun acc x => insert_by_impact x acc) l acc)
            /\ forall e,
                e ∈ fold_left (fun acc x => insert_by_impact x acc) l acc
                <-> e ∈ acc \/ e ∈ l) as H.
  { induction l as [|x l IH]; intros acc Hacc; simpl.
    - split; [done|]. intros e. rewrite elem_of_nil. tauto.
    - destruct (IH (insert_by_impact x acc)) as [Hs He];
        [by apply insert_by_impact_sorted|].
      split; [done|]. intros e.
      rewrite He, insert_by_impact_elem, elem_of_cons. tauto. }
  destruct (H [] (SSorted_nil _)) as [Hs He]. split; [done|].
  intros e. rewrite He, elem_of_nil. tauto.
Qed.

Lemma StronglySorted_lookup {A} (R : A -> A -> Prop) l i j a b :
  StronglySorted R l -> i < j -> l !! i = Some a -> l !! j = Some b -> R a b.
Proof.
  intros Hs. revert i j. induction Hs as [|x l Hl IH Hx]; intros i j Hij; [done|].
  destruct j as [|j]; [lia|]. destruct i as [|i]; simpl.
  - intros [= <-] Hb. by eapply Forall_lookup_1.
  - apply IH. lia.
Qed.

Lemma get_dependency_info_scores self key n :
  dict_get key (nodes self) = Some n ->
  exists info,
    get_dependency_info self key = Ok (Some info)
    /\ dict_centrality_score info = round3 (centrality_score n)
    /\ dict_impact_score info = round3 (impact_score n)
    /\ risk_assessment info
       = Some (if float_gt (impact_score n) (float_lit (7 # 10)) then
                 py "HIGH - Critical dependency, changes may have wide impact"
               else if float_gt (impact_score n) (float_lit (4 # 10)) then
                 py "MEDIUM - Moderate impact, test thoroughly after changes"
               else
                 py "LOW - Isolated dependency, changes likely contained").
Proof.
  intros Hn. unfold get_dependency_info, dict_in, dict_item. rewrite Hn.
  cbn [negb]. rewrite bind_Ok. eexists. split; [reflexivity|]. done.
Qed.

Lemma get_llm_summary_high_risk self s :
  get_llm_summary self = Ok (Summary s) ->
  high_risk_dependencies s
  = take 10 (sort_by_impact_desc (high_risk_candidates self)).
Proof.
  unfold get_llm_summary. destruct (nodes self) as [|kv l] eqn:E; [done|].
  rewrite <- E. destruct (py_max _); [|done]. rewrite bind_Ok.
  by intros [= <-].
Qed.

Lemma get_llm_summary_returns self :
  nodes self ≠ [] -> exists s, get_llm_summary self = Ok (Summary s).
Proof.
  intros Hne. unfold get_llm_summary.
  destruct (nodes self) as [|[k0 n0] ns] eqn:E; [done|]. rewrite <- E.
  assert (py_max (map depth (dict_values (nodes self)))
          = Ok (graph_max_depth self)) as ->.
  { unfold graph_max_depth. rewrite E. cbn [dict_values map].
    by rewrite py_max_cons. }
  rewrite bind_Ok. by eexists.
Qed.

Lemma high_risk_candidates_elem self e :
  e ∈ high_risk_candidates self
  <-> exists k n, (k, n) ∈ nodes self /\ (1 # 2 < impact_score n)%Q
                  /\ e = high_risk_of k n.
Proof.
  unfold high_risk_candidates. rewrite list_elem_of_fmap. split.
  - intros ([k n] & -> & [Hin Hgt]%list_elem_of_In%filter_In).
    exists k, n. split_and!; [by apply list_elem_of_In| |done].
    by apply float_gt_half.
  - intros (k & n & Hin & Hgt & ->). exists (k, n). split; [done|].
    apply list_elem_of_In, filter_In. split; [by apply list_elem_of_In|].
    by apply float_gt_half.
Qed.

(** X4. The high-risk list of the summary has at most ten entries, in
    order of decreasing impact; each entry is the key, the unrounded
    impact and the version of a node whose impact is greater than 0.5;
    and a node with impact greater than 0.5 is left out only when the list
    is full and no entry of it has a smaller impact. *)
Theorem high_risk_list_is_the_top_ten (self : DependencyGraph) :
  nodes self ≠ [] ->
  exists s,
    get_llm_summary self = Ok (Summary s)
    /\ let hr := high_risk_dependencies s in
       length hr <= 10
       /\ (forall i j e1 e2,
              i < j -> hr !! i = Some e1 -> hr !! j = Some e2 ->
              (hr_impact_score e2 <= hr_impact_score e1)%Q)
       /\ (forall e,
              e ∈ hr ->
              (1 # 2 < hr_impact_score e)%Q
              /\ exists n, (hr_ga e, n) ∈ nodes self /\ e = high_risk_of (hr_ga e) n)
       /\ (forall k n,
              (k, n) ∈ nodes self -> (1 # 2 < impact_score n)%Q ->
              high_risk_of k n ∈ hr
              \/ (length hr = 10
                  /\ forall e, e ∈ hr ->
                               (impact_score n <= hr_impact_score e)%Q)).
Proof.
  intros Hne. destruct (get_llm_summary_returns self Hne) as [s Hs].
  exists s. split; [exact Hs|]. cbv zeta.
  rewrite (get_llm_summary_high_risk _ _ Hs).
  destruct (sort_by_impact_desc_spec (high_risk_candidates self))
    as [Hsorted Helem].
  set (sorted := sort_by_impact_desc (high_risk_candidates self)) in *.
  split_and!.
  - rewrite length_take. lia.
  - intros i j e1 e2 Hij [H1 _]%lookup_take_Some [H2 _]%lookup_take_Some.
    exact (StronglySorted_lookup _ _ _ _ _ _ Hsorted Hij H1 H2).
  - intros e He. apply elem_of_take in He as (i & He & _).
    apply list_elem_of_lookup_2, Helem, high_risk_candidates_elem in He
      as (k & n & Hin & Hgt & ->).
    split; [done|]. by exists n.
  - intros k n Hin Hgt.
    assert (high_risk_of k n ∈ sorted) as Hin'.
    { apply Helem, high_risk_candidates_elem. by exists k, n. }
    rewrite <- (take_drop 10 sorted) in Hin'.
    apply elem_of_app in Hin' as [Hin'|Hin']; [by left|right].
    apply list_elem_of_lookup in Hin' as [j Hj]. rewrite lookup_drop in Hj.
    assert (10 + j < length sorted) as Hlen by (by eapply lookup_lt_Some).
    split; [rewrite length_take; lia|].
    intros e (i & He & Hi)%elem_of_take.
    change (impact_score n) with (hr_impact_score (high_risk_of k n)).
    apply (StronglySorted_lookup impact_desc sorted i (10 + j) e
             (high_risk_of k n)); [exact Hsorted|lia|done|done].
Qed.

Lemma high_risk_list_is_the_top_ten_witness :
  nodes test_graph ≠ []
  /\ exists s,
      get_llm_summary test_graph = Ok (Summary s)
      /\ let hr := high_risk_dependencies s in
         length hr <= 10
         /\ (forall i j e1 e2,
                i < j -> hr !! i = Some e1 -> hr !! j = Some e2 ->
                (hr_impact_score e2 <= hr_impact_score e1)%Q)
         /\ (forall e,
                e ∈ hr ->
                (1 # 2 < hr_impact_score e)%Q
                /\ exists n, (hr_ga e, n) ∈ nodes test_graph
                             /\ e = high_risk_of (hr_ga e) n)
         /\ (forall k n,
                (k, n) ∈ nodes test_graph -> (1 # 2 < impact_score n)%Q ->
                high_risk_of k n ∈ hr
                \/ (length hr = 10
                    /\ forall e, e ∈ hr ->
                                 (impact_score n <= hr_impact_score e)%Q)).
Proof.
  assert (nodes test_graph ≠ []) as H by (vm_compute; discriminate).
  split; [exact H|]. exact (high_risk_list_is_the_top_ten test_graph H).
Defined.

(** X5. The two risk views agree on a parsed graph: for every entry of
    the high-risk list of the summary, [get_dependency_info] finds the
    node with that impact and version, and assesses it HIGH or MEDIUM,
    never LOW. *)
Theorem high_risk_entries_are_not_assessed_low (tree_text : str) :
  exists g,
    parse_dependency_tree tree_text = Ok g
    /\ forall s e,
        get_llm_summary g = Ok (Summary s) ->
        e ∈ high_risk_dependencies s ->
        exists n info,
          dict_get (hr_ga e) (nodes g) = Some n
          /\ hr_impact_score e = impact_score n
          /\ hr_version e = version n
          /\ get_dependency_info g (hr_ga e) = Ok (Some info)
          /\ (risk_assessment info
              = Some (py "HIGH - Critical dependency, changes may have wide impact")
              \/ risk_assessment info
                 = Some (py "MEDIUM - Moderate impact, test thoroughly after changes")).
Proof.
  destruct (parse_tree_text_spec new_graph tree_text) as (st & _ & Hparse).
  pose proof (parse_dependency_tree_ok _ _ Hparse) as [Hnd _].
  eexists. split; [exact Hparse|].
  set (g := scored_graph st.1) in *.
  intros s e Hs He. rewrite (get_llm_summary_high_risk _ _ Hs) in He.
  apply elem_of_take in He as (i & He & _).
  apply list_elem_of_lookup_2, sort_by_impact_desc_spec,
    high_risk_candidates_elem in He as (k & n & Hin & Hgt & ->).
  cbn [hr_ga hr_impact_score hr_version high_risk_of].
  apply (dict_elem_get _ _ _ Hnd) in Hin.
  destruct (get_dependency_info_scores _ _ _ Hin) as (info & Hi & _ & _ & Hr).
  exists n, info. split_and!; try done. rewrite Hr.
  destruct (float_gt (impact_score n) (float_lit (7 # 10))); [by left|right].
  assert (float_gt (impact_score n) (float_lit (4 # 10)) = true) as ->; [|done].
  unfold float_gt. apply negb_true_iff.
  destruct (Qle_bool _ _) eqn:E; [|done]. apply Qle_bool_iff in E.
  assert (float_lit (4 # 10) < 1 # 2)%Q as Hc by (by vm_compute).
  exfalso. apply (Qlt_not_le _ _ Hgt).
  apply Qle_trans with (float_lit (4 # 10)); [done|by apply Qlt_le_weak].
Qed.

(** ** Scoring again *)

Lemma max_list_scored (f : DependencyNode -> nat) g :
  (forall md mx n, f (scored md mx n) = f n) ->
  max_list (map f (dict_values (nodes (scored_graph g))))
  = max_list (map f (dict_values (nodes g))).
Proof.
  intros Hf. unfold scored_graph, dict_values. cbn [nodes set_nodes].
  rewrite !map_map. f_equal. apply map_ext. intros [k n]. apply Hf.
Qed.

Lemma graph_max_degree_scored g :
  graph_max_degree (scored_graph g) = graph_max_degree g.
Proof. by apply max_list_scored. Qed.

Lemma graph_max_depth_scored g :
  graph_max_depth (scored_graph g) = graph_max_depth g.
Proof. by apply max_list_scored. Qed.

Lemma scored_graph_idem g : scored_graph (scored_graph g) = scored_graph g.
Proof.
  unfold scored_graph at 1.
  rewrite graph_max_degree_scored, graph_max_depth_scored.
  unfold scored_graph, set_nodes. cbn [nodes root_project]. f_equal.
  rewrite map_map. apply map_ext. intros [k n]. reflexivity.
Qed.

(** X6. A graph that [parse_tree_text] returned is a fixed point of the
    scorer: [_calculate_scores] returns it unchanged, and so does parsing
    a text of blanks into it. *)
Theorem scoring_again_changes_nothing (self : DependencyGraph) (tree_text : str) :
  exists g,
    parse_tree_text self tree_text = Ok g
    /\ _calculate_scores g = Ok g
    /\ forall blank, strip blank = [] -> parse_tree_text g blank = Ok g.
Proof.
  destruct (parse_tree_text_spec self tree_text) as (st & _ & ->).
  exists (scored_graph st.1). split; [done|].
  assert (_calculate_scores (scored_graph st.1) = Ok (scored_graph st.1)) as Hs.
  { by rewrite _calculate_scores_spec, scored_graph_idem. }
  split; [exact Hs|].
  intros blank Hblank. unfold parse_tree_text. rewrite Hblank.
  cbn [split for_each]. unfold parse_line. cbn [strip rstrip lstrip drop_while rev app].
  rewrite !bind_Ok. exact Hs.
Qed.

(** ** The ends of the scale *)

Section ScoreFacts.
Local Open Scope Q_scope.

Lemma binary64_0 q : q == 0 -> binary64 q = 0.
Proof. intros H. by rewrite (binary64_proper _ _ H). Qed.

Lemma float_quotient_0 b : float_quotient 0 b = 0.
Proof.
  unfold float_quotient. apply binary64_0.
  change (inject_Z (Z.of_nat 0)) with 0. apply Qmult_0_l.
Qed.

Lemma float_quotient_same b : (0 < b)%nat -> float_quotient b b = 1.
Proof.
  intros Hb. unfold float_quotient.
  rewrite (binary64_proper _ 1); [by vm_compute|].
  apply Qmult_inv_r. change 0 with (inject_Z 0). rewrite inject_Z_injective. lia.
Qed.

Lemma float_mul_0_l x : float_mul 0 x = 0.
Proof. unfold float_mul. apply binary64_0, Qmult_0_l. Qed.
End ScoreFacts.

(** X7. After a parse, a node without any edge has centrality 0 and
    impact 0 and is assessed LOW; a node whose degree is the greatest of
    the graph (and not 0) has centrality exactly 1.0, and impact exactly
    1.0 when it is direct and at depth 0 (the boost of 1.2 is clamped). *)
Theorem scores_at_the_ends_of_the_scale (self : DependencyGraph) (tree_text : str) :
  exists g,
    parse_tree_text self tree_text = Ok g
    /\ forall k n,
        dict_get k (nodes g) = Some n ->
        (degree n = 0 ->
         centrality_score n = 0%Q /\ impact_score n = 0%Q
         /\ exists info,
             get_dependency_info g k = Ok (Some info)
             /\ risk_assessment info
                = Some (py "LOW - Isolated dependency, changes likely contained"))
        /\ (0 < degree n -> degree n = graph_max_degree g ->
            centrality_score n = 1%Q
            /\ (is_direct n = true -> depth n = 0 -> impact_score n = 1%Q)).
Proof.
  destruct (parse_tree_text_spec self tree_text) as (st & _ & ->).
  set (g0 := st.1). exists (scored_graph g0). split; [done|].
  intros k n' Hn'. rewrite graph_max_degree_scored.
  pose proof Hn' as Hget. rewrite scored_graph_get in Hn'.
  apply fmap_Some in Hn' as (n & Hn & ->).
  set (md := Nat.max (graph_max_degree g0) 1) in *.
  set (mx := Nat.max (graph_max_depth g0) 1) in *.
  assert (degree (scored md mx n) = degree n) as -> by done.
  split.
  - intros Hdeg.
    assert (centrality_score (scored md mx n) = 0%Q) as Hc.
    { unfold scored. cbn [centrality_score set_scores].
      rewrite Hdeg. apply float_quotient_0. }
    assert (impact_score (scored md mx n) = 0%Q) as Hi.
    { unfold scored. cbn [impact_score set_scores].
      rewrite Hdeg, float_quotient_0, !float_mul_0_l. by vm_compute. }
    split_and!; [done|done|].
    unfold get_dependency_info, dict_in, dict_item. rewrite Hget.
    cbn [negb]. rewrite bind_Ok, Hi. eexists. split; [reflexivity|].
    cbn [risk_assessment with_risk_assessment]. f_equal.
  - intros Hpos Hmax.
    assert (md = degree n) as Hmd by (subst md; lia).
    assert (centrality_score (scored md mx n) = 1%Q) as Hc.
    { unfold scored. cbn [centrality_score set_scores].
      rewrite Hmd. by apply float_quotient_same. }
    split; [done|].
    unfold scored.
    cbn [impact_score is_direct depth set_scores]. intros -> ->.
    rewrite Hmd, float_quotient_same, float_quotient_0 by done.
    by vm_compute.
Qed.

(** ** The scores a query reports *)

Section RoundFacts.
Local Open Scope Z_scope.
Local Open Scope Q_scope.

Lemma round_half_even_error q :
  Qabs (inject_Z (round_half_even q) - q) <= 1 # 2.
Proof.
  destruct q as [n d]. unfold round_half_even. cbn [Qnum Qden].
  pose proof (Z.div_mod n (Z.pos d) ltac:(done)) as Hdm.
  pose proof (Z.mod_pos_bound n (Z.pos d) ltac:(done)) as Hb.
  set (f := (n / Z.pos d)%Z) in *.
  set (r := (n mod Z.pos d)%Z) in *.
  assert (n - f * Z.pos d = r)%Z as -> by lia.
  apply Qabs_Qle_condition.
  assert (forall k : Z,
            (2 * (k * Z.pos d - n) <= Z.pos d)%Z ->
            (2 * (n - k * Z.pos d) <= Z.pos d)%Z ->
            - (1 # 2) <= inject_Z k - (n # d) /\ inject_Z k - (n # d) <= 1 # 2)
    as Hk.
  { intros k H1 H2. unfold Qle, Qminus, Qplus, Qopp, inject_Z.
    cbn [Qnum Qden]. split; lia. }
  destruct (Z.ltb_spec (2 * r) (Z.pos d)); [apply Hk; lia|].
  destruct (Z.ltb_spec (Z.pos d) (2 * r)); [apply Hk; lia|].
  destruct (Z.even f); apply Hk; lia.
Qed.

Lemma round3_three_decimals x : three_decimals_of x (round3 x).
Proof.
  exists (round_half_even (x * 1000)). split; [reflexivity|].
  pose proof (round_half_even_error (x * 1000)) as H.
  apply Qabs_Qle_condition in H as [H1 H2].
  apply Qabs_Qle_condition. split.
  - apply Qmult_le_r with 1000; [done|]. field_simplify.
    field_simplify in H1. lra.
  - apply Qmult_le_r with 1000; [done|]. field_simplify.
    field_simplify in H2. lra.
Qed.

Lemma round3_unit_interval x : 0 <= x -> x <= 1 -> 0 <= round3 x /\ round3 x <= 1.
Proof.
  intros H0 H1. unfold round3.
  assert (0 <= round_half_even (x * 1000))%Z as Hlo.
  { apply round_half_even_nonneg. nra. }
  assert (round_half_even (x * 1000) <= 1000)%Z as Hhi.
  { apply round_half_even_le_int. change (inject_Z 1000) with 1000. nra. }
  apply binary64_unit_interval.
  - apply Qle_shift_div_l; [done|]. rewrite Qmult_0_l.
    change 0 with (inject_Z 0). by rewrite <- Zle_Qle.
  - apply Qle_shift_div_r; [done|]. rewrite Qmult_1_l.
    change 1000 with (inject_Z 1000). by rewrite <- Zle_Qle.
Qed.
End RoundFacts.

Lemma scored_unit_interval md mx n :
  degree n <= md -> 0 < md ->
  (0 <= centrality_score (scored md mx n) <= 1)%Q
  /\ (0 <= impact_score (scored md mx n) <= 1)%Q.
Proof.
  intros Hle Hpos. unfold scored. cbn [centrality_score impact_score set_scores].
  split.
  - by apply float_quotient_unit_interval.
  - apply clamp_unit_interval.
Qed.

Lemma degree_le_graph_max g k n :
  dict_get k (nodes g) = Some n -> degree n <= graph_max_degree g.
Proof.
  intros Hn. apply max_list_elem_of_le, list_elem_of_fmap. exists n.
  split; [done|]. apply list_elem_of_fmap. exists (k, n).
  split; [done|]. by apply dict_get_elem.
Qed.

(** X8. The scores [get_dependency_info] reports for a node of a parsed
    graph are the stored scores rounded to three decimals: each is the
    double nearest to j/1000 for an integer j with |j/1000 - score| at
    most 0.0005, and each lies between 0 and 1. *)
Theorem reported_scores_are_rounded_to_three_decimals
  (self : DependencyGraph) (tree_text : str) :
  exists g,
    parse_tree_text self tree_text = Ok g
    /\ forall k n,
        dict_get k (nodes g) = Some n ->
        exists info,
          get_dependency_info g k = Ok (Some info)
          /\ three_decimals_of (centrality_score n) (dict_centrality_score info)
          /\ three_decimals_of (impact_score n) (dict_impact_score info)
          /\ (0 <= dict_centrality_score info <= 1)%Q
          /\ (0 <= dict_impact_score info <= 1)%Q.
Proof.
  destruct (parse_tree_text_spec self tree_text) as (st & _ & ->).
  set (g0 := st.1). exists (scored_graph g0). split; [done|].
  intros k n' Hn'.
  destruct (get_dependency_info_scores _ _ _ Hn') as (info & Hi & Hc & Himp & _).
  exists info. rewrite Hc, Himp. split; [exact Hi|]. clear Hi Hc Himp.
  rewrite scored_graph_get in Hn'. apply fmap_Some in Hn' as (n & Hn & ->).
  destruct (scored_unit_interval (Nat.max (graph_max_degree g0) 1)
              (Nat.max (graph_max_depth g0) 1) n) as [[? ?] [? ?]].
  { pose proof (degree_le_graph_max _ _ _ Hn). lia. }
  { lia. }
  split; [apply round3_three_decimals|].
  split; [apply round3_three_decimals|].
  split; by apply round3_unit_interval.
Qed.

(** ** The engine on any graph *)

Lemma get_dependency_info_total self key :
  exists o, get_dependency_info self key = Ok o.
Proof.
  pose proof (get_dependency_info_get self key) as H.
  destruct (dict_get key (nodes self)); [|by eexists].
  destruct H as (info & -> & _). by eexists.
Qed.

Lemma supplied_versions_table apv p :
  supplied_versions apv p
  = dict_get p (match apv with Some ((_ :: _) as d) => d | _ => [] end).
Proof. by destruct apv as [[|? ?]|]. Qed.

(** The call [get_upgrade_strategy] ends in. *)
Lemma get_upgrade_strategy_cases graph key cur tgt apv :
  get_upgrade_strategy graph key cur tgt apv
  = _create_direct_upgrade key cur tgt
  \/ exists node p ps,
      dict_get key (nodes graph) = Some node
      /\ is_direct node = false
      /\ parents node = p :: ps
      /\ match supplied_versions apv p with
         | Some (latest :: _) =>
             get_upgrade_strategy graph key cur tgt apv
             = _create_parent_upgrade key cur tgt p (parent_current graph p)
                 latest
         | _ =>
             match dict_get key SPRING_BOOT_BOM_PROPERTIES with
             | Some bom_property =>
                 get_upgrade_strategy graph key cur tgt apv
                 = _create_bom_override key cur tgt bom_property p
             | None =>
                 get_upgrade_strategy graph key cur tgt apv
                 = if is_same_major_minor cur tgt then
                     _create_force_override key cur tgt p (py "MEDIUM")
                   else if is_same_major cur tgt then
                     _create_force_override key cur tgt p (py "HIGH")
                   else _create_cannot_upgrade key cur tgt p
             end
         end.
Proof.
  unfold get_upgrade_strategy.
  pose proof (get_dependency_info_get graph key) as Hinfo.
  destruct (dict_get key (nodes graph)) as [node|] eqn:Hkey.
  2:{ left. by rewrite Hinfo. }
  destruct Hinfo as (info & -> & _ & _ & _ & Hd & Hps & _).
  rewrite bind_Ok, Hd. destruct (is_direct node) eqn:Hdir; [by left|].
  unfold _analyze_transitive_upgrade. rewrite Hps.
  destruct (parents node) as [|p ps] eqn:Hpar; [by left|].
  right. exists node, p, ps. split_and!; try done.
  cbn [subscript lookup list_lookup]. rewrite bind_Ok.
  assert (exists pinfo,
            get_dependency_info graph p = Ok pinfo
            /\ match pinfo with
               | Some info => dict_version info
               | None => py "unknown"
               end = parent_current graph p) as (pinfo & -> & Hpc).
  { unfold parent_current.
    pose proof (get_dependency_info_get graph p) as Hp.
    destruct (dict_get p (nodes graph)) as [pn|].
    - destruct Hp as (pi & -> & _ & Hv & _). by exists (Some pi).
    - by exists None. }
  rewrite bind_Ok, Hpc, supplied_versions_table.
  match goal with |- context [dict_in p ?d] => set (D := d) end.
  unfold dict_in, dict_item.
  destruct (dict_get p D) as [[|latest rest]|];
    rewrite ?bind_Ok; cbn [subscript lookup list_lookup]; rewrite ?bind_Ok.
  - destruct (dict_get key SPRING_BOOT_BOM_PROPERTIES); by rewrite ?bind_Ok.
  - by destruct (_create_parent_upgrade key cur tgt p (parent_current graph p) latest).
  - destruct (dict_get key SPRING_BOOT_BOM_PROPERTIES); by rewrite ?bind_Ok.
Qed.

Lemma unpack2_split_cases k :
  (exists g a, split COLON k = [g; a] /\ unpack2 (split COLON k) = Ok (g, a))
  \/ (~ is_ga k /\ unpack2 (split COLON k) = Raise ValueError).
Proof.
  unfold is_ga. destruct (split COLON k) as [|g [|a [|x l]]].
  - right. split; [|done]. by intros (? & ? & ?).
  - right. split; [|done]. by intros (? & ? & ?).
  - left. by exists g, a.
  - right. split; [|done]. by intros (? & ? & ?).
Qed.

Lemma bom_keys_are_ga key prop :
  dict_get key SPRING_BOOT_BOM_PROPERTIES = Some prop -> is_ga key.
Proof.
  intros H.
  assert (Forall (fun k => length (split COLON k) = 2)
            (dict_keys SPRING_BOOT_BOM_PROPERTIES)) as Hall.
  { apply (bool_decide_unpack _). vm_compute. exact I. }
  assert (key ∈ dict_keys SPRING_BOOT_BOM_PROPERTIES) as Hin.
  { apply dict_get_keys. by eexists. }
  pose proof (proj1 (Forall_forall _ _) Hall key Hin) as Hlen.
  cbv beta in Hlen. unfold is_ga. destruct (split COLON key) as [|g [|a [|x l]]]; try done.
  by exists g, a.
Qed.

Lemma _create_direct_upgrade_cases key cur tgt :
  (exists r, _create_direct_upgrade key cur tgt = Ok r
             /\ answers key cur tgt r /\ strategy r = DIRECT_UPGRADE
             /\ risk_level r = direct_risk cur tgt)
  \/ (~ is_ga key /\ _create_direct_upgrade key cur tgt = Raise ValueError).
Proof.
  unfold _create_direct_upgrade.
  destruct (unpack2_split_cases key) as [(g & a & _ & ->)|[Hk ->]]; [left|by right].
  rewrite bind_Ok. eexists. split; [reflexivity|]. by repeat split.
Qed.

Lemma _create_parent_upgrade_cases key cur tgt p pc latest :
  (exists r, _create_parent_upgrade key cur tgt p pc latest = Ok r
             /\ answers key cur tgt r /\ strategy r = PARENT_UPGRADE
             /\ risk_level r = py "LOW"
             /\ upgrade_target_ga r = p /\ upgrade_target_version r = latest
             /\ parent_current_version r = Some pc
             /\ steps r !! 2
                = Some (py "3. Change " ++ p ++ py " from " ++ pc
                          ++ py " to " ++ latest))
  \/ (~ is_ga p /\ _create_parent_upgrade key cur tgt p pc latest = Raise ValueError).
Proof.
  unfold _create_parent_upgrade.
  destruct (unpack2_split_cases p) as [(g & a & _ & ->)|[Hk ->]]; [left|by right].
  rewrite bind_Ok. eexists. split; [reflexivity|]. by repeat split.
Qed.

Lemma _create_bom_override_ok key cur tgt prop p :
  is_ga key ->
  exists r, _create_bom_override key cur tgt prop p = Ok r
            /\ answers key cur tgt r /\ strategy r = BOM_OVERRIDE
            /\ risk_level r = (if is_same_major_minor cur tgt
                               then py "LOW" else py "MEDIUM").
Proof.
  intros (g & a & E). unfold _create_bom_override. rewrite E.
  cbn [subscript lookup list_lookup]. rewrite bind_Ok.
  eexists. split; [reflexivity|]. by repeat split.
Qed.

Lemma _create_force_override_cases key cur tgt p risk :
  (exists r, _create_force_override key cur tgt p risk = Ok r
             /\ answers key cur tgt r /\ strategy r = FORCE_OVERRIDE
             /\ risk_level r = risk)
  \/ (~ is_ga key /\ _create_force_override key cur tgt p risk = Raise ValueError).
Proof.
  unfold _create_force_override.
  destruct (unpack2_split_cases key) as [(g & a & _ & ->)|[Hk ->]]; [left|by right].
  rewrite bind_Ok. eexists. split; [reflexivity|]. by repeat split.
Qed.

Lemma _create_cannot_upgrade_ok key cur tgt p :
  exists r, _create_cannot_upgrade key cur tgt p = Ok r
            /\ answers key cur tgt r /\ strategy r = CANNOT_UPGRADE
            /\ risk_level r = py "CRITICAL".
Proof. eexists. split; [reflexivity|]. by repeat split. Qed.

(** What [get_upgrade_strategy] returns, and when it raises. *)
Lemma get_upgrade_strategy_outcome graph key cur tgt apv :
  (exists r,
      get_upgrade_strategy graph key cur tgt apv = Ok r
      /\ answers key cur tgt r
      /\ (   strategy r = DIRECT_UPGRADE /\ risk_level r = direct_risk cur tgt
          \/ strategy r = PARENT_UPGRADE /\ risk_level r = py "LOW"
          \/ strategy r = BOM_OVERRIDE
             /\ risk_level r = (if is_same_major_minor cur tgt
                                then py "LOW" else py "MEDIUM")
          \/ strategy r = FORCE_OVERRIDE
             /\ risk_level r = (if is_same_major_minor cur tgt
                                then py "MEDIUM" else py "HIGH")
          \/ strategy r = CANNOT_UPGRADE /\ risk_level r = py "CRITICAL"))
  \/ (get_upgrade_strategy graph key cur tgt apv = Raise ValueError
      /\ (~ is_ga key
          \/ exists node p ps,
              dict_get key (nodes graph) = Some node
              /\ parents node = p :: ps /\ ~ is_ga p)).
Proof.
  destruct (get_upgrade_strategy_cases graph key cur tgt apv)
    as [->|(node & p & ps & Hkey & Hdir & Hpar & Hcase)].
  { destruct (_create_direct_upgrade_cases key cur tgt)
      as [(r & -> & ? & ? & ?)|[? ->]]; [left|right; auto].
    exists r. split_and!; auto. }
  destruct (supplied_versions apv p) as [[|latest rest]|].
  2:{ rewrite Hcase.
      destruct (_create_parent_upgrade_cases key cur tgt p
                  (parent_current graph p) latest)
        as [(r & -> & ? & ? & ? & _)|[? ->]]; [left|right].
      - exists r. split_and!; auto.
      - split; [done|]. right. by exists node, p, ps. }
  all: destruct (dict_get key SPRING_BOOT_BOM_PROPERTIES) as [prop|] eqn:Ebom;
    rewrite Hcase;
    [ destruct (_create_bom_override_ok key cur tgt prop p)
        as (r & -> & ? & ? & ?); [by eapply bom_keys_are_ga|];
      left; exists r; split_and!; auto
    | destruct (is_same_major_minor cur tgt) eqn:Emm;
      [ destruct (_create_force_override_cases key cur tgt p (py "MEDIUM"))
          as [(r & -> & ? & ? & ?)|[? ->]]; [left|right; auto];
        exists r; split_and!; auto 10
      | destruct (is_same_major cur tgt);
        [ destruct (_create_force_override_cases key cur tgt p (py "HIGH"))
            as [(r & -> & ? & ? & ?)|[? ->]]; [left|right; auto];
          exists r; split_and!; auto 10
        | destruct (_create_cannot_upgrade_ok key cur tgt p)
            as (r & -> & ? & ? & ?);
          left; exists r; split_and!; auto 10 ] ] ].
Qed.

(** X9. On any graph, a recommendation [get_upgrade_strategy] returns is
    about the request (it repeats the key and the two versions) and its
    fields fit its strategy: a parent is named exactly by a
    PARENT_UPGRADE, which aims at that parent and its target version;
    every other strategy aims at the vulnerable key and the target
    version. The risk is one of LOW, MEDIUM, HIGH and CRITICAL, and it is
    CRITICAL exactly for CANNOT_UPGRADE. *)
Theorem recommendation_answers_the_request (graph : DependencyGraph)
  (key cur tgt : str) (apv : option (dict (list str)))
  (r : UpgradeRecommendation) :
  get_upgrade_strategy graph key cur tgt apv = Ok r ->
  answers key cur tgt r
  /\ risk_level r ∈ [py "LOW"; py "MEDIUM"; py "HIGH"; py "CRITICAL"]
  /\ (strategy r = CANNOT_UPGRADE <-> risk_level r = py "CRITICAL").
Proof.
  intros Hr.
  destruct (get_upgrade_strategy_outcome graph key cur tgt apv)
    as [(r' & Hr' & Hans & Hcase)|[Hraise _]]; [|congruence].
  rewrite Hr in Hr'. injection Hr' as <-. split; [exact Hans|].
  assert (direct_risk cur tgt ∈ [py "LOW"; py "MEDIUM"; py "HIGH"]) as Hdr.
  { unfold direct_risk.
    destruct (str_eqb _ _); [|destruct (str_eqb _ _)];
      rewrite !elem_of_cons; auto 6. }
  destruct Hcase as [[-> ->]|[[-> ->]|[[-> ->]|[[-> ->]|[-> ->]]]]].
  - split; [rewrite !elem_of_cons in *; tauto|]. split; [done|].
    intros E. rewrite E in Hdr.
    exfalso. revert Hdr. rewrite !elem_of_cons, elem_of_nil.
    intros [?|[?|[?|?]]]; done.
  - split; [rewrite !elem_of_cons; auto 6|]. by split.
  - split; [destruct (is_same_major_minor cur tgt); rewrite !elem_of_cons; auto 6|].
    split; [done|]. by destruct (is_same_major_minor cur tgt).
  - split; [destruct (is_same_major_minor cur tgt); rewrite !elem_of_cons; auto 6|].
    split; [done|]. by destruct (is_same_major_minor cur tgt).
  - split; [rewrite !elem_of_cons; auto 6|]. by split.
Qed.

Lemma recommendation_answers_the_request_witness :
  exists r,
    get_upgrade_strategy test_graph
      (py "org.apache.tomcat.embed:tomcat-embed-core") (py "10.1.42")
      (py "10.1.45") None = Ok r
    /\ answers (py "org.apache.tomcat.embed:tomcat-embed-core") (py "10.1.42")
         (py "10.1.45") r
    /\ risk_level r ∈ [py "LOW"; py "MEDIUM"; py "HIGH"; py "CRITICAL"]
    /\ (strategy r = CANNOT_UPGRADE <-> risk_level r = py "CRITICAL").
Proof.
  eexists.
  assert (get_upgrade_strategy test_graph
            (py "org.apache.tomcat.embed:tomcat-embed-core") (py "10.1.42")
            (py "10.1.45") None = Ok _) as H by (vm_compute; reflexivity).
  split; [exact H|].
  exact (recommendation_answers_the_request _ _ _ _ _ _ H).
Defined.

(** X10. On any graph and for versions whose runs of digits [int()]
    accepts, [get_upgrade_strategy] raises nothing but ValueError, and
    raises it only for a key that is not of the form group:artifact or for
    a node whose first recorded parent is not of that form. *)
Theorem strategy_raises_only_on_malformed_keys (graph : DependencyGraph)
  (key cur tgt : str) (apv : option (dict (list str))) (e : exn) :
  readable cur = true ->
  readable tgt = true ->
  get_upgrade_strategy graph key cur tgt apv = Raise e ->
  e = ValueError
  /\ (~ is_ga key
      \/ exists node p ps,
          dict_get key (nodes graph) = Some node
          /\ parents node = p :: ps /\ ~ is_ga p).
Proof.
  intros _ _ He.
  destruct (get_upgrade_strategy_outcome graph key cur tgt apv)
    as [(r & Hr & _)|[Hraise Hwhy]]; [congruence|].
  rewrite He in Hraise. by injection Hraise as ->.
Qed.

Lemma strategy_raises_only_on_malformed_keys_witness :
  readable (py "10.1.42") = true
  /\ readable (py "10.1.45") = true
  /\ get_upgrade_strategy test_graph (py "tomcat-embed-core") (py "10.1.42")
       (py "10.1.45") None = Raise ValueError
  /\ ValueError = ValueError
  /\ (~ is_ga (py "tomcat-embed-core")
      \/ exists node p ps,
          dict_get (py "tomcat-embed-core") (nodes test_graph) = Some node
          /\ parents node = p :: ps /\ ~ is_ga p).
Proof.
  assert (readable (py "10.1.42") = true) as Hcur by (vm_compute; reflexivity).
  assert (readable (py "10.1.45") = true) as Htgt by (vm_compute; reflexivity).
  assert (get_upgrade_strategy test_graph (py "tomcat-embed-core")
            (py "10.1.42") (py "10.1.45") None = Raise ValueError) as H
    by (vm_compute; reflexivity).
  split; [exact Hcur|]. split; [exact Htgt|]. split; [exact H|].
  exact (strategy_raises_only_on_malformed_keys _ _ _ _ _ _ Hcur Htgt H).
Defined.

(** X11. In a parsed graph a PARENT_UPGRADE never reports an unknown
    parent: for a transitive node with a recorded parent for which the
    caller supplied versions, the recommendation names the version the
    parent's node has in the graph as the current one and the first
    supplied version as the target, and its third step reads
    "3. Change <parent> from <current> to <target>". *)
Theorem parent_upgrade_names_the_versions (tree_text : str) :
  exists g,
    parse_dependency_tree tree_text = Ok g
    /\ forall key node p ps cur tgt apv latest rest,
        dict_get key (nodes g) = Some node ->
        is_direct node = false ->
        parents node = p :: ps ->
        supplied_versions apv p = Some (latest :: rest) ->
        exists r pn,
          get_upgrade_strategy g key cur tgt apv = Ok r
          /\ dict_get p (nodes g) = Some pn
          /\ strategy r = PARENT_UPGRADE
          /\ parent_to_upgrade r = Some p
          /\ parent_current_version r = Some (version pn)
          /\ parent_target_version r = Some latest
          /\ steps r !! 2
             = Some (py "3. Change " ++ p ++ py " from " ++ version pn
                       ++ py " to " ++ latest).
Proof.
  destruct (parse_tree_text_spec new_graph tree_text) as (st & _ & Hparse).
  pose proof (parse_dependency_tree_ok _ _ Hparse) as [_ Hok].
  eexists. split; [exact Hparse|]. set (g := scored_graph st.1) in *.
  intros key node p ps cur tgt apv latest rest Hkey Hdir Hpar Hsup.
  destruct (Hok _ _ Hkey) as (_ & _ & _ & _ & Hpin & _).
  assert (is_Some (dict_get p (nodes g))) as [pn Hp].
  { apply Hpin. rewrite Hpar. by left. }
  destruct (Hok _ _ Hp) as (_ & Hpga & _).
  destruct (get_upgrade_strategy_cases g key cur tgt apv)
    as [E|(node' & p' & ps' & Hkey' & _ & Hpar' & Hcase)].
  { exfalso. revert E. unfold get_upgrade_strategy.
    pose proof (get_dependency_info_get g key) as Hinfo. rewrite Hkey in Hinfo.
    destruct Hinfo as (info & -> & _ & _ & _ & Hd & Hps & _).
    rewrite bind_Ok, Hd, Hdir. unfold _analyze_transitive_upgrade.
    rewrite Hps, Hpar. cbn [subscript lookup list_lookup]. rewrite bind_Ok.
    destruct (get_dependency_info_total g p) as [pinfo ->]. rewrite bind_Ok.
    rewrite supplied_versions_table in Hsup.
    unfold dict_in, dict_item. rewrite Hsup, bind_Ok.
    cbn [subscript lookup list_lookup]. rewrite bind_Ok.
    unfold _create_parent_upgrade, _create_direct_upgrade.
    destruct Hpga as (pg & pa & ->). cbn [unpack2]. rewrite !bind_Ok.
    destruct (unpack2 (split COLON key)) as [[? ?]|]; [|done].
    rewrite bind_Ok. intros [=]. }
  rewrite Hkey in Hkey'. injection Hkey' as <-.
  rewrite Hpar in Hpar'. injection Hpar' as <- <-.
  rewrite Hsup in Hcase.
  destruct (_create_parent_upgrade_cases key cur tgt p (parent_current g p) latest)
    as [(r & Hr & (_ & _ & _ & Hans) & Hs & _ & Ht & Htv & Hpc & Hstep)|[Hno _]];
    [|done].
  unfold parent_current in *. rewrite Hp in *. rewrite Hs in Hans.
  destruct Hans as (Hpu & Hptv & _).
  exists r, pn. split_and!; try done; congruence.
Qed.

(** ** Jumps and the two ladders of risk *)

(** X12. The three comparisons of versions agree: a jump is a patch jump
    exactly when the versions have the same major.minor, and a major jump
    exactly when they do not have the same major; the type of a jump does
    not depend on its direction, and the same major.minor implies the same
    major. *)
Theorem jump_type_agrees_with_same_major_minor (v1 v2 : str) :
  (version_jump_type v1 v2 = py "patch" <-> is_same_major_minor v1 v2 = true)
  /\ (version_jump_type v1 v2 = py "major" <-> is_same_major v1 v2 = false)
  /\ (version_jump_type v1 v2 = py "minor"
      <-> is_same_major v1 v2 = true /\ is_same_major_minor v1 v2 = false)
  /\ version_jump_type v1 v2 = version_jump_type v2 v1
  /\ (is_same_major_minor v1 v2 = true -> is_same_major v1 v2 = true).
Proof.
  unfold version_jump_type, is_same_major_minor, is_same_major. cbv zeta.
  rewrite (N.eqb_sym (major_of (parse_version v2))),
    (N.eqb_sym (minor_of (parse_version v2))).
  destruct (major_of (parse_version v1) =? major_of (parse_version v2))%N;
    destruct (minor_of (parse_version v1) =? minor_of (parse_version v2))%N;
    cbn [negb andb]; split_and!; try done; split; try done;
    by intros [? ?].
Qed.

(** ** Scanning a line *)

Section ScanFacts.
Context {A : Type} (p : A -> bool).

Lemma take_while_app_all l r :
  forallb p l = true -> take_while p (l ++ r) = l ++ take_while p r.
Proof.
  induction l as [|x l IH]; [done|]. cbn [forallb app take_while].
  intros [-> H]%andb_true_iff. by rewrite IH.
Qed.

Lemma drop_while_app_all l r :
  forallb p l = true -> drop_while p (l ++ r) = drop_while p r.
Proof.
  induction l as [|x l IH]; [done|]. cbn [forallb app drop_while].
  intros [-> H]%andb_true_iff. by rewrite IH.
Qed.

Lemma take_while_all l : forallb p l = true -> take_while p l = l.
Proof.
  intros H. rewrite <- (app_nil_r l) at 1.
  rewrite take_while_app_all by done. apply app_nil_r.
Qed.

Lemma drop_while_all l : forallb p l = true -> drop_while p l = [].
Proof.
  intros H. rewrite <- (app_nil_r l) at 1. by rewrite drop_while_app_all.
Qed.
End ScanFacts.

Lemma count_filter_kept (f : char -> bool) c l :
  f c = true -> count c (List.filter f l) = count c l.
Proof.
  intros Hc. unfold count. induction l as [|x l IH]; [done|].
  cbn [List.filter]. destruct (f x) eqn:Hx.
  - rewrite !filter_cons. destruct (decide (x = c)); cbn [length]; by rewrite IH.
  - rewrite filter_cons_False; [done|]. intros ->. congruence.
Qed.

Lemma contains_filter_kept (f : char -> bool) c l :
  f c = true -> contains c (List.filter f l) = contains c l.
Proof.
  intros Hc. unfold contains. induction l as [|x l IH]; [done|].
  cbn [List.filter existsb]. destruct (f x) eqn:Hx.
  - cbn [existsb]. by rewrite IH.
  - destruct (N.eqb_spec c x) as [->|_]; [congruence|]. exact IH.
Qed.

(** X13. The depth of a line is read from its leading run of tree
    characters alone: it is the number of vertical bars in the run, plus
    one if the run has a branch character. Blanks and dashes in the run
    count for nothing, so a level that is indented by blanks only is not
    counted, and neither is anything behind the first other character. *)
Theorem depth_is_read_from_the_prefix (prefix : str) (c : char) (rest : str) :
  forallb tree_char prefix = true ->
  tree_char c = false ->
  _calculate_depth (prefix ++ c :: rest) = prefix_depth prefix
  /\ _calculate_depth prefix = prefix_depth prefix
  /\ prefix_depth prefix
     = prefix_depth (List.filter (fun x => negb (isspace x || (x =? BOX_H)%N))
                       prefix).
Proof.
  intros Hp Hc. unfold _calculate_depth. split_and!.
  - rewrite take_while_app_all by done. cbn [take_while]. rewrite Hc.
    by rewrite app_nil_r.
  - by rewrite take_while_all.
  - unfold prefix_depth.
    by rewrite count_filter_kept, !contains_filter_kept.
Qed.

Lemma depth_is_read_from_the_prefix_witness :
  let prefix := py "│   │   │       └── " in
  let rest := py "rg.springframework:spring-jcl:6.2.8" in
  forallb tree_char prefix = true
  /\ tree_char 111%N = false
  /\ _calculate_depth (prefix ++ 111%N :: rest) = prefix_depth prefix
  /\ _calculate_depth prefix = prefix_depth prefix
  /\ prefix_depth prefix
     = prefix_depth (List.filter (fun x => negb (isspace x || (x =? BOX_H)%N))
                       prefix).
Proof.
  intros prefix rest.
  assert (forallb tree_char prefix = true) as H1 by (vm_compute; reflexivity).
  assert (tree_char 111%N = false) as H2 by (vm_compute; reflexivity).
  split; [exact H1|]. split; [exact H2|].
  exact (depth_is_read_from_the_prefix prefix 111%N rest H1 H2).
Defined.

(** ** Reading a coordinate back *)

Lemma delete_matches_from_skip (m : str -> option nat) l r :
  delete_matches_from m (length l) (l ++ r) = delete_matches_from m 0 r.
Proof. induction l as [|x l IH]; [done|]. exact IH. Qed.

Lemma delete_matches_solid s t :
  solid s = true ->
  delete_matches annotation_match (s ++ t)
  = s ++ delete_matches annotation_match t.
Proof.
  unfold delete_matches, solid. induction s as [|c s IH]; [done|].
  cbn [forallb]. intros [[Hs Hl]%andb_true_iff H]%andb_true_iff.
  apply negb_true_iff in Hs, Hl.
  cbn [app delete_matches_from]. unfold annotation_match at 1.
  cbn [drop_while]. rewrite Hs, Hl. by rewrite IH.
Qed.

Lemma delete_matches_annotation blanks note blanks' :
  forallb isspace blanks = true ->
  forallb (fun x => negb (x =? RPAREN)%N) note = true ->
  forallb isspace blanks' = true ->
  delete_matches annotation_match
    (blanks ++ [LPAREN] ++ note ++ [RPAREN] ++ blanks') = [].
Proof.
  intros Hb Hn Hb'. unfold delete_matches.
  set (ann := blanks ++ [LPAREN] ++ note ++ [RPAREN] ++ blanks').
  assert (annotation_match ann = Some (length ann)) as Hm.
  { unfold annotation_match, ann.
    rewrite drop_while_app_all, take_while_app_all by done.
    cbn [app drop_while take_while].
    assert (isspace LPAREN = false) as -> by done.
    rewrite N.eqb_refl, drop_while_app_all, take_while_app_all by done.
    cbn [drop_while take_while]. rewrite N.eqb_refl. cbn [negb].
    rewrite take_while_all by done.
    rewrite !length_app. cbn [length]. rewrite !length_app. cbn [length].
    f_equal. lia. }
  destruct ann as [|c r] eqn:E.
  { exfalso. subst ann. by destruct blanks. }
  cbn [delete_matches_from]. rewrite Hm. cbn [length].
  rewrite <- (app_nil_r r) at 2. by rewrite delete_matches_from_skip.
Qed.

Lemma strip_solid s : solid s = true -> strip s = s.
Proof.
  intros Hs. unfold strip, lstrip, rstrip.
  assert (forall t, solid t = true -> drop_while isspace t = t) as Hd.
  { intros [|c t]; [done|]. unfold solid. cbn [forallb drop_while].
    intros [[Hc _]%andb_true_iff _]%andb_true_iff.
    apply negb_true_iff in Hc. by rewrite Hc. }
  rewrite (Hd s Hs), Hd; [apply rev_involutive|].
  unfold solid in *. rewrite forallb_forall in *.
  intros x Hx. apply Hs. by apply in_rev.
Qed.

Lemma plain_facts p :
  plain p = true ->
  p ≠ [] /\ (COLON ∉ p) /\ solid p = true
  /\ forall c, head p = Some c -> tree_char c = false.
Proof.
  destruct p as [|c0 p0]; [done|]. unfold plain.
  set (p := c0 :: p0). intros H. rewrite forallb_forall in H.
  assert (forall c, c ∈ p ->
            c ≠ COLON /\ c ≠ LPAREN /\ tree_char c = false) as Hc.
  { intros c Hin%list_elem_of_In. specialize (H c Hin).
    apply andb_true_iff in H as [[H1 H2]%andb_true_iff H3].
    apply negb_true_iff in H1, H2, H3.
    apply N.eqb_neq in H1, H2. done. }
  split_and!.
  - done.
  - intros Hin. by destruct (Hc _ Hin).
  - unfold solid. apply forallb_forall. intros c Hin%list_elem_of_In.
    destruct (Hc _ Hin) as (_ & Hl & Ht).
    apply andb_true_iff. split; apply negb_true_iff.
    + unfold tree_char in Ht. by apply orb_false_iff in Ht as [_ ?].
    + by apply N.eqb_neq.
  - intros c [= <-]. apply Hc. by left.
Qed.

Lemma split_colon_join parts :
  parts ≠ [] -> Forall (fun p => COLON ∉ p) parts ->
  split COLON (colon_join parts) = parts.
Proof.
  destruct parts as [|p ps]; [done|]. intros _ H.
  apply Forall_cons in H as [Hp Hps]. cbn [colon_join].
  revert p Hp. induction Hps as [|q ps Hq Hps IH]; intros p Hp.
  - cbn [map concat]. rewrite app_nil_r. by apply split_without_sep.
  - cbn [map concat app].
    rewrite split_app_sep by done. f_equal. by apply IH.
Qed.

Lemma colon_join_solid parts :
  Forall (fun p => solid p = true) parts -> solid (colon_join parts) = true.
Proof.
  destruct parts as [|p ps]; [done|]. intros H.
  apply Forall_cons in H as [Hp Hps]. cbn [colon_join]. unfold solid in *.
  rewrite forallb_app, Hp. cbn [andb].
  induction Hps as [|q ps Hq Hps IH]; [done|].
  cbn [map concat app forallb]. by rewrite forallb_app, Hq, IH.
Qed.

(** X14. A coordinate is read back from the line that prints it: for fields
    that are not empty and free of colons, opening parentheses, blanks and
    tree characters, the line made of any tree prefix, the fields joined by
    colons (group, artifact, any further fields, version) and, possibly, a
    parenthesized note yields the key group:artifact and the version, the
    last field; the fields in between and the note are dropped. *)
Theorem coordinate_is_read_back (prefix group artifact : str)
  (others : list str) (version blanks note blanks' : str) :
  let content := colon_join (group :: artifact :: others ++ [version]) in
  forallb tree_char prefix = true ->
  forallb plain (group :: artifact :: others ++ [version]) = true ->
  forallb isspace blanks = true ->
  forallb (fun x => negb (x =? RPAREN)%N) note = true ->
  forallb isspace blanks' = true ->
  _extract_ga_version (prefix ++ content)
  = Ok (Some (group ++ [COLON] ++ artifact, version))
  /\ _extract_ga_version
       (prefix ++ content ++ blanks ++ [LPAREN] ++ note ++ [RPAREN] ++ blanks')
     = Ok (Some (group ++ [COLON] ++ artifact, version)).
Proof.
  intros content Hprefix Hplain Hb Hn Hb'.
  set (parts := group :: artifact :: others ++ [version]) in *.
  assert (Forall (fun p => plain p = true) parts) as Hall.
  { apply Forall_forall. intros p Hp%list_elem_of_In.
    rewrite forallb_forall in Hplain. by apply Hplain. }
  assert (Forall (fun p => COLON ∉ p) parts) as Hcolon.
  { eapply Forall_impl; [exact Hall|]. intros p Hp.
    by destruct (plain_facts p Hp) as (_ & ? & _). }
  assert (solid content = true) as Hsolid.
  { apply colon_join_solid. eapply Forall_impl; [exact Hall|]. intros p Hp.
    by destruct (plain_facts p Hp) as (_ & _ & ? & _). }
  assert (exists c rest, content = c :: rest /\ tree_char c = false)
    as (c & rest & Hcontent & Hc).
  { apply Forall_cons in Hall as [Hg _].
    destruct (plain_facts group Hg) as (Hne & _ & _ & Hhead).
    destruct group as [|c g']; [done|]. exists c. eexists.
    split; [reflexivity|]. by apply Hhead. }
  assert (forall ann,
            delete_matches annotation_match ann = [] ->
            clean_line (prefix ++ content ++ ann) = content) as Hclean.
  { intros ann Hann. unfold clean_line.
    rewrite drop_while_app_all by done.
    assert (drop_while tree_char (content ++ ann) = content ++ ann) as ->.
    { rewrite Hcontent. cbn [app drop_while]. by rewrite Hc. }
    rewrite delete_matches_solid, Hann, app_nil_r by done.
    by apply strip_solid. }
  assert (forall line,
            clean_line line = content ->
            _extract_ga_version line
            = Ok (Some (group ++ [COLON] ++ artifact, version))) as Hread.
  { intros line Hline. unfold _extract_ga_version. rewrite Hline.
    rewrite Hcontent at 1. unfold content.
    rewrite split_colon_join by done. unfold parts.
    cbn [length Nat.leb subscript lookup list_lookup]. rewrite !bind_Ok.
    unfold subscript_last.
    change (group :: artifact :: others ++ [version])
      with ([group; artifact] ++ others ++ [version]).
    rewrite length_app, Nat.add_comm. cbn [length Nat.add].
    by rewrite (app_assoc [group; artifact]), last_snoc, bind_Ok. }
  split.
  - apply Hread. rewrite <- (app_nil_r content) at 1. by apply Hclean.
  - apply Hread. apply Hclean. by apply delete_matches_annotation.
Qed.

Lemma coordinate_is_read_back_witness :
  let prefix := py "│   └── " in
  let group := py "org.apache.tomcat.embed" in
  let artifact := py "tomcat-embed-core" in
  let others := [py "jar"] in
  let version := py "10.1.42" in
  let blanks := py " " in
  let note := py "version managed from 10.1.40" in
  let blanks' : str := [] in
  let content := colon_join (group :: artifact :: others ++ [version]) in
  forallb tree_char prefix = true
  /\ forallb plain (group :: artifact :: others ++ [version]) = true
  /\ forallb isspace blanks = true
  /\ forallb (fun x => negb (x =? RPAREN)%N) note = true
  /\ forallb isspace blanks' = true
  /\ _extract_ga_version (prefix ++ content)
     = Ok (Some (group ++ [COLON] ++ artifact, version))
  /\ _extract_ga_version
       (prefix ++ content ++ blanks ++ [LPAREN] ++ note ++ [RPAREN] ++ blanks')
     = Ok (Some (group ++ [COLON] ++ artifact, version)).
Proof.
  intros prefix group artifact others version blanks note blanks' content.
  assert (forallb tree_char prefix = true) as H1 by (vm_compute; reflexivity).
  assert (forallb plain (group :: artifact :: others ++ [version]) = true)
    as H2 by (vm_compute; reflexivity).
  assert (forallb isspace blanks = true) as H3 by (vm_compute; reflexivity).
  assert (forallb (fun x => negb (x =? RPAREN)%N) note = true) as H4
    by (vm_compute; reflexivity).
  assert (forallb isspace blanks' = true) as H5 by (vm_compute; reflexivity).
  split; [exact H1|]. split; [exact H2|]. split; [exact H3|].
  split; [exact H4|]. split; [exact H5|].
  exact (coordinate_is_read_back prefix group artifact others version blanks
           note blanks' H1 H2 H3 H4 H5).
Defined.

(** ** Numerals *)

Lemma digit_value_ascii d : (d < 10)%N -> digit_value (48 + d) = Some d.
Proof.
  intros H.
  assert (d ∈ [0; 1; 2; 3; 4; 5; 6; 7; 8; 9]%N) as Hd.
  { rewrite !elem_of_cons. lia. }
  rewrite !elem_of_cons, elem_of_nil in Hd.
  repeat (destruct Hd as [-> |Hd]; [reflexivity|]). done.
Qed.

Lemma ascii_digit_isdigit c : ascii_digit c = true -> isdigit c = true.
Proof.
  unfold ascii_digit. intros [H1%N.leb_le H2%N.leb_le]%andb_true_iff.
  unfold isdigit. replace c with (48 + (c - 48))%N by lia.
  rewrite digit_value_ascii; [done|lia].
Qed.

Lemma decimal_from_digits fuel n acc :
  forallb ascii_digit acc = true ->
  forallb ascii_digit (decimal_from fuel n acc) = true.
Proof.
  revert n acc. induction fuel as [|f IH]; intros n acc Hacc; [done|].
  cbn [decimal_from].
  assert (forallb ascii_digit ((48 + n mod 10)%N :: acc) = true) as H.
  { cbn [forallb]. rewrite Hacc, andb_true_r. unfold ascii_digit.
    pose proof (N.mod_upper_bound n 10 ltac:(done)).
    set (d := (n mod 10)%N) in *.
    apply andb_true_iff. split; apply N.leb_le; lia. }
  destruct (n <? 10)%N; [exact H|]. by apply IH.
Qed.

Lemma decimal_from_cons fuel n x acc :
  exists c r, decimal_from fuel n (x :: acc) = c :: r.
Proof.
  revert n x acc. induction fuel as [|f IH]; intros n x acc; [by eexists _, _|].
  cbn [decimal_from]. destruct (n <? 10)%N; [by eexists _, _|]. apply IH.
Qed.

Lemma decimal_digits n : forallb ascii_digit (decimal n) = true.
Proof. by apply decimal_from_digits. Qed.

Lemma decimal_cons n :
  exists c r, decimal n = c :: r /\ ascii_digit c = true.
Proof.
  pose proof (decimal_digits n) as Hd. unfold decimal in *.
  cbn [decimal_from] in *.
  destruct (n <? 10)%N.
  - eexists _, _. split; [done|]. cbn [forallb] in Hd.
    by apply andb_true_iff in Hd as [? _].
  - destruct (decimal_from_cons (N.to_nat (N.log2 n)) (n / 10)
                (48 + n mod 10)%N []) as (c & r & E).
    rewrite E in *. exists c, r. split; [done|]. cbn [forallb] in Hd.
    by apply andb_true_iff in Hd as [? _].
Qed.

Lemma int_of_decimal_from fuel n acc :
  (n < 2 ^ N.of_nat fuel)%N ->
  fold_left (fun a c => (10 * a + default 0 (digit_value c))%N)
    (decimal_from fuel n acc) 0%N
  = fold_left (fun a c => (10 * a + default 0 (digit_value c))%N) acc n.
Proof.
  revert n acc. induction fuel as [|f IH]; intros n acc Hn.
  - cbn [decimal_from]. f_equal. change (2 ^ N.of_nat 0)%N with 1%N in Hn. lia.
  - cbn [decimal_from].
    pose proof (N.mod_upper_bound n 10 ltac:(done)) as Hmod.
    pose proof (N.div_mod n 10 ltac:(done)) as Hdm.
    set (d := (n mod 10)%N) in *. set (m := (n / 10)%N) in *.
    destruct (N.ltb_spec n 10) as [Hlt|Hge].
    + cbn [fold_left]. rewrite digit_value_ascii by done. cbn [default].
      f_equal. assert (d = n) as -> by (by apply N.mod_small). unfold id. lia.
    + rewrite IH.
      * cbn [fold_left]. rewrite digit_value_ascii by done. cbn [default].
        f_equal. unfold id. lia.
      * rewrite Nat2N.inj_succ, N.pow_succ_r' in Hn.
        set (p := (2 ^ N.of_nat f)%N) in *. lia.
Qed.

Lemma int_of_decimal n : int_of_digits (decimal n) = n.
Proof.
  unfold int_of_digits, decimal. rewrite int_of_decimal_from; [done|].
  rewrite Nat2N.inj_succ, N2Nat.id.
  destruct (N.eq_dec n 0%N) as [-> |Hn]; [done|].
  apply N.log2_spec. lia.
Qed.

(** ** The runs of digits of a dotted version *)

Lemma digit_runs_from_digits run d rest :
  forallb ascii_digit d = true ->
  digit_runs_from run (d ++ rest) = digit_runs_from (rev d ++ run) rest.
Proof.
  revert run. induction d as [|c d IH]; intros run; [done|].
  cbn [forallb]. intros [Hc Hd]%andb_true_iff.
  cbn [app digit_runs_from rev]. rewrite (ascii_digit_isdigit c Hc).
  rewrite IH by done. by rewrite <- app_assoc.
Qed.

Lemma digit_runs_from_tail x run r :
  digit_runs_from (x :: run) (concat (map (fun k => DOT :: decimal k) r))
  = rev (x :: run) :: map decimal r.
Proof.
  revert x run. induction r as [|k r IH]; intros x run; [done|].
  cbn [map concat app digit_runs_from].
  assert (isdigit DOT = false) as -> by done.
  f_equal. rewrite digit_runs_from_digits by apply decimal_digits.
  rewrite app_nil_r.
  destruct (decimal_cons k) as (c & d & E & _).
  destruct (rev (decimal k)) as [|y l] eqn:Er.
  { apply (f_equal (@rev _)) in Er. rewrite rev_involutive, E in Er. done. }
  rewrite IH, <- Er. by rewrite rev_involutive.
Qed.

Lemma findall_digits_dotted ns : findall_digits (dotted ns) = map decimal ns.
Proof.
  destruct ns as [|n r]; [done|]. unfold findall_digits. cbn [dotted map].
  rewrite digit_runs_from_digits by apply decimal_digits. rewrite app_nil_r.
  destruct (decimal_cons n) as (c & d & E & _).
  destruct (rev (decimal n)) as [|y l] eqn:Er.
  { apply (f_equal (@rev _)) in Er. rewrite rev_involutive, E in Er. done. }
  rewrite digit_runs_from_tail, <- Er. by rewrite rev_involutive.
Qed.

Lemma number_of_part ns i :
  match map decimal ns !! i with
  | Some p => int_of_digits p
  | None => 0%N
  end = nth i ns 0%N.
Proof.
  rewrite nth_lookup, list_lookup_fmap.
  destruct (ns !! i); [apply int_of_decimal|done].
Qed.

(** ** Looking for a qualifier in a dotted version *)

Lemma dotted_chars ns : forallb version_char (dotted ns) = true.
Proof.
  assert (forall n, forallb version_char (decimal n) = true) as Hd.
  { intros n. pose proof (decimal_digits n) as H.
    rewrite forallb_forall in *. intros c Hc. unfold version_char.
    by rewrite (H c Hc). }
  destruct ns as [|n r]; [done|]. cbn [dotted].
  rewrite forallb_app, Hd. cbn [andb].
  induction r as [|k r IH]; [done|].
  cbn [map concat app forallb]. by rewrite forallb_app, Hd, IH.
Qed.

Lemma startswith_other x old c t :
  (c =? x)%N = false -> startswith (x :: old) (c :: t) = false.
Proof. intros H. cbn [startswith]. by rewrite N.eqb_sym, H. Qed.

Lemma str_in_skip x old body t :
  forallb (fun c => negb (c =? x)%N) body = true ->
  str_in (x :: old) (body ++ t) = str_in (x :: old) t.
Proof.
  induction body as [|c body IH]; [done|]. cbn [forallb].
  intros [Hc%negb_true_iff Hb]%andb_true_iff.
  cbn [app str_in]. rewrite (startswith_other _ _ _ _ Hc). cbn [orb].
  by apply IH.
Qed.

Lemma version_chars_differ x body :
  version_char x = false ->
  forallb version_char body = true ->
  forallb (fun c => negb (c =? x)%N) body = true.
Proof.
  intros Hx Hb. rewrite forallb_forall in *. intros c Hc.
  apply negb_true_iff, N.eqb_neq. intros ->. specialize (Hb _ Hc). congruence.
Qed.

Lemma str_in_dotted q ns t :
  q ∈ qualifiers -> str_in q (dotted ns ++ t) = str_in q t.
Proof.
  intros Hq.
  assert (exists x old, q = x :: old /\ version_char x = false)
    as (x & old & -> & Hx).
  { unfold qualifiers in Hq. rewrite !elem_of_cons, elem_of_nil in Hq.
    destruct Hq as [-> |[-> |[-> |[-> |[]]]]]; by eexists _, _. }
  apply str_in_skip, version_chars_differ; [done|apply dotted_chars].
Qed.

Lemma find_ext_in {A} (f g : A -> bool) l :
  (forall x, x ∈ l -> f x = g x) -> List.find f l = List.find g l.
Proof.
  induction l as [|x l IH]; [done|]. intros H. cbn [List.find].
  rewrite (H x) by left. rewrite IH; [done|]. intros y Hy. apply H. by right.
Qed.

Lemma no_qualifier_in_dotted ns :
  List.find (fun q => str_in q (dotted ns)) qualifiers = None.
Proof.
  rewrite (find_ext_in _ (fun q => str_in q [])); [done|].
  intros q Hq. rewrite <- (app_nil_r (dotted ns)). by apply str_in_dotted.
Qed.

Lemma qualifier_of_suffix ns sep q :
  sep ∈ [HYPHEN; DOT] -> q ∈ qualifiers ->
  List.find (fun q' => str_in q' (dotted ns ++ sep :: q)) qualifiers = Some q.
Proof.
  intros Hsep Hq.
  rewrite (find_ext_in _ (fun q' => str_in q' (sep :: q)))
    by (intros q' Hq'; by apply str_in_dotted).
  unfold qualifiers in Hq.
  rewrite !elem_of_cons, elem_of_nil in Hsep.
  rewrite !elem_of_cons, elem_of_nil in Hq.
  destruct Hsep as [-> |[-> |[]]];
    destruct Hq as [-> |[-> |[-> |[-> |[]]]]]; reflexivity.
Qed.

(** ** Removing a qualifier from a dotted version *)

Lemma replace_skip x old body t :
  forallb (fun c => negb (c =? x)%N) body = true ->
  replace_with_empty (x :: old) (body ++ t)
  = body ++ replace_with_empty (x :: old) t.
Proof.
  unfold replace_with_empty, delete_matches.
  induction body as [|c body IH]; [done|]. cbn [forallb].
  intros [Hc%negb_true_iff Hb]%andb_true_iff.
  cbn [app delete_matches_from]. rewrite (startswith_other _ _ _ _ Hc).
  by rewrite IH.
Qed.

Lemma replace_dot_step q0 old k t :
  ascii_digit q0 = false ->
  replace_with_empty (DOT :: q0 :: old) (DOT :: decimal k ++ t)
  = DOT :: decimal k ++ replace_with_empty (DOT :: q0 :: old) t.
Proof.
  intros Hq0. pose proof (decimal_digits k) as Hk.
  destruct (decimal_cons k) as (c & d & E & Hc).
  assert ((c =? q0)%N = false) as Hne.
  { apply N.eqb_neq. intros ->. congruence. }
  assert (forallb (fun c => negb (c =? DOT)%N) (decimal k) = true) as Hnd.
  { rewrite forallb_forall in *. intros y Hy. specialize (Hk y Hy).
    unfold ascii_digit in Hk. apply andb_true_iff in Hk as [H1%N.leb_le _].
    apply negb_true_iff, N.eqb_neq. unfold DOT. lia. }
  rewrite <- (replace_skip DOT (q0 :: old) (decimal k) t Hnd).
  unfold replace_with_empty, delete_matches. rewrite E.
  cbn [app delete_matches_from startswith]. rewrite N.eqb_refl.
  rewrite (N.eqb_sym q0 c), Hne. reflexivity.
Qed.

Lemma replace_dot_dotted q0 old ns t :
  ascii_digit q0 = false ->
  replace_with_empty (DOT :: q0 :: old) (dotted ns ++ t)
  = dotted ns ++ replace_with_empty (DOT :: q0 :: old) t.
Proof.
  intros Hq0. destruct ns as [|n r]; [done|]. cbn [dotted].
  rewrite <- !app_assoc.
  rewrite replace_skip.
  2:{ pose proof (decimal_digits n) as Hk.
      rewrite forallb_forall in *. intros y Hy. specialize (Hk y Hy).
      unfold ascii_digit in Hk. apply andb_true_iff in Hk as [H1%N.leb_le _].
      apply negb_true_iff, N.eqb_neq. unfold DOT. lia. }
  f_equal. induction r as [|k r IH]; [done|].
  cbn [map concat]. rewrite <- !app_assoc. cbn [app].
  rewrite replace_dot_step by done. by rewrite IH.
Qed.

Lemma clean_version_of_suffix ns sep q :
  sep ∈ [HYPHEN; DOT] -> q ∈ qualifiers ->
  replace_with_empty (py "." ++ q)
    (replace_with_empty (py "-" ++ q) (dotted ns ++ sep :: q))
  = dotted ns.
Proof.
  intros Hsep Hq.
  assert (exists q0 old, q = q0 :: old /\ ascii_digit q0 = false
            /\ forallb (fun c => negb (c =? HYPHEN)%N) q = true
            /\ replace_with_empty (HYPHEN :: q) (HYPHEN :: q) = []
            /\ replace_with_empty (DOT :: q) (DOT :: q) = [])
    as (q0 & old & E & Hq0 & Hnh & Hh & Hd).
  { unfold qualifiers in Hq. rewrite !elem_of_cons, elem_of_nil in Hq.
    destruct Hq as [-> |[-> |[-> |[-> |[]]]]]; by eexists _, _. }
  change (py "." ++ q) with (DOT :: q). change (py "-" ++ q) with (HYPHEN :: q).
  assert (forallb (fun c => negb (c =? HYPHEN)%N) (dotted ns) = true) as Hbody.
  { by apply version_chars_differ; [|apply dotted_chars]. }
  rewrite !elem_of_cons, elem_of_nil in Hsep.
  destruct Hsep as [-> |[-> |[]]].
  - rewrite replace_skip, Hh, app_nil_r by done.
    rewrite <- (app_nil_r (dotted ns)) at 1. rewrite E.
    by rewrite replace_dot_dotted, app_nil_r.
  - rewrite <- (app_nil_r (dotted ns ++ DOT :: q)) at 1.
    rewrite replace_skip.
    2:{ rewrite forallb_app, Hbody. cbn [andb forallb]. by rewrite Hnh. }
    rewrite app_nil_r. cbn [replace_with_empty]. rewrite E in *.
    by rewrite replace_dot_dotted, Hd, app_nil_r.
Qed.

(** The numerals of [4; 1; 122; 7], joined by dots. *)
Example dotted_version : dotted [4; 1; 122; 7]%N = py "4.1.122.7".
Proof. vm_compute. reflexivity. Qed.

(** [int()] accepts the runs read from a dotted version when it accepts the
    numerals of the first three numbers. *)
Lemma readable_dotted ns :
  forallb (fun n => int_accepts (decimal n)) (take 3 ns) = true ->
  forallb int_accepts (take 3 (findall_digits (dotted ns))) = true.
Proof.
  intros H. rewrite findall_digits_dotted, <- fmap_take.
  rewrite forallb_forall in *. intros run Hrun.
  apply list_elem_of_In, list_elem_of_fmap in Hrun as (n & -> & Hn).
  apply H. by apply list_elem_of_In.
Qed.

(** X15. [parse_version] reads back the numbers of a version that is
    written as numerals joined by dots, when [int()] accepts the numerals
    of the first three: these are the major, the minor and the patch
    number, a number that is missing is 0, the numbers behind the third
    are dropped and the qualifier is empty; with one of the four
    qualifiers appended behind a hyphen or a dot, the numbers are the same
    and the qualifier is that one. *)
Theorem parse_version_reads_the_numbers_back (ns : list N) :
  forallb (fun n => int_accepts (decimal n)) (take 3 ns) = true ->
  let numbers := (nth 0 ns 0%N, nth 1 ns 0%N, nth 2 ns 0%N) in
  readable (dotted ns) = true
  /\ parse_version (dotted ns) = (numbers, [])
  /\ forall sep q,
      sep ∈ [HYPHEN; DOT] -> q ∈ qualifiers ->
      readable (dotted ns ++ sep :: q) = true
      /\ parse_version (dotted ns ++ sep :: q) = (numbers, q).
Proof.
  intros Hns numbers. split_and!.
  - unfold readable, digits_read. rewrite no_qualifier_in_dotted.
    cbv beta iota zeta. by apply readable_dotted.
  - unfold parse_version. rewrite no_qualifier_in_dotted.
    cbv beta iota zeta. rewrite findall_digits_dotted.
    by rewrite !number_of_part.
  - intros sep q Hsep Hq. split.
    + unfold readable, digits_read.
      rewrite qualifier_of_suffix by done. cbv beta iota zeta.
      rewrite clean_version_of_suffix by done. by apply readable_dotted.
    + unfold parse_version.
      rewrite qualifier_of_suffix by done. cbv beta iota zeta.
      rewrite clean_version_of_suffix by done.
      rewrite findall_digits_dotted. by rewrite !number_of_part.
Qed.

Lemma parse_version_reads_the_numbers_back_witness :
  let ns := [4; 1; 122; 7]%N in
  forallb (fun n => int_accepts (decimal n)) (take 3 ns) = true
  /\ readable (dotted ns) = true
  /\ parse_version (dotted ns) = ((4, 1, 122)%N, [])
  /\ forall sep q,
      sep ∈ [HYPHEN; DOT] -> q ∈ qualifiers ->
      readable (dotted ns ++ sep :: q) = true
      /\ parse_version (dotted ns ++ sep :: q) = ((4, 1, 122)%N, q).
Proof.
  intros ns.
  assert (forallb (fun n => int_accepts (decimal n)) (take 3 ns) = true) as H
    by (vm_compute; reflexivity).
  split; [exact H|].
  exact (parse_version_reads_the_numbers_back ns H).
Defined.

(** ** Joining and splitting lines *)

Lemma split_join sep parts :
  parts ≠ [] -> Forall (fun p => sep ∉ p) parts ->
  split sep (join sep parts) = parts.
Proof.
  destruct parts as [|p ps]; [done|]. intros _ H.
  apply Forall_cons in H as [Hp Hps]. cbn [join].
  revert p Hp. induction Hps as [|q ps Hq Hps IH]; intros p Hp.
  - cbn [map concat]. rewrite app_nil_r. by apply split_without_sep.
  - cbn [map concat app].
    rewrite split_app_sep by done. f_equal. by apply IH.
Qed.

(** ** The order of the sort keys *)

Lemma str_ltb_irrefl a : str_ltb a a = false.
Proof.
  induction a as [|x a IH]; [done|]. cbn [str_ltb].
  by rewrite N.ltb_irrefl, IH, andb_false_r.
Qed.

Lemma str_ltb_trans a b c :
  str_ltb a b = true -> str_ltb b c = true -> str_ltb a c = true.
Proof.
  revert b c. induction a as [|x a IH]; intros [|y b] [|z c]; try done.
  cbn [str_ltb].
  intros [Hxy%N.ltb_lt|[Hxy%N.eqb_eq Hab]%andb_true_iff]%orb_true_iff
         [Hyz%N.ltb_lt|[Hyz%N.eqb_eq Hbc]%andb_true_iff]%orb_true_iff;
    apply orb_true_iff.
  - left. apply N.ltb_lt. lia.
  - left. apply N.ltb_lt. lia.
  - left. apply N.ltb_lt. lia.
  - right. apply andb_true_iff. split; [apply N.eqb_eq; lia|]. by eapply IH.
Qed.

Lemma key_ltb_irrefl a : key_ltb a a = false.
Proof.
  unfold key_ltb. by rewrite Nat.ltb_irrefl, str_ltb_irrefl, andb_false_r.
Qed.

Lemma key_ltb_trans a b c :
  key_ltb a b = true -> key_ltb b c = true -> key_ltb a c = true.
Proof.
  unfold key_ltb.
  intros [Hab%Nat.ltb_lt|[Hab%Nat.eqb_eq Hs]%andb_true_iff]%orb_true_iff
         [Hbc%Nat.ltb_lt|[Hbc%Nat.eqb_eq Ht]%andb_true_iff]%orb_true_iff;
    apply orb_true_iff.
  - left. apply Nat.ltb_lt. lia.
  - left. apply Nat.ltb_lt. lia.
  - left. apply Nat.ltb_lt. lia.
  - right. apply andb_true_iff. split; [apply Nat.eqb_eq; lia|].
    by eapply str_ltb_trans.
Qed.

Lemma key_le_not_lt a b : key_ltb b a = false <-> key_le a b.
Proof.
  unfold key_ltb, key_le. rewrite orb_false_iff, andb_false_iff.
  rewrite Nat.ltb_ge, Nat.eqb_neq. split.
  - intros [H1 [H2|H2]]; split; try done; intros E; congruence.
  - intros [H1 H2]. split; [done|].
    destruct (decide (depth b = depth a)) as [E|E]; [right|by left].
    by apply H2.
Qed.

Lemma insert_by_key_perm x l : insert_by_key x l ≡ₚ x :: l.
Proof.
  induction l as [|y l IH]; [done|]. cbn [insert_by_key].
  destruct (key_ltb x y); [done|]. rewrite IH. apply Permutation_swap.
Qed.

Lemma insert_by_key_sorted x l :
  StronglySorted key_le l -> StronglySorted key_le (insert_by_key x l).
Proof.
  induction 1 as [|y l Hl IH Hy]; cbn [insert_by_key].
  - apply SSorted_cons; [apply SSorted_nil | apply Forall_nil_2].
  - destruct (key_ltb x y) eqn:E.
    + apply SSorted_cons; [by apply SSorted_cons|].
      assert (key_le x y) as Hxy.
      { apply key_le_not_lt. destruct (key_ltb y x) eqn:E'; [|done].
        by rewrite <- (key_ltb_irrefl x), <- (key_ltb_trans x y x E E'). }
      apply Forall_cons. split; [done|].
      eapply Forall_impl; [exact Hy|]. intros z Hyz.
      apply key_le_not_lt. apply key_le_not_lt in Hyz.
      destruct (key_ltb z x) eqn:E'; [|done].
      by rewrite <- Hyz, <- (key_ltb_trans z x y E' E).
    + apply SSorted_cons; [done|].
      rewrite insert_by_key_perm. apply Forall_cons. split; [|done].
      by apply key_le_not_lt.
Qed.

Lemma sorted_by_key_spec l :
  StronglySorted key_le (sorted_by_key l) /\ sorted_by_key l ≡ₚ l.
Proof.
  unfold sorted_by_key.
  assert (forall acc,
            StronglySorted key_le acc ->
            StronglySorted key_le
              (fold_left (fun acc x => insert_by_key x acc) l acc)
            /\ fold_left (fun acc x => insert_by_key x acc) l acc
               ≡ₚ acc ++ l) as H.
  { induction l as [|x l IH]; intros acc Hacc.
    - by rewrite app_nil_r.
    - cbn [fold_left].
      destruct (IH (insert_by_key x acc)) as [H1 H2];
        [by apply insert_by_key_sorted|].
      split; [done|]. rewrite H2, insert_by_key_perm.
      cbn [app]. apply Permutation_middle. }
  apply (H []). apply SSorted_nil.
Qed.

(** ** What a line is made of *)

Lemma drop_while_elem {A} (p : A -> bool) l x :
  x ∈ drop_while p l -> x ∈ l.
Proof.
  induction l as [|y l IH]; [done|]. cbn [drop_while].
  destruct (p y); [|done]. intros H. right. by apply IH.
Qed.

Lemma delete_matches_from_elem m k s x :
  x ∈ delete_matches_from m k s -> x ∈ s.
Proof.
  revert k. induction s as [|c r IH]; intros k; [done|].
  cbn [delete_matches_from]. destruct k as [|k].
  - destruct (m (c :: r)) as [[|j]|].
    + intros [-> |H]%elem_of_cons; [by left|right; by eapply IH].
    + intros H. right. by eapply IH.
    + intros [-> |H]%elem_of_cons; [by left|right; by eapply IH].
  - intros H. right. by eapply IH.
Qed.

Lemma strip_elem x s : x ∈ strip s -> x ∈ s.
Proof.
  unfold strip, rstrip, lstrip. intros H.
  apply list_elem_of_In, in_rev, list_elem_of_In, drop_while_elem in H.
  apply list_elem_of_In, in_rev, list_elem_of_In in H.
  by apply drop_while_elem in H.
Qed.

Lemma clean_line_elem x line : x ∈ clean_line line -> x ∈ line.
Proof.
  unfold clean_line, delete_matches.
  intros H%strip_elem%delete_matches_from_elem. by apply drop_while_elem in H.
Qed.

Lemma split_elem sep s p x : p ∈ split sep s -> x ∈ p -> x ∈ s.
Proof.
  revert p. induction s as [|c r IH]; cbn [split]; intros p.
  - intros ->%list_elem_of_singleton Hx. by apply elem_of_nil in Hx.
  - destruct (c =? sep)%N.
    + intros [-> |H]%elem_of_cons; [by intros ?%elem_of_nil|].
      intros Hx. right. by eapply IH.
    + destruct (split sep r) as [|q qs] eqn:E.
      * intros ->%list_elem_of_singleton. intros Hx.
        apply elem_of_cons in Hx as [-> |Hx]; [by left|].
        by apply elem_of_nil in Hx.
      * intros [-> |H]%elem_of_cons.
        -- intros [-> |Hx]%elem_of_cons; [by left|].
           right. apply (IH q); [by left|done].
        -- intros Hx. right. apply (IH p); [by right|done].
Qed.

Lemma _extract_ga_version_chars line k v x :
  _extract_ga_version line = Ok (Some (k, v)) ->
  x ∈ k ++ v -> x = COLON \/ x ∈ line.
Proof.
  unfold _extract_ga_version.
  destruct (clean_line line) as [|c0 cl] eqn:Ecl; [done|].
  destruct (3 <=? length (split COLON (c0 :: cl))); [|done].
  unfold subscript, subscript_last.
  destruct (split COLON (c0 :: cl) !! 0) as [g|] eqn:Eg; [|done].
  destruct (split COLON (c0 :: cl) !! 1) as [a|] eqn:Ea; [|done].
  destruct (list.last (split COLON (c0 :: cl))) as [w|] eqn:Ew; [|done].
  rewrite !bind_Ok. intros [= <- <-].
  assert (forall p, p ∈ split COLON (c0 :: cl) -> x ∈ p -> x ∈ line) as Hp.
  { intros p Hp Hx. apply clean_line_elem. rewrite Ecl. by eapply split_elem. }
  apply list_elem_of_lookup_2 in Eg, Ea. apply last_Some_elem_of in Ew.
  rewrite !elem_of_app.
  intros [[Hx|[-> |Hx]%elem_of_cons]|Hx];
    [right; by apply (Hp g) | by left
    | right; by apply (Hp a) | right; by apply (Hp w)].
Qed.

Lemma sightings_without_newline text d k v :
  (d, k, v) ∈ sightings (lines_of text) ->
  (NEWLINE ∉ k) /\ (NEWLINE ∉ v).
Proof.
  unfold sightings. rewrite list_elem_of_omap.
  intros (line & Hline & Hs). apply split_no_sep in Hline.
  unfold sighting in Hs. destruct (strip line); [done|].
  destruct (_extract_ga_version line) as [[[k' v']|]|] eqn:E; try done.
  destruct k' as [|c g]; [done|]. injection Hs as _ <- <-.
  split; intros Hin;
    (destruct (_extract_ga_version_chars _ _ _ NEWLINE E) as [?|?];
     [rewrite elem_of_app; auto|done|done]).
Qed.

Lemma last_root_elem ss r :
  last_root ss = Some r -> exists d v, (d, r, v) ∈ ss.
Proof.
  unfold last_root. intros H%last_Some_elem_of.
  apply list_elem_of_omap in H as ([[d k] v] & Hin & Hs). cbn [fst snd] in Hs.
  destruct (d =? 0); [|done]. injection Hs as ->. by exists d, v.
Qed.

Lemma repeat_str_chars s k x : x ∈ repeat_str s k -> x ∈ s.
Proof.
  unfold repeat_str. induction k as [|k IH]; [by intros ?%elem_of_nil|].
  cbn [replicate concat]. rewrite elem_of_app. intros [?|?]; auto.
Qed.

Lemma without_newline s :
  forallb (fun c => negb (c =? NEWLINE)%N) s = true -> NEWLINE ∉ s.
Proof.
  intros H Hin. rewrite forallb_forall in H.
  apply list_elem_of_In, H in Hin. by rewrite N.eqb_refl in Hin.
Qed.

Lemma decimal_without_newline n : NEWLINE ∉ decimal n.
Proof.
  intros Hin. pose proof (decimal_digits n) as H.
  rewrite forallb_forall in H. apply list_elem_of_In, H in Hin. done.
Qed.

Lemma format_2f_without_newline x : NEWLINE ∉ format_2f x.
Proof.
  unfold format_2f. cbv zeta.
  set (r := Z.to_N _). set (a := ((r mod 100) / 10)%N). set (b := (r mod 10)%N).
  rewrite !not_elem_of_app, !not_elem_of_cons. split_and!.
  - destruct (Qle_bool 0 x); [apply not_elem_of_nil|by apply without_newline].
  - apply decimal_without_newline.
  - by apply without_newline.
  - unfold NEWLINE. lia.
  - unfold NEWLINE. lia.
  - apply not_elem_of_nil.
Qed.

Lemma node_line_without_newline n :
  (NEWLINE ∉ ga n) -> (NEWLINE ∉ version n) -> NEWLINE ∉ node_line n.
Proof.
  intros Hga Hv. unfold node_line. cbv zeta.
  rewrite !not_elem_of_app. split_and!; try done;
    try (by apply without_newline).
  - intros H%repeat_str_chars. revert H. by apply without_newline.
  - by destruct (is_direct n); apply without_newline.
  - apply format_2f_without_newline.
  - destruct (float_gt _ _); [by apply without_newline|apply not_elem_of_nil].
Qed.

Lemma pretty_print_lines g :
  (forall r, root_project g = Some r -> NEWLINE ∉ r) ->
  Forall (fun n => (NEWLINE ∉ ga n) /\ (NEWLINE ∉ version n))
    (dict_values (nodes g)) ->
  split NEWLINE (pretty_print g)
  = head_lines g ++ map node_line (sorted_by_key (dict_values (nodes g))).
Proof.
  intros Hroot Hnodes. unfold pretty_print. cbv zeta.
  rewrite split_join; [done|done|].
  rewrite !Forall_app, !Forall_singleton. split_and!.
  - apply not_elem_of_app. split; [by apply without_newline|].
    destruct (root_project g) as [r|];
      [by apply Hroot|by apply without_newline].
  - rewrite !not_elem_of_app.
    split_and!; [by apply without_newline| |by apply without_newline].
    apply decimal_without_newline.
  - intros H%repeat_str_chars. revert H. by apply without_newline.
  - apply Forall_fmap.
    destruct (sorted_by_key_spec (dict_values (nodes g))) as [_ Hperm].
    rewrite Hperm. eapply Forall_impl; [exact Hnodes|].
    intros n [? ?]. by apply node_line_without_newline.
Qed.

Lemma parsed_graph_without_newline text st :
  place_all (new_graph, ∅) (sightings (lines_of text)) = Ok st ->
  (forall r, root_project (scored_graph st.1) = Some r -> NEWLINE ∉ r)
  /\ Forall (fun n => (NEWLINE ∉ ga n) /\ (NEWLINE ∉ version n))
       (dict_values (nodes (scored_graph st.1))).
Proof.
  intros Hplace. split.
  - intros r Hr.
    destruct (place_all_root (sightings (lines_of text))) as (st' & E & Hroot & _).
    rewrite Hplace in E. injection E as <-.
    change (root_project (scored_graph st.1)) with (root_project st.1) in Hr.
    rewrite Hroot in Hr. apply last_root_elem in Hr as (d & v & Hin).
    by apply sightings_without_newline in Hin as [? _].
  - apply Forall_forall. intros n' Hn'.
    unfold dict_values, scored_graph in Hn'. cbn [nodes set_nodes] in Hn'.
    rewrite <- list_fmap_compose in Hn'.
    apply list_elem_of_fmap in Hn' as ([k n] & -> & Hin). cbn [fst snd compose].
    assert (state_ok st) as [[Hkeys Hok] _].
    { apply (place_all_ok (new_graph, ∅) (sightings (lines_of text)));
        [|split; [apply new_graph_ok|done]|exact Hplace].
      intros [[d' k'] v'] Hs. by eapply sightings_is_ga. }
    pose proof (dict_elem_get _ _ _ Hkeys Hin) as Hget.
    destruct (Hok _ _ Hget) as (Hga & _).
    pose proof (place_all_origin _ _ _ _ Hplace Hget) as Ho.
    apply sightings_without_newline in Ho as [? ?].
    unfold scored. cbn [ga version set_scores]. by rewrite Hga.
Qed.

(** X16. The printout of a parsed graph can be read back line by line:
    split at the line breaks it has three head lines (project, total,
    rule) and then exactly one line for every node, no key or version
    breaking a line; the nodes are listed by depth, and by key among nodes
    of equal depth. *)
Theorem printout_has_one_line_for_every_node (tree_text : str) :
  exists g listed,
    parse_dependency_tree tree_text = Ok g
    /\ split NEWLINE (pretty_print g) = head_lines g ++ map node_line listed
    /\ listed ≡ₚ dict_values (nodes g)
    /\ StronglySorted key_le listed
    /\ length (split NEWLINE (pretty_print g)) = 3 + length (nodes g).
Proof.
  unfold parse_dependency_tree.
  destruct (parse_tree_text_spec new_graph tree_text) as (st & Hplace & ->).
  destruct (parsed_graph_without_newline _ _ Hplace) as [Hroot Hnodes].
  set (g := scored_graph st.1) in *.
  destruct (sorted_by_key_spec (dict_values (nodes g))) as [Hsorted Hperm].
  exists g, (sorted_by_key (dict_values (nodes g))).
  pose proof (pretty_print_lines g Hroot Hnodes) as Hlines.
  split_and!; try done.
  rewrite Hlines, length_app, length_map, Hperm.
  unfold dict_values. by rewrite length_map.
Qed.

(** ** Parsing a text again *)

Lemma place_absorbed (g : DependencyGraph) chain d k v :
  absorbed (nodes g) chain (d, k, v) ->
  place (g, chain) d k v
  = Ok (if d =? 0 then set_root_project (Some k) g else g,
        chain_after chain d k).
Proof.
  intros (n & Hn & Hp). cbn [fst snd] in Hn, Hp.
  unfold place, chain_after, parent_of in *. cbn [fst snd].
  destruct (d =? 0) eqn:Ed.
  - unfold _add_node. cbn [nodes set_root_project].
    unfold dict_in, dict_item. rewrite Hn. cbn [nodes set_root_project].
    by rewrite Hn, !bind_Ok.
  - unfold _add_node, dict_in, dict_item. rewrite Hn, Hn, bind_Ok.
    destruct (chain !! (d - 1)) as [p|]; [|by rewrite bind_Ok].
    destruct (Hp p eq_refl) as [-> |Hin].
    + rewrite bool_decide_eq_true_2 by done. cbn [negb andb].
      by rewrite bind_Ok.
    + rewrite (bool_decide_eq_true_2 (p ∈ parents n)) by done.
      rewrite andb_false_r. by rewrite bind_Ok.
Qed.

Lemma root_after_cons root d k v ss :
  root_after (if d =? 0 then Some k else root) ss
  = root_after root ((d, k, v) :: ss).
Proof.
  unfold root_after, last_root. cbn [omap list_omap fst snd].
  destruct (d =? 0); [|done]. cbn [mbind option_bind].
  rewrite last_cons. by destruct (list.last _).
Qed.

Lemma place_all_absorbed (g : DependencyGraph) chain ss :
  all_absorbed (nodes g) chain ss ->
  exists chain',
    place_all (g, chain) ss
    = Ok (set_root_project (root_after (root_project g) ss) g, chain').
Proof.
  revert g chain. induction ss as [|[[d k] v] ss IH]; intros g chain.
  - intros _. exists chain. by destruct g.
  - intros [Hs Hss]. cbn [fst snd] in Hss. unfold place_all. cbn [for_each].
    cbn [fst snd]. rewrite (place_absorbed _ _ _ _ _ Hs), bind_Ok.
    fold (place_all (if d =? 0 then set_root_project (Some k) g else g,
                     chain_after chain d k) ss).
    destruct (IH (if d =? 0 then set_root_project (Some k) g else g)
                (chain_after chain d k)) as (chain' & ->).
    { by destruct (d =? 0). }
    exists chain'. rewrite <- (root_after_cons (root_project g) d k v ss).
    by destruct (d =? 0).
Qed.

Lemma place_parents_grow (st st' : parse_state) d key v k n :
  place st d key v = Ok st' ->
  dict_get k (nodes st.1) = Some n ->
  exists m, dict_get k (nodes st'.1) = Some m /\ parents n ⊆ parents m.
Proof.
  intros Hplace Hn.
  destruct (place_step_old _ _ _ _ _ _ _ Hplace Hn)
    as (m & Hm & _ & _ & _ & _ & Hpar & _).
  exists m. split; [done|].
  destruct Hpar as [-> |(_ & p & _ & _ & ->)]; [done|].
  intros x Hx. apply elem_of_app. by left.
Qed.

Lemma place_all_parents_grow (st st' : parse_state) ss k n :
  place_all st ss = Ok st' ->
  dict_get k (nodes st.1) = Some n ->
  exists m, dict_get k (nodes st'.1) = Some m /\ parents n ⊆ parents m.
Proof.
  revert st n. induction ss as [|[[d key] v] ss IH]; intros st n.
  - intros [= <-] Hn. by exists n.
  - unfold place_all. cbn [for_each fst snd].
    destruct (place st d key v) as [st1|e] eqn:E; [|done].
    rewrite bind_Ok. intros Hrest Hn.
    destruct (place_parents_grow _ _ _ _ _ _ _ E Hn) as (m1 & Hm1 & Hsub1).
    destruct (IH st1 m1 Hrest Hm1) as (m & Hm & Hsub).
    exists m. split; [done|]. by etrans.
Qed.

Lemma place_takes_in (st st' : parse_state) d k v :
  place st d k v = Ok st' ->
  absorbed (nodes st'.1) st.2 (d, k, v) /\ st'.2 = chain_after st.2 d k.
Proof.
  intros Hplace.
  destruct (place_spec st d k v) as (self' & E & _ & _ & Hget).
  rewrite E in Hplace. injection Hplace as <-. cbn [fst snd].
  split; [|done]. specialize (Hget k).
  rewrite bool_decide_eq_true_2 in Hget by done. cbn [fmap option_fmap option_map] in Hget.
  eexists. split; [exact Hget|]. cbn [fst snd].
  intros p Hp. rewrite Hp.
  pose proof (node_after_spec k (Some p)
                (adds_edge (Some p)
                   (default (fresh_node k v d (d <=? 1))
                      (dict_get k (nodes st.1))))
                k (default (fresh_node k v d (d <=? 1))
                     (dict_get k (nodes st.1))))
    as (_ & _ & _ & _ & Hpar & _).
  cbv zeta in Hpar. rewrite Hpar.
  rewrite bool_decide_eq_true_2, andb_true_r by done.
  unfold adds_edge.
  destruct (decide (p = [])) as [-> |Hne]; [by left|right].
  rewrite (bool_decide_eq_false_2 (p = [])) by done. cbn [negb andb].
  destruct (decide (p ∈ parents
              (default (fresh_node k v d (d <=? 1))
                 (dict_get k (nodes st.1))))) as [Hin|Hnin].
  - by rewrite bool_decide_eq_true_2.
  - rewrite bool_decide_eq_false_2 by done. cbn [negb].
    apply elem_of_app. right. by left.
Qed.

Lemma absorbed_grow ns ns' chain s :
  (forall k n, dict_get k ns = Some n ->
     exists m, dict_get k ns' = Some m /\ parents n ⊆ parents m) ->
  absorbed ns chain s -> absorbed ns' chain s.
Proof.
  intros Hgrow (n & Hn & Hp). destruct (Hgrow _ _ Hn) as (m & Hm & Hsub).
  exists m. split; [done|]. intros p Hpar.
  destruct (Hp p Hpar) as [?|?]; [by left|right; by apply Hsub].
Qed.

Lemma place_all_takes_in (st st' : parse_state) ss :
  place_all st ss = Ok st' -> all_absorbed (nodes st'.1) st.2 ss.
Proof.
  revert st. induction ss as [|[[d k] v] ss IH]; intros st; [done|].
  unfold place_all. cbn [for_each fst snd].
  destruct (place st d k v) as [st1|e] eqn:E; [|done].
  rewrite bind_Ok. intros Hrest. cbn [all_absorbed fst snd].
  destruct (place_takes_in _ _ _ _ _ E) as [Habs Hchain].
  split.
  - eapply absorbed_grow; [|exact Habs].
    intros k' n' Hn'. by eapply place_all_parents_grow.
  - rewrite <- Hchain. by apply IH.
Qed.

Lemma all_absorbed_scored g chain ss :
  all_absorbed (nodes g) chain ss ->
  all_absorbed (nodes (scored_graph g)) chain ss.
Proof.
  revert chain. induction ss as [|s ss IH]; intros chain; [done|].
  cbn [all_absorbed]. intros [(n & Hn & Hp) Hss]. split; [|by apply IH].
  eexists. split; [by rewrite scored_graph_get, Hn|]. exact Hp.
Qed.

(** X17. Parsing the same text into the graph it produced changes
    nothing: no node is added, no edge is recorded twice, no version,
    depth or score moves, and the root project stays; the parser returns
    the graph it was given. *)
Theorem parsing_again_changes_nothing (tree_text : str) :
  exists g,
    parse_dependency_tree tree_text = Ok g
    /\ parse_tree_text g tree_text = Ok g.
Proof.
  unfold parse_dependency_tree.
  destruct (parse_tree_text_spec new_graph tree_text) as (st & Hplace & ->).
  set (ss := sightings (lines_of tree_text)) in *.
  set (g := scored_graph st.1).
  exists g. split; [done|].
  destruct (parse_tree_text_spec g tree_text) as (st2 & Hplace2 & ->).
  fold ss in Hplace2.
  destruct (place_all_absorbed g ∅ ss) as (chain' & Hagain).
  { apply all_absorbed_scored. exact (place_all_takes_in _ _ _ Hplace). }
  rewrite Hagain in Hplace2. injection Hplace2 as <-. cbn [fst].
  destruct (place_all_root ss) as (st' & E & Hroot & _).
  rewrite Hplace in E. injection E as <-.
  assert (root_after (root_project st.1) ss = root_project g) as ->.
  { unfold root_after. change (root_project g) with (root_project st.1).
    rewrite Hroot. by destruct (last_root ss). }
  assert (set_root_project (root_project g) g = g) as -> by (by destruct g).
  f_equal. apply scored_graph_idem.
Qed.

(** ** Rounding keeps the order *)

Section RoundingOrder.
Local Open Scope Z_scope.
Local Open Scope Q_scope.

Lemma pow2_Qpower e : pow2 e == 2 ^ e.
Proof.
  unfold pow2. destruct (Z.leb_spec 0 e) as [H|H].
  - by rewrite Zpower_Qpower.
  - rewrite Zpower_Qpower by lia. rewrite Qpower_opp.
    by rewrite Qinv_involutive.
Qed.

Lemma pow2_plus a b : pow2 (a + b) == pow2 a * pow2 b.
Proof. rewrite !pow2_Qpower. by apply Qpower_plus. Qed.

Lemma pow2_le a b : (a <= b)%Z -> pow2 a <= pow2 b.
Proof. intros H. rewrite !pow2_Qpower. by apply Qpower_le_compat_l. Qed.

Lemma pow2_lt_inv a b : pow2 a < pow2 b -> (a < b)%Z.
Proof.
  rewrite !pow2_Qpower. intros H. by apply (Qpower_lt_compat_l_inv 2).
Qed.

Lemma pow2_int e : (0 <= e)%Z -> pow2 e = inject_Z (2 ^ e).
Proof. intros H. unfold pow2. apply Z.leb_le in H. by rewrite H. Qed.

Lemma pow2_log2_bounds (n : Z) :
  (0 < n)%Z ->
  pow2 (Z.log2 n) <= inject_Z n /\ inject_Z n < pow2 (Z.log2 n + 1).
Proof.
  intros Hn. pose proof (Z.log2_spec n Hn) as [H1 H2].
  pose proof (Z.log2_nonneg n) as H0.
  rewrite !pow2_int by lia. rewrite <- Zle_Qle, <- Zlt_Qlt.
  split; [done|]. by rewrite <- Z.add_1_r in H2.
Qed.

Lemma floor_log2_spec x :
  0 < x -> pow2 (floor_log2 x) <= x /\ x < pow2 (floor_log2 x + 1).
Proof.
  intros Hx. destruct x as [n d].
  assert (0 < n)%Z as Hn by (unfold Qlt in Hx; cbn in Hx; lia).
  destruct (pow2_log2_bounds n Hn) as [Hn1 Hn2].
  destruct (pow2_log2_bounds (Z.pos d) ltac:(done)) as [Hd1 Hd2].
  unfold floor_log2. cbn [Qnum Qden].
  set (ln := Z.log2 n) in *. set (ld := Z.log2 (Z.pos d)) in *.
  assert (0 < inject_Z (Z.pos d)) as Hdpos by done.
  assert (forall k, inject_Z n < pow2 k * inject_Z (Z.pos d) -> n # d < pow2 k)
    as Hlt.
  { intros k H. rewrite (Qmake_Qdiv n d). by apply Qlt_shift_div_r. }
  assert (forall k, pow2 k * inject_Z (Z.pos d) <= inject_Z n -> pow2 k <= n # d)
    as Hle.
  { intros k H. rewrite (Qmake_Qdiv n d). by apply Qle_shift_div_l. }
  destruct (Qle_bool (pow2 (ln - ld)) (n # d)) eqn:E.
  - apply Qle_bool_iff in E. split; [done|]. apply Hlt.
    eapply Qlt_le_trans; [exact Hn2|].
    replace (ln + 1)%Z with ((ln - ld + 1) + ld)%Z by lia.
    rewrite pow2_plus.
    apply Qmult_le_l; [apply pow2_pos|done].
  - split.
    + apply Hle.
      eapply Qle_trans; [|exact Hn1].
      replace ln with ((ln - ld - 1) + (ld + 1))%Z at 2 by lia.
      rewrite pow2_plus.
      apply Qmult_le_l; [apply pow2_pos|by apply Qlt_le_weak].
    + replace (ln - ld - 1 + 1)%Z with (ln - ld)%Z by lia.
      apply Qnot_le_lt. intros H. apply Qle_bool_iff in H. congruence.
Qed.

Lemma floor_log2_mono x y :
  0 < x -> x <= y -> (floor_log2 x <= floor_log2 y)%Z.
Proof.
  intros Hx Hxy.
  destruct (floor_log2_spec x Hx) as [H1 _].
  destruct (floor_log2_spec y) as [_ H2]; [by eapply Qlt_le_trans|].
  assert (floor_log2 x < floor_log2 y + 1)%Z; [|lia].
  apply pow2_lt_inv.
  eapply Qle_lt_trans; [exact H1|]. by eapply Qle_lt_trans.
Qed.

Lemma round_half_even_floor q : (Qfloor q <= round_half_even q)%Z.
Proof. destruct (round_half_even_cases q) as [-> |[-> _]]; lia. Qed.

Lemma round_half_even_ge_int q (N : Z) :
  inject_Z N <= q -> (N <= round_half_even q)%Z.
Proof.
  intros H. pose proof (round_half_even_floor q).
  assert (N <= Qfloor q)%Z; [|lia].
  rewrite <- (Qfloor_Z N). by apply Qfloor_resp_le.
Qed.

Lemma round_half_even_mono x y :
  x <= y -> (round_half_even x <= round_half_even y)%Z.
Proof.
  intros Hxy. pose proof (Qfloor_resp_le _ _ Hxy) as Hf.
  pose proof (round_half_even_floor y) as Hy.
  destruct (Z.eq_dec (Qfloor x) (Qfloor y)) as [E|Hne].
  2:{ destruct (round_half_even_cases x) as [-> |[-> _]]; lia. }
  revert Hxy E Hy. clear Hf.
  unfold round_half_even, Qfloor, Qle. destruct x as [n d], y as [n' d'].
  cbn [Qnum Qden]. intros Hxy E _. rewrite <- E.
  set (f := (n / Z.pos d)%Z) in *.
  assert (n' - f * Z.pos d' = n' mod Z.pos d')%Z as Hr'.
  { rewrite E. pose proof (Z.div_mod n' (Z.pos d') ltac:(done)). lia. }
  assert (n - f * Z.pos d = n mod Z.pos d)%Z as Hr.
  { subst f. pose proof (Z.div_mod n (Z.pos d) ltac:(done)). lia. }
  set (r := (n - f * Z.pos d)%Z) in *.
  set (r' := (n' - f * Z.pos d')%Z) in *.
  assert (r * Z.pos d' <= r' * Z.pos d)%Z as Hrr by (subst r r'; nia).
  destruct (Z.ltb_spec (2 * r) (Z.pos d)) as [H1|H1].
  { destruct (Z.ltb_spec (2 * r') (Z.pos d')); [lia|].
    destruct (Z.ltb_spec (Z.pos d') (2 * r')); [lia|].
    destruct (Z.even f); lia. }
  destruct (Z.ltb_spec (2 * r') (Z.pos d')) as [H2|H2]; [nia|].
  destruct (Z.ltb_spec (Z.pos d) (2 * r)) as [H3|H3].
  { destruct (Z.ltb_spec (Z.pos d') (2 * r')) as [H4|H4]; [lia|nia]. }
  destruct (Z.ltb_spec (Z.pos d') (2 * r')) as [H4|H4];
    destruct (Z.even f); lia.
Qed.

(** A positive number rounds to a multiple of its unit in the last
    place. *)
Lemma binary64_positive x :
  0 < x ->
  let r := Qred x in
  let u := Z.max (floor_log2 r - 52) (-1074) in
  0 < r /\ r == x
  /\ binary64 x == inject_Z (round_half_even (r / pow2 u)) * pow2 u.
Proof.
  intros Hx r u. pose proof (Qred_correct x) as Hred. fold r in Hred.
  assert (0 < r) as Hr by (by rewrite Hred).
  split; [done|]. split; [done|].
  unfold binary64. fold r.
  assert ((Qnum r =? 0)%Z = false) as ->.
  { apply Z.eqb_neq. destruct r as [n d]. unfold Qlt in Hr.
    cbn [Qnum Qden] in *. lia. }
  assert (Qabs r = r) as ->.
  { destruct r as [n d]. unfold Qlt in Hr. cbn [Qnum Qden Qabs] in *.
    rewrite Z.abs_eq by lia. done. }
  assert (Z.sgn (Qnum r) = 1%Z) as ->.
  { destruct r as [n d]. unfold Qlt in Hr. cbn [Qnum Qden] in *.
    apply Z.sgn_pos. lia. }
  cbv zeta. fold u. by rewrite Qred_correct, Z.mul_1_l.
Qed.

Lemma binary64_nonneg x : 0 <= x -> 0 <= binary64 x.
Proof.
  intros H0. destruct (Qlt_le_dec 0 x) as [Hx|Hx].
  - destruct (binary64_positive x Hx) as (Hr & _ & ->).
    apply Qmult_le_0_compat; [|apply Qlt_le_weak, pow2_pos].
    change 0 with (inject_Z 0). rewrite <- Zle_Qle.
    apply round_half_even_nonneg.
    apply Qle_shift_div_l; [apply pow2_pos|].
    rewrite Qmult_0_l. by apply Qlt_le_weak.
  - assert (x == 0) as E by (by apply Qle_antisym).
    rewrite (binary64_proper _ _ E). done.
Qed.

(** Rounding to the nearest double keeps the order of numbers that are
    not negative. *)
Lemma binary64_mono x y : 0 <= x -> x <= y -> binary64 x <= binary64 y.
Proof.
  intros H0 Hxy. destruct (Qlt_le_dec 0 x) as [Hx|Hx].
  2:{ assert (x == 0) as E by (by apply Qle_antisym).
      rewrite (binary64_proper _ _ E).
      apply (binary64_nonneg y). by eapply Qle_trans. }
  assert (0 < y) as Hy by (by eapply Qlt_le_trans).
  destruct (binary64_positive x Hx) as (Hrx & Ex & ->).
  destruct (binary64_positive y Hy) as (Hry & Ey & ->).
  set (rx := Qred x) in *. set (ry := Qred y) in *.
  assert (rx <= ry) as Hr by (by rewrite Ex, Ey).
  pose proof (floor_log2_mono rx ry Hrx Hr) as He.
  destruct (floor_log2_spec rx Hrx) as [_ Hxu].
  destruct (floor_log2_spec ry Hry) as [Hyl _].
  set (ex := floor_log2 rx) in *. set (ey := floor_log2 ry) in *.
  set (ux := Z.max (ex - 52) (-1074)). set (uy := Z.max (ey - 52) (-1074)).
  destruct (Z.eq_dec ux uy) as [E|Hne].
  - rewrite E. apply Qmult_le_compat_r; [|apply Qlt_le_weak, pow2_pos].
    rewrite <- Zle_Qle. apply round_half_even_mono.
    apply Qmult_le_compat_r; [done|].
    apply Qlt_le_weak, Qinv_lt_0_compat, pow2_pos.
  - assert (ux < uy)%Z as Hu by (subst ux uy; lia).
    assert (uy = ey - 52)%Z as Euy by (subst ux uy; lia).
    assert (ex + 1 <= ey)%Z as Hex by (subst ux uy; lia).
    apply Qle_trans with (pow2 ey).
    + assert (pow2 ey == inject_Z (2 ^ (ey - ux)) * pow2 ux) as ->.
      { rewrite <- pow2_int by lia. rewrite <- pow2_plus.
        by replace (ey - ux + ux)%Z with ey by lia. }
      apply Qmult_le_compat_r; [|apply Qlt_le_weak, pow2_pos].
      rewrite <- Zle_Qle. apply round_half_even_le_int.
      apply Qle_shift_div_r; [apply pow2_pos|].
      rewrite <- pow2_int by lia. rewrite <- pow2_plus.
      replace (ey - ux + ux)%Z with ey by lia.
      apply Qlt_le_weak. eapply Qlt_le_trans; [exact Hxu|].
      by apply pow2_le.
    + assert (pow2 ey == inject_Z (2 ^ 52) * pow2 uy) as ->.
      { rewrite <- pow2_int by lia. rewrite <- pow2_plus.
        by replace (52 + uy)%Z with ey by lia. }
      apply Qmult_le_compat_r; [|apply Qlt_le_weak, pow2_pos].
      rewrite <- Zle_Qle. apply round_half_even_ge_int.
      apply Qle_shift_div_l; [apply pow2_pos|].
      rewrite <- pow2_int by lia. rewrite <- pow2_plus.
      by replace (52 + uy)%Z with ey by lia.
Qed.
End RoundingOrder.

(** ** Scores and degree *)

Section ScoreOrder.
Local Open Scope Z_scope.
Local Open Scope Q_scope.

Lemma float_quotient_mono a a' b :
  (a <= a')%nat -> (0 < b)%nat -> float_quotient a b <= float_quotient a' b.
Proof.
  intros Ha Hb. unfold float_quotient.
  assert (0 < inject_Z (Z.of_nat b)) as Hbq.
  { change 0 with (inject_Z 0). rewrite <- Zlt_Qlt. lia. }
  apply binary64_mono.
  - apply Qle_shift_div_l; [done|]. rewrite Qmult_0_l.
    change 0 with (inject_Z 0). rewrite <- Zle_Qle. lia.
  - apply Qmult_le_compat_r; [|by apply Qlt_le_weak, Qinv_lt_0_compat].
    rewrite <- Zle_Qle. lia.
Qed.

Lemma float_mul_mono x x' y y' :
  0 <= x -> x <= x' -> 0 <= y -> y <= y' ->
  0 <= float_mul x y /\ float_mul x y <= float_mul x' y'.
Proof.
  intros Hx Hxx Hy Hyy. unfold float_mul.
  assert (0 <= x * y) as H0 by (by apply Qmult_le_0_compat).
  split; [by apply binary64_nonneg|].
  apply binary64_mono; [done|].
  apply Qle_trans with (x' * y).
  - by apply Qmult_le_compat_r.
  - rewrite !(Qmult_comm x'). apply Qmult_le_compat_r; [done|].
    by apply Qle_trans with x.
Qed.

Lemma clamp_mono x y :
  x <= y -> float_min 1 (float_max 0 x) <= float_min 1 (float_max 0 y).
Proof.
  intros Hxy. unfold float_min, float_max.
  destruct (Qle_bool x 0) eqn:Ex, (Qle_bool y 0) eqn:Ey;
    try apply Qle_bool_iff in Ex; try apply Qle_bool_iff in Ey;
    change (Qle_bool 1 0) with false; cbv iota.
  - apply Qle_refl.
  - destruct (Qle_bool 1 y) eqn:E1; [done|].
    apply Qlt_le_weak, Qnot_le_lt. intros H%Qle_bool_iff. congruence.
  - exfalso. assert (Qle_bool x 0 = true); [|congruence].
    apply Qle_bool_iff. by eapply Qle_trans.
  - destruct (Qle_bool 1 x) eqn:E1, (Qle_bool 1 y) eqn:E2;
      try apply Qle_bool_iff in E1; try apply Qle_bool_iff in E2.
    + apply Qle_refl.
    + exfalso. assert (Qle_bool 1 y = true); [|congruence].
      apply Qle_bool_iff. by eapply Qle_trans.
    + apply Qlt_le_weak, Qnot_le_lt. intros H%Qle_bool_iff. congruence.
    + done.
Qed.

Lemma depth_factor_mono d d' m :
  (d' <= d)%nat -> (d <= m)%nat -> (0 < m)%nat ->
  let factor := fun k =>
    float_sub 1 (float_mul (float_quotient k m) (float_lit (1 # 2))) in
  0 <= factor d /\ factor d <= factor d'.
Proof.
  intros Hdd Hdm Hm factor. subst factor. cbv beta.
  destruct (float_quotient_unit_interval d m Hdm Hm) as [Hq0 Hq1].
  destruct (float_quotient_unit_interval d' m ltac:(lia) Hm) as [Hq0' Hq1'].
  pose proof (float_quotient_mono d' d m Hdd Hm) as Hq.
  assert (float_lit (1 # 2) == 1 # 2) as Hhalf by (by vm_compute).
  assert (forall q, 0 <= q -> q <= 1 ->
            0 <= float_mul q (float_lit (1 # 2))
            /\ float_mul q (float_lit (1 # 2)) <= 1) as Hunit.
  { intros q H0 H1. unfold float_mul. apply binary64_unit_interval.
    - apply Qmult_le_0_compat; [done|]. by rewrite Hhalf.
    - rewrite Hhalf. lra. }
  destruct (Hunit _ Hq0 Hq1) as [Ht0 Ht1].
  destruct (Hunit _ Hq0' Hq1') as [Ht0' Ht1'].
  assert (0 <= float_lit (1 # 2)) as Hh0 by (by rewrite Hhalf).
  destruct (float_mul_mono (float_quotient d' m) (float_quotient d m)
              (float_lit (1 # 2)) (float_lit (1 # 2)) Hq0' Hq Hh0
              (Qle_refl _)) as [_ Ht].
  unfold float_sub. split.
  - apply binary64_nonneg. lra.
  - apply binary64_mono; lra.
Qed.

Lemma scored_mono md mx n n' :
  (degree n <= degree n')%nat -> (degree n' <= md)%nat -> (0 < md)%nat ->
  (depth n' <= depth n)%nat -> (depth n <= mx + 1)%nat ->
  (is_direct n = true -> is_direct n' = true) ->
  centrality_score (scored md mx n) <= centrality_score (scored md mx n')
  /\ impact_score (scored md mx n) <= impact_score (scored md mx n').
Proof.
  intros Hdeg Hmd Hpos Hdep Hmx Hdir. unfold scored.
  cbn [centrality_score impact_score set_scores].
  pose proof (float_quotient_mono _ _ md Hdeg Hpos) as Hc.
  destruct (float_quotient_unit_interval (degree n) md ltac:(lia) Hpos)
    as [Hc0 _].
  split; [done|]. apply clamp_mono.
  destruct (depth_factor_mono (depth n) (depth n') (mx + 1) Hdep Hmx
              ltac:(lia)) as [Hf0 Hf].
  cbv zeta beta in Hf0, Hf.
  destruct (float_mul_mono _ _ _ _ Hc0 Hc Hf0 Hf) as [Hm0 Hm].
  apply float_mul_mono; try done.
  - by destruct (is_direct n); vm_compute.
  - destruct (is_direct n) eqn:E.
    + rewrite Hdir by done. apply Qle_refl.
    + by destruct (is_direct n'); vm_compute.
Qed.
End ScoreOrder.

Lemma depth_le_graph_max g k n :
  dict_get k (nodes g) = Some n -> depth n <= graph_max_depth g.
Proof.
  intros Hn. apply max_list_elem_of_le, list_elem_of_fmap. exists n.
  split; [done|]. apply list_elem_of_fmap. exists (k, n).
  split; [done|]. by apply dict_get_elem.
Qed.

(** X18. After a parse the scores follow the shape of the graph: of two
    nodes, the one with at least as many edges has at least the
    centrality of the other, and if it is also no deeper, and direct if
    the other is, it has at least its impact. The rounding of the
    floating-point operations never turns the order round. *)
Theorem scores_follow_the_degree (self : DependencyGraph) (tree_text : str) :
  exists g,
    parse_tree_text self tree_text = Ok g
    /\ forall k n k' n',
        dict_get k (nodes g) = Some n ->
        dict_get k' (nodes g) = Some n' ->
        degree n <= degree n' ->
        (centrality_score n <= centrality_score n')%Q
        /\ (depth n' <= depth n ->
            (is_direct n = true -> is_direct n' = true) ->
            (impact_score n <= impact_score n')%Q).
Proof.
  destruct (parse_tree_text_spec self tree_text) as (st & _ & ->).
  set (g0 := st.1). exists (scored_graph g0). split; [done|].
  intros k n1 k' n1' Hn Hn' Hdeg.
  rewrite scored_graph_get in Hn, Hn'.
  apply fmap_Some in Hn as (n & Hn & ->).
  apply fmap_Some in Hn' as (n' & Hn' & ->).
  set (md := Nat.max (graph_max_degree g0) 1) in *.
  set (mx := Nat.max (graph_max_depth g0) 1) in *.
  assert (degree (scored md mx n) = degree n) as E by done.
  assert (degree (scored md mx n') = degree n') as E' by done.
  rewrite E, E' in Hdeg.
  pose proof (degree_le_graph_max _ _ _ Hn') as Hmd.
  pose proof (depth_le_graph_max _ _ _ Hn) as Hmx.
  split.
  - unfold scored. cbn [centrality_score set_scores].
    apply float_quotient_mono; [done|subst md; lia].
  - intros Hdep Hdir.
    apply scored_mono; try done; subst md mx; lia.
Qed.
